(** * IRVS remote-access agent: cipher, wire codec, broker, session, control plane

    A shallow embedding of the parts of
    [src/RemoteDesktopServer/RemoteDesktopServer.cpp] and
    [src/AgentCore/IPC/IPCFramework.cpp] that the specification talks
    about, followed by the properties established about them.

    Conventions.
    - [uint8_t] values are [Byte.byte]; [u8_val] reads one as a number and
      [u8_of] is [static_cast<uint8_t>].
    - wider unsigned integers are [Z] with the wrap-around written out
      ([wrap 16], [wrap 32], [wrap 64]); [int] and [unsigned int] are 32 bits
      wide and [size_t] is 64 bits wide, as on every platform the sources
      have branches for.
    - [std::string] is [string]; [std::vector<uint8_t>] is [list byte].
    - threads are not run: a thread handle records whether a thread was
      attached to it, and each method is one atomic state transformer. *)

From Stdlib Require Import ZArith List Lia Bool Ascii String.
From Stdlib.Strings Require Import Byte.
From Stdlib Require Import DecimalString DecimalPos.
From stdpp Require Import base option list strings gmap.

Local Open Scope Z_scope.

(** ** Machine integers *)

Definition wrap (w : Z) (x : Z) : Z := x mod 2 ^ w.

Definition u8_val (b : byte) : Z := Z.of_N (Byte.to_N b).

Definition u8_of (x : Z) : byte :=
  match Byte.of_N (Z.to_N (wrap 8 x)) with
  | Some b => b
  | None => x00
  end.

(** [a ^ b] on two [uint8_t], stored back into a [uint8_t]. *)
Definition byte_xor (a b : byte) : byte := u8_of (Z.lxor (u8_val a) (u8_val b)).

(** The characters of a [std::string] seen as [uint8_t], and back. *)
Definition bytes_of_string (s : string) : list byte := list_byte_of_string s.
Definition string_of_bytes (l : list byte) : string := string_of_list_byte l.

(** ** Reads from a [std::vector<uint8_t>]

    [operator[]] and [assign(ptr, n)] do no bounds checking; a read outside
    the vector is undefined behaviour and is the [PastBuffer] outcome. *)

Inductive Read (A : Type) : Type :=
| Got (a : A)
| PastBuffer.
Arguments Got {A} a.
Arguments PastBuffer {A}.

Definition read_bind {A B} (r : Read A) (k : A -> Read B) : Read B :=
  match r with
  | Got a => k a
  | PastBuffer => PastBuffer
  end.

Notation "x <~ r ;; k" := (read_bind r (fun x => k))
  (at level 100, r at next level, right associativity).

(** [data[i]] *)
Definition byte_at (data : list byte) (i : Z) : Read byte :=
  if (0 <=? i) && (i <? Z.of_nat (length data))
  then match nth_error data (Z.to_nat i) with
       | Some b => Got b
       | None => PastBuffer
       end
  else PastBuffer.

(** [assign(reinterpret_cast<const char*>(&data[off]), n)]: the [n] bytes
    starting at offset [off]. *)
Definition read_bytes (data : list byte) (off n : Z) : Read (list byte) :=
  if (0 <=? off) && (0 <=? n) && (off + n <=? Z.of_nat (length data))
  then Got (firstn (Z.to_nat n) (skipn (Z.to_nat off) data))
  else PastBuffer.

(** ** Cipher: [EncryptionManager] *)

Module EncryptionManager.

(** [uint8_t _key[32]] *)
Definition key_at (key : list byte) (i : nat) : byte :=
  nth (i mod 32)%nat key x00.

(** [encrypted[i] = data[i] ^ _key[i % 32]] for every index of [data]. *)
Definition Encrypt (key : list byte) (data : list byte) : list byte :=
  imap (fun i d => byte_xor d (key_at key i)) data.

(** [return Encrypt(data); // XOR is symmetric] *)
Definition Decrypt (key : list byte) (data : list byte) : list byte :=
  Encrypt key data.

(** [NegotiateKey] only logs and reports success. *)
Definition NegotiateKey (clientSocket : Z) : bool := true.

End EncryptionManager.

(** ** Wire codec: [SerializableMessage] *)

Module SerializableMessage.

(** [enum class MessageType]: the field holds the enumeration's underlying
    value, since [Deserialize] casts an arbitrary byte into it. *)
Definition CONTROL : Z := 0.
Definition SCREEN_DATA : Z := 1.
Definition INPUT : Z := 2.
Definition AUDIO : Z := 3.
Definition CHAT : Z := 4.
Definition FILE_TRANSFER : Z := 5.
Definition CLIPBOARD : Z := 6.
Definition UNDEFINED : Z := 255.

(** The enumerators of [include/RemoteDesktopServer/RemoteDesktopServer.h];
    those of the second header (COMMAND, RESPONSE, STATUS, ERROR = 0..3)
    are among them. *)
Definition MessageType_defined (t : Z) : Prop :=
  In t [CONTROL; SCREEN_DATA; INPUT; AUDIO; CHAT; FILE_TRANSFER; CLIPBOARD; UNDEFINED].

Record t : Type := Build {
  type : Z;
  source : string;
  target : string;
  content : string;
  timestamp : Z
}.

(** A default-constructed message: [type = MessageType::UNDEFINED],
    empty strings, [timestamp = 0]. *)
Definition empty : t :=
  {| type := UNDEFINED; source := ""; target := ""; content := ""; timestamp := 0 |}.

(** [std::string::size()] *)
Definition size (s : string) : Z := Z.of_nat (String.length s).

(** The loop [for (int i = 0; i < 8; ++i) result.push_back((timestamp >> (i * 8)) & 0xFF)]. *)
Definition timestamp_bytes (ts : Z) : list byte :=
  map (fun i : nat => u8_of (Z.land (Z.shiftr ts (Z.of_nat i * 8)) 255)) (seq 0 8).

Definition Serialize (m : t) : list byte :=
  let sourceLen := wrap 16 (size (source m)) in
  let targetLen := wrap 16 (size (target m)) in
  let contentLen := wrap 32 (size (content m)) in
  [u8_of (type m)]
  ++ [u8_of (Z.land sourceLen 255); u8_of (Z.land (Z.shiftr sourceLen 8) 255)]
  ++ [u8_of (Z.land targetLen 255); u8_of (Z.land (Z.shiftr targetLen 8) 255)]
  ++ [u8_of (Z.land contentLen 255); u8_of (Z.land (Z.shiftr contentLen 8) 255);
      u8_of (Z.land (Z.shiftr contentLen 16) 255);
      u8_of (Z.land (Z.shiftr contentLen 24) 255)]
  ++ timestamp_bytes (timestamp m)
  ++ bytes_of_string (source m)
  ++ bytes_of_string (target m)
  ++ bytes_of_string (content m).

(** The loop [for (int i = 0; i < 8; ++i) msg.timestamp |= uint64_t(data[9 + i]) << (i * 8)],
    started at index [i] with [n] iterations to go. *)
Fixpoint read_timestamp (data : list byte) (i n : nat) (acc : Z) : Read Z :=
  match n with
  | O => Got acc
  | S n' =>
      b <~ byte_at data (9 + Z.of_nat i) ;;
      read_timestamp data (S i) n'
        (Z.lor acc (wrap 64 (Z.shiftl (u8_val b) (Z.of_nat i * 8))))
  end.

Definition Deserialize (data : list byte) : Read t :=
  let msg := empty in
  if Z.of_nat (length data) <? 17 then Got msg else
  b0 <~ byte_at data 0 ;;
  b1 <~ byte_at data 1 ;;
  b2 <~ byte_at data 2 ;;
  b3 <~ byte_at data 3 ;;
  b4 <~ byte_at data 4 ;;
  b5 <~ byte_at data 5 ;;
  b6 <~ byte_at data 6 ;;
  b7 <~ byte_at data 7 ;;
  b8 <~ byte_at data 8 ;;
  let sourceLen := wrap 16 (Z.lor (u8_val b1) (Z.shiftl (u8_val b2) 8)) in
  let targetLen := wrap 16 (Z.lor (u8_val b3) (Z.shiftl (u8_val b4) 8)) in
  let contentLen :=
    Z.lor (Z.lor (Z.lor (u8_val b5) (wrap 32 (Z.shiftl (u8_val b6) 8)))
                 (wrap 32 (Z.shiftl (u8_val b7) 16)))
          (wrap 32 (Z.shiftl (u8_val b8) 24)) in
  ts <~ read_timestamp data 0 8 0 ;;
  (* 17 + sourceLen + targetLen is an int; adding the uint32_t makes the
     sum an unsigned int, which is then widened to size_t *)
  let expectedSize := wrap 32 (17 + sourceLen + targetLen + contentLen) in
  if Z.of_nat (length data) <? expectedSize then Got empty else
  src <~ read_bytes data 17 sourceLen ;;
  tgt <~ read_bytes data (17 + sourceLen) targetLen ;;
  cnt <~ read_bytes data (17 + sourceLen + targetLen) contentLen ;;
  Got {| type := u8_val b0;
         source := string_of_bytes src;
         target := string_of_bytes tgt;
         content := string_of_bytes cnt;
         timestamp := ts |}.

End SerializableMessage.

(** ** Threads and process aborts

    A [std::thread] handle is its [joinable()] flag.  Move-assigning a new
    thread to a joinable handle calls [std::terminate], which is the
    [Terminate] outcome. *)

Inductive Run (A : Type) : Type :=
| Done (a : A)
| Terminate.
Arguments Done {A} a.
Arguments Terminate {A}.

Definition thread : Type := bool.

(** [handle = std::thread(...)] *)
Definition thread_assign (handle : thread) : Run thread :=
  if handle then Terminate else Done true.

(** [if (handle.joinable()) handle.join();] *)
Definition thread_join (handle : thread) : thread := false.

(** ** Broker: [Sysguard::IPC::IPCBroker] *)

Module IPC.

Inductive MessageType : Type :=
| REGISTER | UNREGISTER | COMMAND | RESPONSE | STATUS | ALERT | DATA.

Record Message : Type := {
  id : string;
  sourceModule : string;
  targetModule : string;
  type : MessageType;
  payload : string;
  correlationId : string
}.

(** What one call of a [MessageHandler] does, as far as the dispatch loop
    can tell: it returns, it throws something derived from
    [std::exception] (caught and logged by the loop), or it throws
    anything else (not caught: the worker thread ends in [std::terminate]).
    What a handler does to the broker while it runs is described apart
    ([Effects]); it does not change which handlers one dispatch calls, the
    target modules being copied before and the handlers mutex held while
    the handlers run. *)
Inductive HandlerResult : Type :=
| Returns | ThrowsStdException | ThrowsOther.

Definition MessageHandler : Type := Message -> HandlerResult.

Record IPCBroker : Type := {
  _running : bool;
  _processingThread : thread;
  _messageQueue : list Message;
  _handlers : gmap string (list MessageHandler);
  _registeredModules : list string;
  (** ghost: how many processing threads were ever created *)
  threads_spawned : nat
}.

(** The constructor: [_running(false)], everything else empty. *)
Definition new : IPCBroker :=
  {| _running := false; _processingThread := false; _messageQueue := [];
     _handlers := ∅; _registeredModules := []; threads_spawned := 0 |}.

Definition Start (b : IPCBroker) : Run (bool * IPCBroker) :=
  if _running b then Done (true, b)
  else
    match thread_assign (_processingThread b) with
    | Terminate => Terminate
    | Done th =>
        Done (true,
              {| _running := true; _processingThread := th;
                 _messageQueue := _messageQueue b; _handlers := _handlers b;
                 _registeredModules := _registeredModules b;
                 threads_spawned := S (threads_spawned b) |})
    end.

Definition Stop (b : IPCBroker) : IPCBroker :=
  if negb (_running b) then b
  else
    {| _running := false; _processingThread := thread_join (_processingThread b);
       _messageQueue := []; _handlers := ∅; _registeredModules := [];
       threads_spawned := threads_spawned b |}.

(** [std::find(...) != end()] on the registry *)
Definition IsModuleRegistered (moduleName : string) (b : IPCBroker) : bool :=
  bool_decide (moduleName ∈ _registeredModules b).

Definition RegisterModule (moduleName : string) (b : IPCBroker) : bool * IPCBroker :=
  if IsModuleRegistered moduleName b then (false, b)
  else
    (true,
     {| _running := _running b; _processingThread := _processingThread b;
        _messageQueue := _messageQueue b; _handlers := _handlers b;
        _registeredModules := _registeredModules b ++ [moduleName];
        threads_spawned := threads_spawned b |}).

(** [erase(it)] at the position [std::find] returned: the first occurrence. *)
Fixpoint erase_first (x : string) (l : list string) : list string :=
  match l with
  | [] => []
  | y :: l' => if decide (y = x) then l' else y :: erase_first x l'
  end.

Definition UnregisterModule (moduleName : string) (b : IPCBroker) : bool * IPCBroker :=
  if IsModuleRegistered moduleName b then
    (true,
     {| _running := _running b; _processingThread := _processingThread b;
        _messageQueue := _messageQueue b;
        _handlers := delete moduleName (_handlers b);
        _registeredModules := erase_first moduleName (_registeredModules b);
        threads_spawned := threads_spawned b |})
  else (false, b).

Definition SendMessage (message : Message) (b : IPCBroker) : bool * IPCBroker :=
  if negb (_running b) then (false, b)
  else if decide (sourceModule message = "") then (false, b)
  else
    (true,
     {| _running := _running b; _processingThread := _processingThread b;
        _messageQueue := _messageQueue b ++ [message];
        _handlers := _handlers b;
        _registeredModules := _registeredModules b;
        threads_spawned := threads_spawned b |}).

(** The handlers stored under a name; [_handlers.find] failing is the empty list. *)
Definition handlers_of (b : IPCBroker) (moduleName : string) : list MessageHandler :=
  default [] (_handlers b !! moduleName).

(** [handler] is [None] for an empty [std::function]. *)
Definition RegisterHandler (moduleName : string) (handler : option MessageHandler)
    (b : IPCBroker) : bool * IPCBroker :=
  match handler with
  | None => (false, b)
  | Some h =>
      (true,
       {| _running := _running b; _processingThread := _processingThread b;
          _messageQueue := _messageQueue b;
          _handlers := <[moduleName := handlers_of b moduleName ++ [h]]> (_handlers b);
          _registeredModules := _registeredModules b;
          threads_spawned := threads_spawned b |})
  end.

(** One handler invocation made by the dispatch loop. *)
Record Call : Type := {
  call_module : string;
  call_handler : MessageHandler;
  call_message : Message
}.

(** "Determine target modules": a copy of the registry with every
    occurrence of the source removed, or the single named target. *)
Definition targetModules (b : IPCBroker) (message : Message) : list string :=
  if decide (targetModule message = "")
  then filter (fun m => m <> sourceModule message) (_registeredModules b)
  else [targetModule message].

(** The inner loop [for (const auto& handler : it->second)]: the calls made,
    and whether the worker thread survived them. *)
Fixpoint call_handlers (target : string) (hs : list MessageHandler) (message : Message)
    : list Call * bool :=
  match hs with
  | [] => ([], true)
  | h :: hs' =>
      let c := {| call_module := target; call_handler := h; call_message := message |} in
      match h message with
      | ThrowsOther => ([c], false)
      | Returns | ThrowsStdException =>
          let '(cs, alive) := call_handlers target hs' message in (c :: cs, alive)
      end
  end.

(** The outer loop [for (const auto& targetModule : targetModules)]. *)
Fixpoint call_targets (b : IPCBroker) (targets : list string) (message : Message)
    : list Call * bool :=
  match targets with
  | [] => ([], true)
  | t :: targets' =>
      let '(cs, alive) := call_handlers t (handlers_of b t) message in
      if alive
      then let '(cs', alive') := call_targets b targets' message in (cs ++ cs', alive')
      else (cs, false)
  end.

(** "Process message": the body of [if (hasMessage)]. *)
Definition dispatch (b : IPCBroker) (message : Message) : list Call * bool :=
  call_targets b (targetModules b message) message.

(** One iteration of the worker loop [while (_running)] that finds a
    message: pop the front of the queue and dispatch it.  [None] when the
    loop is over or the queue is empty (the loop waits). *)
Definition ProcessMessages_step (b : IPCBroker) : option (IPCBroker * list Call * bool) :=
  if negb (_running b) then None
  else
    match _messageQueue b with
    | [] => None
    | message :: rest =>
        let b' :=
          {| _running := _running b; _processingThread := _processingThread b;
             _messageQueue := rest; _handlers := _handlers b;
             _registeredModules := _registeredModules b;
             threads_spawned := threads_spawned b |} in
        let '(cs, alive) := dispatch b' message in
        Some (b', cs, alive)
    end.

End IPC.

(** ** Session *)

Module Session.

Record t : Type := {
  _clientSocket : Z;
  _running : bool;
  _screenThread : thread;
  _inputThread : thread;
  (** ghost: the peer socket has not been closed by this object *)
  socket_open : bool;
  (** ghost: how many loop threads were ever created *)
  threads_spawned : nat
}.

(** [Session(int clientSocket)] *)
Definition new (clientSocket : Z) : t :=
  {| _clientSocket := clientSocket; _running := false;
     _screenThread := false; _inputThread := false;
     socket_open := true; threads_spawned := 0 |}.

Definition Start (s : t) : Run (bool * t) :=
  if _running s then Done (false, s)
  else
    match thread_assign (_screenThread s) with
    | Terminate => Terminate
    | Done th1 =>
        match thread_assign (_inputThread s) with
        | Terminate => Terminate
        | Done th2 =>
            Done (true,
                  {| _clientSocket := _clientSocket s; _running := true;
                     _screenThread := th1; _inputThread := th2;
                     socket_open := socket_open s;
                     threads_spawned := S (S (threads_spawned s)) |})
        end
    end.

Definition Stop (s : t) : t :=
  if negb (_running s) then s
  else
    {| _clientSocket := _clientSocket s; _running := false;
       _screenThread := thread_join (_screenThread s);
       _inputThread := thread_join (_inputThread s);
       socket_open := false;
       threads_spawned := threads_spawned s |}.

(** The input loop seeing an empty receive: [_running = false; break;]. *)
Definition peer_disconnected (s : t) : t :=
  {| _clientSocket := _clientSocket s; _running := false;
     _screenThread := _screenThread s; _inputThread := _inputThread s;
     socket_open := socket_open s; threads_spawned := threads_spawned s |}.

End Session.

(** ** The end of a session object *)

(** [~Session() { Stop(); }] followed by the destruction of the members:
    destroying a [std::thread] that is still joinable calls
    [std::terminate]. *)
Definition Session_destroy (s : Session.t) : Run unit :=
  let s' := Session.Stop s in
  if Session._inputThread s' || Session._screenThread s' then Terminate else Done tt.

(** ** Standard-library string helpers used by the control plane *)

Definition NUL : ascii := "000"%char.

(** The double-quote character, for the JSON text the server builds. *)
Definition dq : string := String "034"%char EmptyString.

(** [s] between double quotes. *)
Definition quoted (s : string) : string := dq +:+ s +:+ dq.

(** The C string stored in a character array: the characters before the
    first NUL. *)
Fixpoint c_str (s : string) : string :=
  match s with
  | EmptyString => EmptyString
  | String c rest => if Ascii.eqb c NUL then EmptyString else String c (c_str rest)
  end.

(** [std::to_string] on an integer. *)
Definition to_string (x : Z) : string := NilZero.string_of_int (Z.to_int x).

(** [s.compare(pos, len, lit) == 0] for [pos <= s.size()]. *)
Definition compare_eq (pos len : nat) (s lit : string) : bool :=
  String.eqb (substring pos len s) lit.

(** [s.substr(pos)]; [None] when it throws [std::out_of_range]. *)
Definition substr (pos : nat) (s : string) : option string :=
  if (pos <=? String.length s)%nat
  then Some (substring pos (String.length s - pos) s)
  else None.

(** [isspace] in the C locale. *)
Definition isspace (c : ascii) : bool :=
  let n := nat_of_ascii c in
  (n =? 32)%nat || ((9 <=? n)%nat && (n <=? 13)%nat).

Definition digit_val (c : ascii) : option Z :=
  let n := nat_of_ascii c in
  if (48 <=? n)%nat && (n <=? 57)%nat then Some (Z.of_nat n - 48) else None.

Fixpoint skip_space (s : string) : string :=
  match s with
  | String c rest => if isspace c then skip_space rest else s
  | EmptyString => s
  end.

(** The longest run of decimal digits at the front of [s], as a number;
    [None] when there is no digit. *)
Fixpoint read_digits (s : string) (acc : Z) (seen : bool) : option Z :=
  match s with
  | String c rest =>
      match digit_val c with
      | Some d => read_digits rest (acc * 10 + d) true
      | None => if seen then Some acc else None
      end
  | EmptyString => if seen then Some acc else None
  end.

(** [std::stoi(s)]: leading white space, an optional sign, decimal digits;
    [None] when it throws ([std::invalid_argument] without digits,
    [std::out_of_range] outside [int]). *)
Definition stoi (s : string) : option Z :=
  let s1 := skip_space s in
  let '(neg, s2) :=
    match s1 with
    | String c rest =>
        if Ascii.eqb c "-"%char then (true, rest)
        else if Ascii.eqb c "+"%char then (false, rest)
        else (false, s1)
    | EmptyString => (false, s1)
    end in
  match read_digits s2 0 false with
  | None => None
  | Some v =>
      let v' := if neg then - v else v in
      if (- 2 ^ 31 <=? v') && (v' <? 2 ^ 31) then Some v' else None
  end.

(** What [strncpy(dst, src, n)] stores in [dst[0..n-1]]: the characters of
    [src] up to its terminator, padded with NUL to exactly [n] characters. *)
Fixpoint strncpy (src : string) (n : nat) {struct n} : list ascii :=
  match n with
  | O => []
  | S n' =>
      match src with
      | EmptyString => repeat NUL (S n')
      | String c rest =>
          if Ascii.eqb c NUL then repeat NUL (S n') else c :: strncpy rest n'
      end
  end.

(** Storing [chars] at [buf[pos..]]; [None] when a store falls outside the
    array. *)
Definition write_at (buf : list ascii) (pos : nat) (chars : list ascii)
    : option (list ascii) :=
  if (pos + length chars <=? length buf)%nat
  then Some (firstn pos buf ++ chars ++ skipn (pos + length chars) buf)
  else None.

(** ** Server: [RemoteDesktopServer] *)

Module RemoteDesktopServer.

Definition DEFAULT_PORT : Z := 8080.

Record t : Type := {
  _running : bool;
  _port : Z;
  (** [std::map] with string keys, in iteration order *)
  _sessions : list (string * Session.t)
}.

Definition new : t :=
  {| _running := false; _port := DEFAULT_PORT; _sessions := [] |}.

Definition GetSessionCount (s : t) : Z := Z.of_nat (length (_sessions s)).

(** [net_start port] tells whether [NetworkManager::Start(port)] manages to
    bind and listen. *)
Definition Start (net_start : Z -> bool) (port : Z) (s : t) : bool * t :=
  if _running s then (false, s)
  else if negb (net_start port) then (false, s)
  else (true, {| _running := true; _port := _port s; _sessions := _sessions s |}).

(** [_sessions.clear()]: the table holds the only [shared_ptr] to each
    session ([HandleNewConnection] keeps none), so erasing an entry destroys
    its session. *)
Fixpoint clear_sessions (l : list (string * Session.t)) : Run unit :=
  match l with
  | [] => Done tt
  | p :: l' =>
      match Session_destroy (snd p) with
      | Terminate => Terminate
      | Done _ => clear_sessions l'
      end
  end.

(** [Stop]: the flag is cleared, [session.second->Stop()] is called on
    every entry and the table is cleared.  [_networkManager.Stop()] in
    between clears the network manager's own flag, joins the accept thread
    and closes the listening socket, none of which is part of this state;
    the join is taken to return, and no connection to be accepted while it
    waits. *)
Definition Stop (s : t) : Run t :=
  if negb (_running s) then Done s
  else
    let stopped := map (fun p => (fst p, Session.Stop (snd p))) (_sessions s) in
    match clear_sessions stopped with
    | Terminate => Terminate
    | Done _ => Done {| _running := false; _port := _port s; _sessions := [] |}
    end.

(** Modelled from the spec: [RemoveSession] is declared in both headers
    but no source file defines it.  The spec has the session table map an
    id to a session with remove as one of its mutators, and has the
    disconnect command report whether the named session was there: the
    entry with that id is erased and the result tells whether it existed. *)
Definition RemoveSession (id : string) (s : t) : bool * t :=
  if bool_decide (id ∈ (fst <$> _sessions s))
  then (true, {| _running := _running s; _port := _port s;
                 _sessions := filter (fun p => fst p <> id) (_sessions s) |})
  else (false, s).

Definition bool_text (b : bool) : string := if b then "true" else "false".

(** The text [{ "success": b, "message": "m" }] as the source spells it. *)
Definition success_message (b : bool) (m : string) : string :=
  "{ " +:+ quoted "success" +:+ ": " +:+ bool_text b +:+ ", "
    +:+ quoted "message" +:+ ": " +:+ quoted m +:+ " }".

Definition status_text (s : t) : string :=
  "{ " +:+ quoted "running" +:+ ": " +:+ bool_text (_running s)
    +:+ ", " +:+ quoted "port" +:+ ": " +:+ to_string (_port s)
    +:+ ", " +:+ quoted "sessions" +:+ ": " +:+ to_string (GetSessionCount s) +:+ " }".

(** The loop over [_sessions] of the [list_sessions] branch. *)
Fixpoint sessions_text (first : bool) (l : list (string * Session.t)) : string :=
  match l with
  | [] => EmptyString
  | p :: l' =>
      (if first then "" else ",")
        +:+ "{ " +:+ quoted "id" +:+ ": " +:+ quoted (fst p) +:+ " }"
        +:+ sessions_text false l'
  end.

Definition unknown_command : string := success_message false "Unknown command".

(** "Simple command parsing": the [result] string and the server state
    after the chain of branches; [Done None] when an exception leaves it,
    [Terminate] when [std::terminate] ends the process inside it. *)
Definition command_result (net_start : Z -> bool) (cmd : string) (s : t)
    : Run (option (string * t)) :=
  if String.eqb cmd "status" then Done (Some (status_text s, s))
  else if String.eqb cmd "start" then
    if _running s then Done (Some (success_message false "Server already running", s))
    else
      let '(success, s') := Start net_start (_port s) s in
      Done (Some (success_message success
                    (if success then "Server started" else "Failed to start server"), s'))
  else if String.eqb cmd "stop" then
    if negb (_running s) then Done (Some (success_message false "Server not running", s))
    else
      match Stop s with
      | Terminate => Terminate
      | Done s' => Done (Some (success_message true "Server stopped", s'))
      end
  else if compare_eq 0 9 cmd "setport: " then
    match substr 9 cmd ≫= stoi with
    | Some newPort =>
        if (0 <? newPort) && (newPort <? 65536)
        then
          let s' := {| _running := _running s; _port := newPort;
                       _sessions := _sessions s |} in
          Done (Some (success_message true ("Port set to " +:+ to_string (_port s')), s'))
        else Done (Some (success_message false "Invalid port number", s))
    | None => Done (Some (success_message false "Invalid port format", s))
    end
  else if String.eqb cmd "list_sessions" then
    Done (Some ("{ " +:+ quoted "sessions" +:+ ": [" +:+ sessions_text true (_sessions s)
                  +:+ "] }", s))
  else if compare_eq 0 16 cmd "disconnect_session:" then
    match substr 16 cmd with
    | None => Done None
    | Some sessionId =>
        let '(success, s') := RemoveSession sessionId s in
        Done (Some (success_message success
                      (if success then "Session disconnected" else "Session not found"),
                    s'))
    end
  else Done (Some (unknown_command, s)).

(** How a call ends: it returns, it stores outside the caller's array, an
    exception leaves it, or [std::terminate] ends the process before
    anything is stored. *)
Inductive Outcome : Type :=
| Returned (ret : bool) (response : option (list ascii)) (s : t)
| BufferOverrun
| Threw
| Aborted.

(** [command] and [response] are [None] for null pointers; otherwise
    [command] is the character array behind the pointer and [response]
    the caller's array. *)
Definition ExecuteCommand (net_start : Z -> bool)
    (command : option string) (response : option (list ascii)) (responseSize : Z)
    (s : t) : Outcome :=
  match command, response with
  | Some command, Some buf =>
      if responseSize <=? 0 then Returned false response s
      else
        let cmd := c_str command in
        match command_result net_start cmd s with
        | Terminate => Aborted
        | Done None => Threw
        | Done (Some (result, s')) =>
            let n := Z.to_nat (responseSize - 1) in
            match write_at buf 0 (strncpy result n) with
            | None => BufferOverrun
            | Some buf1 =>
                match write_at buf1 n [NUL] with
                | None => BufferOverrun
                | Some buf2 => Returned true (Some buf2) s'
                end
            end
        end
  | _, _ => Returned false response s
  end.

End RemoteDesktopServer.

(** ** Configuration text: [LoadConfigFromJson] and [SaveConfigToJson] *)

Definition LF : string := String "010"%char EmptyString.

Definition is_digit (c : ascii) : bool :=
  match digit_val c with Some _ => true | None => false end.

(** [s.find(needle)]; [None] is [npos]. *)
Definition find (needle s : string) : option nat := String.index 0 needle s.

(** The first index at or after [pos] whose character satisfies [p]:
    [find_first_of], [find_first_not_of] and [find(char, pos)]. *)
Fixpoint find_first (p : ascii -> bool) (s : string) (pos : nat) : option nat :=
  match s with
  | EmptyString => None
  | String c rest =>
      match pos with
      | O => if p c then Some O else option_map S (find_first p rest O)
      | S pos' => option_map S (find_first p rest pos')
      end
  end.

Module Config.

(** The port key is looked up, then the first digit at or after the sixth
    character of the key, then the first character after the digits; the
    port is stored only when both exist and [std::stoi] accepts the digits.
    The result is always [true]. *)
Definition LoadConfigFromJson (jsonConfig : string) (s : RemoteDesktopServer.t)
    : bool * RemoteDesktopServer.t :=
  let unchanged := (true, s) in
  match find (quoted "port" +:+ ":") jsonConfig with
  | None => unchanged
  | Some portPos =>
      match find_first is_digit jsonConfig (portPos + 6) with
      | None => unchanged
      | Some valueStart =>
          match find_first (fun c => negb (is_digit c)) jsonConfig valueStart with
          | None => unchanged
          | Some valueEnd =>
              let portStr := substring valueStart (valueEnd - valueStart) jsonConfig in
              match stoi portStr with
              | Some port =>
                  (true, {| RemoteDesktopServer._running := RemoteDesktopServer._running s;
                            RemoteDesktopServer._port := port;
                            RemoteDesktopServer._sessions := RemoteDesktopServer._sessions s |})
              | None => unchanged
              end
          end
      end
  end.

(** The text built from the port and the agent id the server holds. *)
Definition SaveConfigToJson (port : Z) (agentId : string) : string :=
  "{" +:+ LF
  +:+ "  " +:+ quoted "port" +:+ ": " +:+ to_string port +:+ "," +:+ LF
  +:+ "  " +:+ quoted "agentId" +:+ ": " +:+ quoted agentId +:+ "," +:+ LF
  +:+ "  " +:+ quoted "featureFlags" +:+ ": {" +:+ LF
  +:+ "    " +:+ quoted "chat" +:+ ": true," +:+ LF
  +:+ "    " +:+ quoted "sessionRecording" +:+ ": true," +:+ LF
  +:+ "    " +:+ quoted "multiMonitor" +:+ ": true," +:+ LF
  +:+ "    " +:+ quoted "fileTransfer" +:+ ": true," +:+ LF
  +:+ "    " +:+ quoted "remoteClipboard" +:+ ": true," +:+ LF
  +:+ "    " +:+ quoted "theming" +:+ ": true" +:+ LF
  +:+ "  }" +:+ LF
  +:+ "}".

End Config.

(** ** Message construction helpers of [IPCFramework.h] *)

Module MessageHelpers.

(** [GenerateUniqueId]: [++counter] on a process-wide [unsigned long] of
    [w] bits, printed in decimal; the new counter value is returned too. *)
Definition GenerateUniqueId (w : Z) (counter : Z) : string * Z :=
  let c := wrap w (counter + 1) in (to_string c, c).

Definition CreateCommand (w : Z) (source target command : string) (counter : Z)
    : IPC.Message * Z :=
  let '(i, counter') := GenerateUniqueId w counter in
  ({| IPC.id := i; IPC.sourceModule := source; IPC.targetModule := target;
      IPC.type := IPC.COMMAND; IPC.payload := command;
      IPC.correlationId := EmptyString |}, counter').

Definition CreateResponse (w : Z) (request : IPC.Message) (response : string)
    (counter : Z) : IPC.Message * Z :=
  let '(i, counter') := GenerateUniqueId w counter in
  ({| IPC.id := i; IPC.sourceModule := IPC.targetModule request;
      IPC.targetModule := IPC.sourceModule request;
      IPC.type := IPC.RESPONSE; IPC.payload := response;
      IPC.correlationId := IPC.id request |}, counter').

Definition CreateStatus (w : Z) (source status : string) (counter : Z)
    : IPC.Message * Z :=
  let '(i, counter') := GenerateUniqueId w counter in
  ({| IPC.id := i; IPC.sourceModule := source; IPC.targetModule := EmptyString;
      IPC.type := IPC.STATUS; IPC.payload := status;
      IPC.correlationId := EmptyString |}, counter').

Definition CreateAlert (w : Z) (source alert : string) (counter : Z)
    : IPC.Message * Z :=
  let '(i, counter') := GenerateUniqueId w counter in
  ({| IPC.id := i; IPC.sourceModule := source; IPC.targetModule := EmptyString;
      IPC.type := IPC.ALERT; IPC.payload := alert;
      IPC.correlationId := EmptyString |}, counter').

End MessageHelpers.

(** ** The broker's worker loop, iterated *)

(** [SendMessage] called once for each message of a list, in order. *)
Definition send_all (ms : list IPC.Message) (b : IPC.IPCBroker) : IPC.IPCBroker :=
  fold_left (fun b m => snd (IPC.SendMessage m b)) ms b.

(** What handlers do to the broker while the loop calls them: [effects c]
    is what the call [c] does to the broker through the broker's methods.
    The handler that RemoteDesktopServer registers calls [SendMessage] for
    every command it is given. *)
Definition Effects : Type := IPC.Call -> IPC.IPCBroker -> IPC.IPCBroker.

Definition after_calls (effects : Effects) (cs : list IPC.Call) (b : IPC.IPCBroker)
    : IPC.IPCBroker :=
  fold_left (fun b c => effects c b) cs b.

(** One iteration of the loop that finds a message, with what the handlers
    it calls do to the broker.  The queue is popped and the target modules
    are copied before the first handler runs, and the handlers mutex is
    held while they run, so the calls made are those of the broker as it
    was after the pop. *)
Definition ProcessMessages_iteration (effects : Effects) (b : IPC.IPCBroker)
    : option (IPC.IPCBroker * list IPC.Call * bool) :=
  match IPC.ProcessMessages_step b with
  | None => None
  | Some (b', cs, alive) => Some (after_calls effects cs b', cs, alive)
  end.

(** At most [fuel] iterations of the loop of [ProcessMessages] that find a
    message: the broker afterwards, the handler calls made in order, and
    whether the worker thread is still alive. *)
Fixpoint ProcessMessages_run (effects : Effects) (fuel : nat) (b : IPC.IPCBroker)
    : IPC.IPCBroker * list IPC.Call * bool :=
  match fuel with
  | O => (b, [], true)
  | S fuel' =>
      match ProcessMessages_iteration effects b with
      | None => (b, [], true)
      | Some (b', cs, alive) =>
          if alive
          then let '(b'', cs', alive') := ProcessMessages_run effects fuel' b' in
               (b'', cs ++ cs', alive')
          else (b', cs, false)
      end
  end.

(** ** Themes: [UiManager] *)

Module UiManager.

Inductive Theme : Type := LIGHT | DARK | SYSTEM | CUSTOM.

Record UiColors : Type := {
  background : Z;
  foreground : Z;
  accent : Z;
  highlight : Z
}.

Record t : Type := {
  _currentTheme : Theme;
  _currentColors : UiColors;
  _lightTheme : UiColors;
  _darkTheme : UiColors;
  _customTheme : UiColors
}.

Definition default_light : UiColors :=
  {| background := 0xFFFFFF; foreground := 0x000000; accent := 0x007ACC;
     highlight := 0xE6F3FF |}.

Definition default_dark : UiColors :=
  {| background := 0x1E1E1E; foreground := 0xFFFFFF; accent := 0x007ACC;
     highlight := 0x3F3F3F |}.

(** The constructor.  [systemDark] is what [IsSystemDarkMode] answers;
    [junk] stands for the custom theme member, which the constructor does
    not initialize. *)
Definition new (systemDark : bool) (junk : UiColors) : t :=
  {| _currentTheme := SYSTEM;
     _currentColors := if systemDark then default_dark else default_light;
     _lightTheme := default_light; _darkTheme := default_dark;
     _customTheme := junk |}.

Definition SetTheme (systemDark : bool) (theme : Theme) (u : t) : t :=
  {| _currentTheme := theme;
     _currentColors :=
       match theme with
       | LIGHT => _lightTheme u
       | DARK => _darkTheme u
       | SYSTEM => if systemDark then _darkTheme u else _lightTheme u
       | CUSTOM => _currentColors u
       end;
     _lightTheme := _lightTheme u; _darkTheme := _darkTheme u;
     _customTheme := _customTheme u |}.

Definition SetCustomColors (colors : UiColors) (u : t) : t :=
  {| _currentTheme := _currentTheme u;
     _currentColors :=
       match _currentTheme u with
       | CUSTOM => colors
       | _ => _currentColors u
       end;
     _lightTheme := _lightTheme u; _darkTheme := _darkTheme u;
     _customTheme := colors |}.

Definition GetCurrentColors (u : t) : UiColors := _currentColors u.

End UiManager.

(** ** Monitors: [MultiMonitorManager] *)

Module MultiMonitorManager.

Record Monitor : Type := {
  id : Z;
  x : Z;
  y : Z;
  width : Z;
  height : Z;
  isPrimary : bool
}.

(** The first monitor flagged primary, else the first monitor, else null. *)
Definition GetPrimaryMonitor (monitors : list Monitor) : option Monitor :=
  match List.find isPrimary monitors with
  | Some m => Some m
  | None => head monitors
  end.

(** The first monitor with the given id, else null. *)
Definition GetMonitorById (monitors : list Monitor) (i : Z) : option Monitor :=
  List.find (fun m => id m =? i) monitors.

(** [Session::CaptureMonitor]: an empty vector for an unknown id, else
    whatever [CaptureScreen] gives, here [screen]. *)
Definition CaptureMonitor (monitors : list Monitor) (screen : list byte) (monitorId : Z)
    : list byte :=
  match GetMonitorById monitors monitorId with
  | None => []
  | Some _ => screen
  end.

End MultiMonitorManager.

(** ** Logins: [AuthenticationManager]

    Times are clock ticks since the epoch; [tps] is the number of ticks in
    a second, and [duration_cast<seconds>] is division rounding toward
    zero. *)

Module AuthenticationManager.

Definition INACTIVITY_TIMEOUT_SECONDS : Z := 300.

Record t : Type := {
  _sessions : gmap string string;
  _lastAuthTime : Z
}.

Definition new : t := {| _sessions := ∅; _lastAuthTime := 0 |}.

(** Every user name and password is accepted. *)
Definition Authenticate (now : Z) (username password : string) (a : t) : bool * t :=
  (true, {| _sessions := _sessions a; _lastAuthTime := now |}).

Definition ValidateSession (tps now : Z) (sessionId : string) (a : t) : bool :=
  match _sessions a !! sessionId with
  | None => false
  | Some _ =>
      Z.quot (now - _lastAuthTime a) tps <? INACTIVITY_TIMEOUT_SECONDS
  end.

(** [sessionId] is what [GenerateSessionId] drew. *)
Definition CreateSession (sessionId username : string) (a : t) : string * t :=
  (sessionId,
   {| _sessions := <[sessionId := username]> (_sessions a);
      _lastAuthTime := _lastAuthTime a |}).

Definition RevokeSession (sessionId : string) (a : t) : bool * t :=
  match _sessions a !! sessionId with
  | None => (false, a)
  | Some _ =>
      (true, {| _sessions := delete sessionId (_sessions a);
                _lastAuthTime := _lastAuthTime a |})
  end.

End AuthenticationManager.

(** ** Receiving: [NetworkManager::ReceiveData] *)

Module NetworkManager.

(** The size of the buffer that one [recv] fills. *)
Definition RECEIVE_BUFFER : nat := 4096.

(** One [recv]: [arrived] are the bytes the socket holds for this call, of
    which at most a buffer full is handed over.  The empty result stands
    for an error and for a closed connection too. *)
Definition ReceiveData (arrived : list byte) : list byte :=
  take RECEIVE_BUFFER arrived.

End NetworkManager.

(** ** Chat: [ChatManager] *)

(** The value of the [w]-bit two's-complement integer that holds [x]. *)
Definition swrap (w : Z) (x : Z) : Z := wrap w (x + 2 ^ (w - 1)) - 2 ^ (w - 1).

(** [std::stoll]: as [std::stoi] with the range of [long long]. *)
Definition stoll (s : string) : option Z :=
  let s1 := skip_space s in
  let '(neg, s2) :=
    match s1 with
    | String c rest =>
        if Ascii.eqb c "-"%char then (true, rest)
        else if Ascii.eqb c "+"%char then (false, rest)
        else (false, s1)
    | EmptyString => (false, s1)
    end in
  match read_digits s2 0 false with
  | None => None
  | Some v =>
      let v' := if neg then - v else v in
      if (- 2 ^ 63 <=? v') && (v' <? 2 ^ 63) then Some v' else None
  end.

Module ChatManager.

Definition MAX_CHAT_HISTORY : nat := 100.

Record ChatMessage : Type := {
  sender : string;
  content : string;
  timestamp : Z
}.

Record t : Type := { _messageHistory : list ChatMessage }.

Definition new : t := {| _messageHistory := [] |}.

(** [push_back] followed by [pop_front] when the list got longer than the
    bound. *)
Definition remember (m : ChatMessage) (history : list ChatMessage) : list ChatMessage :=
  let h := history ++ [m] in
  if (MAX_CHAT_HISTORY <? length h)%nat then tail h else h.

Definition is_bar (c : ascii) : bool := Ascii.eqb c "|"%char.

(** The text put on the wire: sender, bar, seconds since the epoch, bar,
    message. *)
Definition formatted (tps now : Z) (sender message : string) : string :=
  sender +:+ "|" +:+ to_string (Z.quot now tps) +:+ "|" +:+ message.

(** [sent] tells whether [SendData] succeeded.  The text handed to
    [SendData], the result, and the manager afterwards. *)
Definition SendMessage (sent : bool) (tps now : Z) (sender message : string) (c : t)
    : string * bool * t :=
  let text := formatted tps now sender message in
  if sent
  then (text, true,
        {| _messageHistory :=
             remember {| ChatManager.sender := sender; content := message;
                         timestamp := now |} (_messageHistory c) |})
  else (text, false, c).

Inductive Received : Type :=
| Message (m : ChatMessage) (c : t)
| Threw.

(** [system_clock::from_time_t]: seconds into the 64-bit tick count of the
    clock, [tps] ticks to the second; a product outside the 64 bits wraps
    around, as the compiled multiplication does. *)
Definition from_time_t (tps seconds : Z) : Z := swrap 64 (seconds * tps).

(** The body of [ReceiveMessage] after its [ReceiveData]: [messageStr] is
    the string built from the bytes [ReceiveData] returned.  With no first
    bar the search for the second starts at [npos + 1], which is 0. *)
Definition ReceiveMessage (tps now : Z) (messageStr : string) (c : t) : Received :=
  let pos1 := find_first is_bar messageStr 0 in
  let pos2 :=
    find_first is_bar messageStr (match pos1 with Some p => S p | None => O end) in
  match pos1, pos2 with
  | Some p1, Some p2 =>
      let sender := substring 0 p1 messageStr in
      let timestampStr := substring (p1 + 1) (p2 - p1 - 1) messageStr in
      match substr (p2 + 1) messageStr with
      | None => Threw
      | Some content =>
          match stoll timestampStr with
          | None => Threw
          | Some seconds =>
              let m := {| ChatManager.sender := sender; ChatManager.content := content;
                          timestamp := from_time_t tps seconds |} in
              Message m {| _messageHistory := remember m (_messageHistory c) |}
          end
      end
  | _, _ =>
      Message {| sender := "system"; content := "Invalid message format";
                 timestamp := now |} c
  end.

(** [ReceiveMessage(clientSocket)] on a socket that holds [arrived]: one
    [ReceiveData], the bytes made a string, and the body above. *)
Definition ReceiveMessage_from (tps now : Z) (arrived : list byte) (c : t) : Received :=
  ReceiveMessage tps now (string_of_bytes (NetworkManager.ReceiveData arrived)) c.

End ChatManager.

(** ** File upload: [FileTransfer::ReceiveFile] *)

(** The unsigned number stored in a run of bytes, least significant byte
    first: what [memcpy] into an integer reads on the little-endian
    machines the sources target. *)
Fixpoint le_value_raw (bs : list byte) : Z :=
  match bs with
  | [] => 0
  | b :: bs' => u8_val b + 256 * le_value_raw bs'
  end.

Module FileTransfer.

(** [chunks] are the results of the successive [ReceiveData] calls, an
    exhausted list standing for a closed connection.  The loop
    [while (totalReceived < fileSize)], with what was written so far. *)
Fixpoint receive_loop (fileSize totalReceived : Z) (written : list byte)
    (chunks : list (list byte)) : bool * list byte :=
  if totalReceived <? fileSize
  then
    match chunks with
    | [] => (false, written)
    | data :: chunks' =>
        match data with
        | [] => (false, written)
        | _ =>
            receive_loop fileSize
              (wrap 64 (totalReceived + Z.of_nat (length data)))
              (written ++ data) chunks'
        end
    end
  else (true, written).

(** [opened] tells whether the destination file could be opened; the
    result and the bytes handed to [fwrite], in order.  The size message is copied
    into a [uint64_t] as it lies in memory, least significant byte first. *)
Definition ReceiveFile (opened : bool) (chunks : list (list byte)) : bool * list byte :=
  if negb opened then (false, [])
  else
    match chunks with
    | [] => (false, [])
    | sizeData :: chunks' =>
        if negb (length sizeData =? 8)%nat then (false, [])
        else receive_loop (le_value_raw sizeData) 0 [] chunks'
    end.

End FileTransfer.

(** * Vocabulary of the statements *)

(** ** Little-endian fields of a frame *)

(** The [n] low bytes of [x], least significant first. *)
Fixpoint le_bytes (n : nat) (x : Z) : list byte :=
  match n with
  | O => []
  | S n' => u8_of x :: le_bytes n' (x / 256)
  end.

(** The number a run of bytes spells, least significant first. *)
Fixpoint le_value (bs : list byte) : Z :=
  match bs with
  | [] => 0
  | b :: bs' => u8_val b + 256 * le_value bs'
  end.

(** The [n] bytes of [data] from offset [off] (fewer at the end of [data]). *)
Definition sub_bytes (data : list byte) (off n : nat) : list byte :=
  firstn n (skipn off data).

Definition declared_sourceLen (data : list byte) : Z := le_value (sub_bytes data 1 2).
Definition declared_targetLen (data : list byte) : Z := le_value (sub_bytes data 3 2).
Definition declared_contentLen (data : list byte) : Z := le_value (sub_bytes data 5 4).

(** Header plus declared payload, as a mathematical integer. *)
Definition declared_total (data : list byte) : Z :=
  17 + declared_sourceLen data + declared_targetLen data + declared_contentLen data.

(** The frame [Deserialize] is meant to produce: the fields sliced at the
    declared offsets. *)
Definition sliced (data : list byte) : SerializableMessage.t :=
  let sl := Z.to_nat (declared_sourceLen data) in
  let tl := Z.to_nat (declared_targetLen data) in
  let cl := Z.to_nat (declared_contentLen data) in
  {| SerializableMessage.type := le_value (sub_bytes data 0 1);
     SerializableMessage.source := string_of_bytes (sub_bytes data 17 sl);
     SerializableMessage.target := string_of_bytes (sub_bytes data (17 + sl) tl);
     SerializableMessage.content := string_of_bytes (sub_bytes data (17 + sl + tl) cl);
     SerializableMessage.timestamp := le_value (sub_bytes data 9 8) |}.

(** A frame the wire format can carry: the lengths fit their fields, the
    type is an enumerator, and the timestamp is a [uint64_t]. *)
Definition valid_frame (m : SerializableMessage.t) : Prop :=
  SerializableMessage.size (SerializableMessage.source m) < 2 ^ 16
  /\ SerializableMessage.size (SerializableMessage.target m) < 2 ^ 16
  /\ SerializableMessage.size (SerializableMessage.content m) < 2 ^ 32
  /\ SerializableMessage.MessageType_defined (SerializableMessage.type m)
  /\ 0 <= SerializableMessage.timestamp m < 2 ^ 64.

(** A bare 17-byte header of type CONTROL that declares no source, no target
    and 4294967295 content bytes. *)
Definition overflow_frame : list byte :=
  [x00; x00; x00; x00; x00; xff; xff; xff; xff;
   x00; x00; x00; x00; x00; x00; x00; x00].

(** A frame with every field in use. *)
Definition sample_frame : SerializableMessage.t :=
  {| SerializableMessage.type := SerializableMessage.CHAT;
     SerializableMessage.source := "desk";
     SerializableMessage.target := "viewer";
     SerializableMessage.content := "hello";
     SerializableMessage.timestamp := 1700000000123 |}.

(** ** Broker *)

(** The states a broker gets into through its constructor, its public
    methods and its worker loop. *)
Inductive reachable : IPC.IPCBroker -> Prop :=
| reach_new : reachable IPC.new
| reach_Start b r b' :
    reachable b -> IPC.Start b = Done (r, b') -> reachable b'
| reach_Stop b : reachable b -> reachable (IPC.Stop b)
| reach_RegisterModule b name :
    reachable b -> reachable (snd (IPC.RegisterModule name b))
| reach_UnregisterModule b name :
    reachable b -> reachable (snd (IPC.UnregisterModule name b))
| reach_SendMessage b message :
    reachable b -> reachable (snd (IPC.SendMessage message b))
| reach_RegisterHandler b name handler :
    reachable b -> reachable (snd (IPC.RegisterHandler name handler b))
| reach_ProcessMessages_step b b' calls alive :
    reachable b -> IPC.ProcessMessages_step b = Some (b', calls, alive) ->
    reachable b'.

(** The calls that hand [message] to every handler stored under [name]. *)
Definition calls_to (b : IPC.IPCBroker) (name : string) (message : IPC.Message)
    : list IPC.Call :=
  map (fun h => {| IPC.call_module := name; IPC.call_handler := h;
                   IPC.call_message := message |})
      (IPC.handlers_of b name).

(** No handler stored under one of [names] throws, on [message], anything
    the dispatch loop does not catch. *)
Definition handlers_caught (b : IPC.IPCBroker) (names : list string)
    (message : IPC.Message) : Prop :=
  forall name h, name ∈ names -> h ∈ IPC.handlers_of b name ->
    h message <> IPC.ThrowsOther.

(** The modules that got at least one call, in order of first call. *)
Fixpoint modules_called (calls : list IPC.Call) : list string :=
  match calls with
  | [] => []
  | c :: calls' =>
      IPC.call_module c
        :: filter (fun name => name <> IPC.call_module c) (modules_called calls')
  end.

Definition quiet_handler : IPC.MessageHandler := fun _ => IPC.Returns.

Definition message_from_to (src tgt : string) : IPC.Message :=
  {| IPC.id := "1"; IPC.sourceModule := src; IPC.targetModule := tgt;
     IPC.type := IPC.COMMAND; IPC.payload := "status"; IPC.correlationId := "" |}.

(** A started broker where a handler was subscribed under the name X and
    nothing was registered, with one message for X in the queue. *)
Definition handler_without_module : IPC.IPCBroker :=
  match IPC.Start IPC.new with
  | Done (_, b1) =>
      let b2 := snd (IPC.RegisterHandler "X" (Some quiet_handler) b1) in
      snd (IPC.SendMessage (message_from_to "A" "X") b2)
  | Terminate => IPC.new
  end.

(** A started broker whose only registered module is B, with a handler, and
    a broadcast from the unregistered name A in the queue. *)
Definition broadcast_from_outside : IPC.IPCBroker :=
  match IPC.Start IPC.new with
  | Done (_, b1) =>
      let b2 := snd (IPC.RegisterModule "B" b1) in
      let b3 := snd (IPC.RegisterHandler "B" (Some quiet_handler) b2) in
      snd (IPC.SendMessage (message_from_to "A" "") b3)
  | Terminate => IPC.new
  end.

(** ** Control plane *)

(** The C string held by a character array. *)
Definition response_text (buf : list ascii) : string :=
  c_str (string_of_list_ascii buf).

(** The response for unrecognized text as the specification spells it,
    without any space. *)
Definition unknown_command_compact : string :=
  "{" +:+ quoted "success" +:+ ":false," +:+ quoted "message" +:+ ":"
    +:+ quoted "Unknown command" +:+ "}".

(** The command forms the specification lists. *)
Definition recognized (cmd : string) : Prop :=
  cmd = "status" \/ cmd = "start" \/ cmd = "stop"
  \/ String.prefix "setport: " cmd = true
  \/ cmd = "list_sessions"
  \/ String.prefix "disconnect_session:" cmd = true.

(** A caller's array of [n] characters with arbitrary content. *)
Definition scratch (n : nat) : list ascii := repeat "x"%char n.

(** A server with one session in its table, under the id abc. *)
Definition server_with_session : RemoteDesktopServer.t :=
  {| RemoteDesktopServer._running := true;
     RemoteDesktopServer._port := RemoteDesktopServer.DEFAULT_PORT;
     RemoteDesktopServer._sessions := [("abc", Session.new 7)] |}.

(** A session that [Session::Stop] leaves without a joinable thread: it is
    running, so that [Stop] joins both threads, or no thread is attached. *)
Definition stoppable (x : Session.t) : bool :=
  Session._running x || negb (Session._inputThread x || Session._screenThread x).

(** The calls in which the server's [Stop] ends the process: the stop
    command on a running server that holds a session which is not
    stoppable. *)
Definition stop_aborts (cmd : string) (s : RemoteDesktopServer.t) : bool :=
  String.eqb cmd "stop" && RemoteDesktopServer._running s
  && existsb (fun p => negb (stoppable (snd p))) (RemoteDesktopServer._sessions s).

(** The session of a connection on socket 7 after [Start]. *)
Definition started_session : Session.t :=
  match Session.Start (Session.new 7) with
  | Done (_, s1) => s1
  | Terminate => Session.new 7
  end.

(** A running server whose one session was started and then left by its
    peer: the input loop has cleared the session's running flag. *)
Definition server_after_disconnect : RemoteDesktopServer.t :=
  {| RemoteDesktopServer._running := true;
     RemoteDesktopServer._port := RemoteDesktopServer.DEFAULT_PORT;
     RemoteDesktopServer._sessions :=
       [("abc", Session.peer_disconnected started_session)] |}.

(** ** Decimal text *)

(** The number a run of decimal digits spells after the digits already
    read as [acc]. *)
Fixpoint uint_value (acc : Z) (d : Decimal.uint) : Z :=
  match d with
  | Decimal.Nil => acc
  | Decimal.D0 d => uint_value (acc * 10 + 0) d
  | Decimal.D1 d => uint_value (acc * 10 + 1) d
  | Decimal.D2 d => uint_value (acc * 10 + 2) d
  | Decimal.D3 d => uint_value (acc * 10 + 3) d
  | Decimal.D4 d => uint_value (acc * 10 + 4) d
  | Decimal.D5 d => uint_value (acc * 10 + 5) d
  | Decimal.D6 d => uint_value (acc * 10 + 6) d
  | Decimal.D7 d => uint_value (acc * 10 + 7) d
  | Decimal.D8 d => uint_value (acc * 10 + 8) d
  | Decimal.D9 d => uint_value (acc * 10 + 9) d
  end.

Definition starts_without_digit (rest : string) : Prop :=
  match rest with
  | EmptyString => True
  | String c _ => is_digit c = false
  end.

(** ** Configuration text *)

(** The text SaveConfigToJson writes before the port, all of it and its
    first ten characters, and the text it writes after the comma that
    follows the port. *)
Definition config_head : string := "{" +:+ LF +:+ "  " +:+ quoted "port" +:+ ": ".

Definition config_head10 : string := "{" +:+ LF +:+ "  " +:+ quoted "port".

Definition config_tail (agentId : string) : string :=
  LF
  +:+ "  " +:+ quoted "agentId" +:+ ": " +:+ quoted agentId +:+ "," +:+ LF
  +:+ "  " +:+ quoted "featureFlags" +:+ ": {" +:+ LF
  +:+ "    " +:+ quoted "chat" +:+ ": true," +:+ LF
  +:+ "    " +:+ quoted "sessionRecording" +:+ ": true," +:+ LF
  +:+ "    " +:+ quoted "multiMonitor" +:+ ": true," +:+ LF
  +:+ "    " +:+ quoted "fileTransfer" +:+ ": true," +:+ LF
  +:+ "    " +:+ quoted "remoteClipboard" +:+ ": true," +:+ LF
  +:+ "    " +:+ quoted "theming" +:+ ": true" +:+ LF
  +:+ "  }" +:+ LF
  +:+ "}".

(** ** More broker states *)

(** A started broker whose only registered module is B, with one handler
    subscribed under B and nothing in the queue. *)
Definition started_with_B : IPC.IPCBroker :=
  match IPC.Start IPC.new with
  | Done (_, b1) =>
      let b2 := snd (IPC.RegisterModule "B" b1) in
      snd (IPC.RegisterHandler "B" (Some quiet_handler) b2)
  | Terminate => IPC.new
  end.

(** The broker with another queue. *)
Definition with_queue (b : IPC.IPCBroker) (q : list IPC.Message) : IPC.IPCBroker :=
  {| IPC._running := IPC._running b; IPC._processingThread := IPC._processingThread b;
     IPC._messageQueue := q; IPC._handlers := IPC._handlers b;
     IPC._registeredModules := IPC._registeredModules b;
     IPC.threads_spawned := IPC.threads_spawned b |}.

(** The messages [SendMessage] takes on a running broker: those with a
    source. *)
Definition accepted (ms : list IPC.Message) : list IPC.Message :=
  List.filter (fun m => negb (String.eqb (IPC.sourceModule m) "")) ms.

(** The messages each handler call hands to [SendMessage], in order. *)
Definition Sends : Type := IPC.Call -> list IPC.Message.

Definition sent_by (sends : Sends) (cs : list IPC.Call) : list IPC.Message :=
  flat_map sends cs.

(** Handlers whose calls do nothing to the broker but send. *)
Definition sending (sends : Sends) : Effects := fun c b => send_all (sends c) b.

(** [effects] on the calls [cs]: nothing is done to the broker but
    sending the messages [sends] names. *)
Definition only_sends (effects : Effects) (sends : Sends) (cs : list IPC.Call) : Prop :=
  forall c, c ∈ cs -> forall b, effects c b = send_all (sends c) b.

(** Handlers that answer every message with one reply, routed the way
    [CreateResponse] routes it: from the message's target to its source. *)
Definition replying : Sends :=
  fun c => [message_from_to (IPC.targetModule (IPC.call_message c))
              (IPC.sourceModule (IPC.call_message c))].

(** A handler that throws something the dispatch loop does not catch. *)
Definition rogue_handler : IPC.MessageHandler := fun _ => IPC.ThrowsOther.

(** A handler that throws a [std::exception]. *)
Definition failing_handler : IPC.MessageHandler := fun _ => IPC.ThrowsStdException.

(** The call that hands [message] to [h] as a handler of [name]. *)
Definition call_of (name : string) (message : IPC.Message) (h : IPC.MessageHandler)
    : IPC.Call :=
  {| IPC.call_module := name; IPC.call_handler := h; IPC.call_message := message |}.

(** ** Themes *)

(** A call on a [UiManager], and a sequence of calls. *)
Inductive UiCall : Type :=
| CallSetTheme (systemDark : bool) (theme : UiManager.Theme)
| CallSetCustomColors (colors : UiManager.UiColors).

Definition ui_call (c : UiCall) (u : UiManager.t) : UiManager.t :=
  match c with
  | CallSetTheme systemDark theme => UiManager.SetTheme systemDark theme u
  | CallSetCustomColors colors => UiManager.SetCustomColors colors u
  end.

Definition ui_calls (cs : list UiCall) (u : UiManager.t) : UiManager.t :=
  fold_left (fun u c => ui_call c u) cs u.

(** The same manager with another stored custom theme. *)
Definition with_customTheme (colors : UiManager.UiColors) (u : UiManager.t)
    : UiManager.t :=
  {| UiManager._currentTheme := UiManager._currentTheme u;
     UiManager._currentColors := UiManager._currentColors u;
     UiManager._lightTheme := UiManager._lightTheme u;
     UiManager._darkTheme := UiManager._darkTheme u;
     UiManager._customTheme := colors |}.

(** What the calls leave alone or read: everything but the stored custom
    theme. *)
Definition ui_visible (u : UiManager.t)
    : UiManager.Theme * UiManager.UiColors * UiManager.UiColors * UiManager.UiColors :=
  (UiManager._currentTheme u, UiManager._currentColors u,
   UiManager._lightTheme u, UiManager._darkTheme u).

(** ** Monitors and logins *)

Definition left_monitor : MultiMonitorManager.Monitor :=
  {| MultiMonitorManager.id := 0; MultiMonitorManager.x := 0;
     MultiMonitorManager.y := 0; MultiMonitorManager.width := 1920;
     MultiMonitorManager.height := 1080; MultiMonitorManager.isPrimary := true |}.

Definition right_monitor : MultiMonitorManager.Monitor :=
  {| MultiMonitorManager.id := 1; MultiMonitorManager.x := 1920;
     MultiMonitorManager.y := 0; MultiMonitorManager.width := 1280;
     MultiMonitorManager.height := 1024; MultiMonitorManager.isPrimary := false |}.

(** A manager holding one session, created without a login: the time of
    the last login is still the epoch. *)
Definition alice_logged_in : AuthenticationManager.t :=
  snd (AuthenticationManager.CreateSession "5f" "alice" AuthenticationManager.new).

(** ** Chat texts *)

Definition has_no_bar (s : string) : bool :=
  forallb (fun c => negb (ChatManager.is_bar c)) (list_ascii_of_string s).

(** The number of bars in a text. *)
Definition bars (s : string) : nat :=
  length (List.filter ChatManager.is_bar (list_ascii_of_string s)).

(** The three fields of a chat text joined by bars. *)
Definition barred (sender field message : string) : string :=
  sender +:+ "|" +:+ field +:+ "|" +:+ message.

Definition invalid_format (now : Z) : ChatManager.ChatMessage :=
  {| ChatManager.sender := "system";
     ChatManager.content := "Invalid message format";
     ChatManager.timestamp := now |}.

Definition chat_message (sender content : string) (timestamp : Z)
    : ChatManager.ChatMessage :=
  {| ChatManager.sender := sender; ChatManager.content := content;
     ChatManager.timestamp := timestamp |}.

(** The manager after [m] went into its history. *)
Definition remembered (m : ChatManager.ChatMessage) (c : ChatManager.t) : ChatManager.t :=
  {| ChatManager._messageHistory :=
       ChatManager.remember m (ChatManager._messageHistory c) |}.

(** ** Uploads *)

(** The largest result of one [ReceiveData]. *)
Definition chunk_limit : nat := 4096.

Definition chunks_bounded (chunks : list (list byte)) : Prop :=
  List.Forall (fun d => (length d <= chunk_limit)%nat) chunks.

(** * Properties *)

(** ** Bytes *)

Lemma u8_val_range (b : byte) : 0 <= u8_val b < 256.
Proof.
  unfold u8_val. pose proof (Byte.to_N_bounded b). lia.
Qed.

Lemma u8_of_val (b : byte) : u8_of (u8_val b) = b.
Proof.
  unfold u8_of, u8_val, wrap.
  pose proof (Byte.to_N_bounded b).
  rewrite Z.mod_small by lia.
  rewrite N2Z.id. now rewrite Byte.of_to_N.
Qed.

Lemma u8_val_of (x : Z) : u8_val (u8_of x) = x mod 256.
Proof.
  unfold u8_of, u8_val, wrap. change (2 ^ 8) with 256.
  pose proof (Z.mod_pos_bound x 256 ltac:(lia)) as Hb.
  destruct (Byte.of_N (Z.to_N (x mod 256))) as [b|] eqn:E.
  - apply Byte.to_of_N in E. rewrite E. lia.
  - apply Byte.of_N_None_iff in E. lia.
Qed.

Lemma u8_val_of_small (x : Z) : 0 <= x < 256 -> u8_val (u8_of x) = x.
Proof. intros H. rewrite u8_val_of. now apply Z.mod_small. Qed.

Lemma lxor_u8_range (a b : Z) :
  0 <= a < 256 -> 0 <= b < 256 -> 0 <= Z.lxor a b < 256.
Proof.
  intros Ha Hb. split.
  - apply Z.lxor_nonneg. lia.
  - destruct (Z.eq_dec (Z.lxor a b) 0) as [->|Hne]; [lia|].
    assert (0 < Z.lxor a b) by (pose proof (proj2 (Z.lxor_nonneg a b)); lia).
    apply (Z.log2_lt_pow2 _ 8); [lia|].
    pose proof (Z.log2_lxor a b ltac:(lia) ltac:(lia)) as Hl.
    assert (Z.log2 a < 8).
    { destruct (Z.eq_dec a 0) as [->|]; [simpl; lia|].
      apply Z.log2_lt_pow2; lia. }
    assert (Z.log2 b < 8).
    { destruct (Z.eq_dec b 0) as [->|]; [simpl; lia|].
      apply Z.log2_lt_pow2; lia. }
    lia.
Qed.

Lemma byte_xor_involutive (a k : byte) : byte_xor (byte_xor a k) k = a.
Proof.
  unfold byte_xor.
  pose proof (u8_val_range a). pose proof (u8_val_range k).
  rewrite u8_val_of_small by now apply lxor_u8_range.
  rewrite Z.lxor_assoc, Z.lxor_nilpotent, Z.lxor_0_r.
  apply u8_of_val.
Qed.

(** ** Cipher *)

Lemma imap_cancel {A} (f g : nat -> A -> A) (l : list A) :
  (forall i x, g i (f i x) = x) -> imap g (imap f l) = l.
Proof.
  revert f g. induction l as [|x l IH]; intros f g Hfg; simpl; [reflexivity|].
  rewrite Hfg. f_equal. apply IH. intros i y. apply Hfg.
Qed.

Lemma Encrypt_length (key data : list byte) :
  length (EncryptionManager.Encrypt key data) = length data.
Proof. unfold EncryptionManager.Encrypt. apply length_imap. Qed.

Lemma Encrypt_involutive (key data : list byte) :
  EncryptionManager.Encrypt key (EncryptionManager.Encrypt key data) = data.
Proof.
  unfold EncryptionManager.Encrypt. apply imap_cancel.
  intros i x. apply byte_xor_involutive.
Qed.

(** C3: for every 32-byte key and every byte sequence, decrypting the
    encryption under the same key gives the sequence back, and encryption
    keeps the length. *)
Theorem Decrypt_Encrypt (key data : list byte) :
  length key = 32%nat ->
  EncryptionManager.Decrypt key (EncryptionManager.Encrypt key data) = data
  /\ length (EncryptionManager.Encrypt key data) = length data.
Proof.
  intros _. split.
  - unfold EncryptionManager.Decrypt. apply Encrypt_involutive.
  - apply Encrypt_length.
Qed.

Lemma Decrypt_Encrypt_witness :
  let key := map (fun i => u8_of (Z.of_nat i * 7 + 3)) (seq 0 32) in
  let data := map (fun i => u8_of (Z.of_nat i * 5)) (seq 0 40) in
  length key = 32%nat
  /\ EncryptionManager.Decrypt key (EncryptionManager.Encrypt key data) = data
  /\ length (EncryptionManager.Encrypt key data) = length data.
Proof.
  split; [reflexivity|].
  apply (Decrypt_Encrypt (map (fun i => u8_of (Z.of_nat i * 7 + 3)) (seq 0 32))).
  reflexivity.
Defined.

(** Every key read of the cipher stays inside a 32-byte key. *)
Lemma key_at_in_bounds (key : list byte) (i : nat) :
  length key = 32%nat ->
  nth_error key (i mod 32) = Some (EncryptionManager.key_at key i).
Proof.
  intros Hlen. unfold EncryptionManager.key_at.
  apply nth_error_nth'. rewrite Hlen. apply Nat.mod_upper_bound. lia.
Qed.

(** ** Little-endian fields *)

Lemma u8_of_mod (x : Z) : u8_of (x mod 256) = u8_of x.
Proof.
  unfold u8_of, wrap. change (2 ^ 8) with 256. now rewrite Z.mod_mod by lia.
Qed.

Lemma le_value_range (bs : list byte) : 0 <= le_value bs < 256 ^ Z.of_nat (length bs).
Proof.
  induction bs as [|b bs IH]; [simpl; lia|].
  cbn [le_value length]. rewrite Nat2Z.inj_succ, Z.pow_succ_r by lia.
  pose proof (u8_val_range b). lia.
Qed.

Lemma le_value_bytes (n : nat) (x : Z) :
  le_value (le_bytes n x) = x mod 256 ^ Z.of_nat n.
Proof.
  revert x. induction n as [|n IH]; intros x.
  - simpl. now rewrite Z.mod_1_r.
  - cbn [le_bytes le_value]. rewrite IH, u8_val_of.
    rewrite Nat2Z.inj_succ, Z.pow_succ_r by lia.
    rewrite Z.rem_mul_r by lia. reflexivity.
Qed.

Lemma le_bytes_value (bs : list byte) : le_bytes (length bs) (le_value bs) = bs.
Proof.
  induction bs as [|b bs IH]; [reflexivity|].
  cbn [length le_bytes le_value]. pose proof (u8_val_range b).
  pose proof (le_value_range bs) as Hr.
  assert (Hm : (u8_val b + 256 * le_value bs) mod 256 = u8_val b)
    by (Z.div_mod_to_equations; lia).
  assert (Hd : (u8_val b + 256 * le_value bs) / 256 = le_value bs)
    by (Z.div_mod_to_equations; lia).
  rewrite Hd, IH. f_equal.
  rewrite <- u8_of_mod, Hm. apply u8_of_val.
Qed.

Lemma le_value_single (b : byte) : le_value [b] = u8_val b.
Proof. cbn [le_value]. lia. Qed.

(** The byte [(x >> (i * 8)) & 0xFF] stored by [Serialize]. *)
Lemma shifted_byte (x i : Z) :
  0 <= i -> u8_of (Z.land (Z.shiftr x (i * 8)) 255) = u8_of (x / 256 ^ i).
Proof.
  intros Hi. change 255 with (Z.ones 8).
  rewrite Z.land_ones by lia. change (2 ^ 8) with 256. rewrite u8_of_mod.
  rewrite Z.shiftr_div_pow2 by lia.
  rewrite Z.mul_comm, Z.pow_mul_r by lia. reflexivity.
Qed.

Lemma lor_shiftl_add (a b n : Z) :
  0 <= n -> 0 <= a < 2 ^ n -> Z.lor a (Z.shiftl b n) = a + b * 2 ^ n.
Proof.
  intros Hn Ha.
  assert (Hland : Z.land a (Z.shiftl b n) = 0).
  { apply Z.bits_inj'. intros i Hi.
    rewrite Z.land_spec, Z.bits_0.
    destruct (Z.lt_ge_cases i n) as [Hlt|Hge].
    - rewrite (Z.shiftl_spec_low b n i Hlt). apply andb_false_r.
    - replace a with (a mod 2 ^ n) by (apply Z.mod_small; lia).
      rewrite Z.mod_pow2_bits_high by lia. reflexivity. }
  rewrite <- Z.lxor_lor by exact Hland.
  rewrite <- Z.add_nocarry_lxor by exact Hland.
  now rewrite Z.shiftl_mul_pow2.
Qed.

(** ** Wire codec: the decoder on a buffer that holds a header *)

Lemma byte_at_nth (data : list byte) (i : Z) (b : byte) :
  0 <= i -> nth_error data (Z.to_nat i) = Some b -> byte_at data i = Got b.
Proof.
  intros Hi Hnth. unfold byte_at. rewrite Hnth.
  assert (Z.to_nat i < length data)%nat
    by (apply nth_error_Some; congruence).
  replace (0 <=? i) with true by (symmetry; apply Z.leb_le; lia).
  replace (i <? Z.of_nat (length data)) with true
    by (symmetry; apply Z.ltb_lt; lia).
  reflexivity.
Qed.

Lemma le16_eq (b1 b2 : byte) :
  wrap 16 (Z.lor (u8_val b1) (Z.shiftl (u8_val b2) 8)) = le_value [b1; b2].
Proof.
  pose proof (u8_val_range b1). pose proof (u8_val_range b2).
  rewrite lor_shiftl_add by lia. unfold wrap. cbn [le_value].
  rewrite Z.mod_small; lia.
Qed.

Lemma wrap_shifted_byte (w n : Z) (b : byte) :
  0 <= n -> n + 8 <= w -> wrap w (Z.shiftl (u8_val b) n) = u8_val b * 2 ^ n.
Proof.
  intros Hn Hw. pose proof (u8_val_range b) as Hb.
  rewrite Z.shiftl_mul_pow2 by lia. unfold wrap.
  apply Z.mod_small. split; [nia|].
  replace w with (8 + n + (w - n - 8)) by lia.
  rewrite !Z.pow_add_r by lia. change (2 ^ 8) with 256.
  assert (0 < 2 ^ n) by (apply Z.pow_pos_nonneg; lia).
  assert (0 < 2 ^ (w - n - 8)) by (apply Z.pow_pos_nonneg; lia).
  nia.
Qed.

Lemma lor_wrap_shifted (w a n : Z) (b : byte) :
  0 <= n -> n + 8 <= w -> 0 <= a < 2 ^ n ->
  Z.lor a (wrap w (Z.shiftl (u8_val b) n)) = a + u8_val b * 2 ^ n.
Proof.
  intros Hn Hw Ha.
  rewrite wrap_shifted_byte by assumption.
  rewrite <- (lor_shiftl_add a (u8_val b) n) by lia.
  now rewrite Z.shiftl_mul_pow2 by lia.
Qed.

Lemma le32_eq (b5 b6 b7 b8 : byte) :
  Z.lor (Z.lor (Z.lor (u8_val b5) (wrap 32 (Z.shiftl (u8_val b6) 8)))
               (wrap 32 (Z.shiftl (u8_val b7) 16)))
        (wrap 32 (Z.shiftl (u8_val b8) 24))
  = le_value [b5; b6; b7; b8].
Proof.
  pose proof (u8_val_range b5). pose proof (u8_val_range b6).
  pose proof (u8_val_range b7). pose proof (u8_val_range b8).
  rewrite (lor_wrap_shifted 32 _ 8) by lia.
  rewrite (lor_wrap_shifted 32 _ 16) by lia.
  rewrite (lor_wrap_shifted 32 _ 24) by lia.
  cbn [le_value]. lia.
Qed.

Lemma le64_eq (b9 b10 b11 b12 b13 b14 b15 b16 : byte) :
  Z.lor (Z.lor (Z.lor (Z.lor (Z.lor (Z.lor (Z.lor (Z.lor 0
    (wrap 64 (Z.shiftl (u8_val b9) 0)))
    (wrap 64 (Z.shiftl (u8_val b10) 8)))
    (wrap 64 (Z.shiftl (u8_val b11) 16)))
    (wrap 64 (Z.shiftl (u8_val b12) 24)))
    (wrap 64 (Z.shiftl (u8_val b13) 32)))
    (wrap 64 (Z.shiftl (u8_val b14) 40)))
    (wrap 64 (Z.shiftl (u8_val b15) 48)))
    (wrap 64 (Z.shiftl (u8_val b16) 56))
  = le_value [b9; b10; b11; b12; b13; b14; b15; b16].
Proof.
  pose proof (u8_val_range b9). pose proof (u8_val_range b10).
  pose proof (u8_val_range b11). pose proof (u8_val_range b12).
  pose proof (u8_val_range b13). pose proof (u8_val_range b14).
  pose proof (u8_val_range b15). pose proof (u8_val_range b16).
  rewrite (lor_wrap_shifted 64 _ 0) by lia.
  rewrite (lor_wrap_shifted 64 _ 8) by lia.
  rewrite (lor_wrap_shifted 64 _ 16) by lia.
  rewrite (lor_wrap_shifted 64 _ 24) by lia.
  rewrite (lor_wrap_shifted 64 _ 32) by lia.
  rewrite (lor_wrap_shifted 64 _ 40) by lia.
  rewrite (lor_wrap_shifted 64 _ 48) by lia.
  rewrite (lor_wrap_shifted 64 _ 56) by lia.
  cbn [le_value]. lia.
Qed.

(** The decoder after its seventeen header reads, on any buffer that has
    them. *)
Lemma Deserialize_header (b0 b1 b2 b3 b4 b5 b6 b7 b8 : byte)
    (b9 b10 b11 b12 b13 b14 b15 b16 : byte) (payload : list byte) :
  let data :=
    b0 :: b1 :: b2 :: b3 :: b4 :: b5 :: b6 :: b7 :: b8 ::
    b9 :: b10 :: b11 :: b12 :: b13 :: b14 :: b15 :: b16 :: payload in
  let sourceLen := le_value [b1; b2] in
  let targetLen := le_value [b3; b4] in
  let contentLen := le_value [b5; b6; b7; b8] in
  SerializableMessage.Deserialize data =
    if Z.of_nat (length data) <? wrap 32 (17 + sourceLen + targetLen + contentLen)
    then Got SerializableMessage.empty
    else
      src <~ read_bytes data 17 sourceLen ;;
      tgt <~ read_bytes data (17 + sourceLen) targetLen ;;
      cnt <~ read_bytes data (17 + sourceLen + targetLen) contentLen ;;
      Got {| SerializableMessage.type := u8_val b0;
             SerializableMessage.source := string_of_bytes src;
             SerializableMessage.target := string_of_bytes tgt;
             SerializableMessage.content := string_of_bytes cnt;
             SerializableMessage.timestamp :=
               le_value [b9; b10; b11; b12; b13; b14; b15; b16] |}.
Proof.
  intros data sourceLen targetLen contentLen.
  unfold SerializableMessage.Deserialize.
  replace (Z.of_nat (length data) <? 17) with false
    by (symmetry; apply Z.ltb_ge; subst data; cbn [length]; lia).
  cbn [SerializableMessage.read_timestamp].
  rewrite (byte_at_nth data 0 b0), (byte_at_nth data 1 b1), (byte_at_nth data 2 b2),
    (byte_at_nth data 3 b3), (byte_at_nth data 4 b4), (byte_at_nth data 5 b5),
    (byte_at_nth data 6 b6), (byte_at_nth data 7 b7), (byte_at_nth data 8 b8)
    by (lia || reflexivity).
  cbn [read_bind].
  rewrite (byte_at_nth data _ b9), (byte_at_nth data _ b10), (byte_at_nth data _ b11),
    (byte_at_nth data _ b12), (byte_at_nth data _ b13), (byte_at_nth data _ b14),
    (byte_at_nth data _ b15), (byte_at_nth data _ b16)
    by (lia || reflexivity).
  cbn [read_bind].
  change (Z.of_nat 0 * 8) with 0. change (Z.of_nat 1 * 8) with 8.
  change (Z.of_nat 2 * 8) with 16. change (Z.of_nat 3 * 8) with 24.
  change (Z.of_nat 4 * 8) with 32. change (Z.of_nat 5 * 8) with 40.
  change (Z.of_nat 6 * 8) with 48. change (Z.of_nat 7 * 8) with 56.
  rewrite le64_eq, !le16_eq, le32_eq.
  reflexivity.
Qed.

Lemma read_bytes_in (data : list byte) (off n : Z) :
  0 <= off -> 0 <= n -> off + n <= Z.of_nat (length data) ->
  read_bytes data off n = Got (sub_bytes data (Z.to_nat off) (Z.to_nat n)).
Proof.
  intros Ho Hn Hle. unfold read_bytes, sub_bytes.
  replace (0 <=? off) with true by (symmetry; apply Z.leb_le; lia).
  replace (0 <=? n) with true by (symmetry; apply Z.leb_le; lia).
  replace (off + n <=? Z.of_nat (length data)) with true
    by (symmetry; apply Z.leb_le; lia).
  reflexivity.
Qed.

Lemma read_bytes_out (data : list byte) (off n : Z) :
  Z.of_nat (length data) < off + n -> read_bytes data off n = PastBuffer.
Proof.
  intros Hlt. unfold read_bytes.
  replace (off + n <=? Z.of_nat (length data)) with false
    by (symmetry; apply Z.leb_gt; lia).
  now rewrite andb_false_r.
Qed.

(** The decoder on any buffer of at least seventeen bytes, in terms of the
    lengths its header declares. *)
Lemma Deserialize_declared (data : list byte) :
  17 <= Z.of_nat (length data) ->
  SerializableMessage.Deserialize data =
    if Z.of_nat (length data) <? wrap 32 (declared_total data)
    then Got SerializableMessage.empty
    else
      src <~ read_bytes data 17 (declared_sourceLen data) ;;
      tgt <~ read_bytes data (17 + declared_sourceLen data) (declared_targetLen data) ;;
      cnt <~ read_bytes data (17 + declared_sourceLen data + declared_targetLen data)
               (declared_contentLen data) ;;
      Got {| SerializableMessage.type := le_value (sub_bytes data 0 1);
             SerializableMessage.source := string_of_bytes src;
             SerializableMessage.target := string_of_bytes tgt;
             SerializableMessage.content := string_of_bytes cnt;
             SerializableMessage.timestamp := le_value (sub_bytes data 9 8) |}.
Proof.
  intros Hlen.
  do 17 (destruct data as [|? data]; [cbn [length] in Hlen; lia|]).
  rewrite Deserialize_header.
  unfold declared_total, declared_sourceLen, declared_targetLen, declared_contentLen,
    sub_bytes.
  cbn [firstn skipn]. rewrite le_value_single. reflexivity.
Qed.

Lemma declared_lengths_nonneg (data : list byte) :
  0 <= declared_sourceLen data /\ 0 <= declared_targetLen data
  /\ 0 <= declared_contentLen data.
Proof.
  unfold declared_sourceLen, declared_targetLen, declared_contentLen.
  pose proof (le_value_range (sub_bytes data 1 2)).
  pose proof (le_value_range (sub_bytes data 3 2)).
  pose proof (le_value_range (sub_bytes data 5 4)).
  lia.
Qed.

(** Fewer than seventeen bytes: the default-constructed message comes back. *)
Lemma Deserialize_truncated (data : list byte) :
  Z.of_nat (length data) < 17 ->
  SerializableMessage.Deserialize data = Got SerializableMessage.empty.
Proof.
  intros Hlt. unfold SerializableMessage.Deserialize.
  replace (Z.of_nat (length data) <? 17) with true
    by (symmetry; apply Z.ltb_lt; lia).
  reflexivity.
Qed.

(** A header whose declared total is below 2^32 and exceeds the buffer: the
    default-constructed message comes back. *)
Lemma Deserialize_incomplete (data : list byte) :
  17 <= Z.of_nat (length data) ->
  declared_total data < 2 ^ 32 ->
  Z.of_nat (length data) < declared_total data ->
  SerializableMessage.Deserialize data = Got SerializableMessage.empty.
Proof.
  intros Hlen Hsmall Hlt.
  rewrite Deserialize_declared by assumption.
  pose proof (declared_lengths_nonneg data) as (Hs & Ht & Hc).
  unfold wrap. rewrite Z.mod_small by (unfold declared_total in *; lia).
  replace (Z.of_nat (length data) <? declared_total data) with true
    by (symmetry; apply Z.ltb_lt; lia).
  reflexivity.
Qed.

(** The buffer holds everything its header declares: the fields are sliced
    at the declared offsets and nothing outside the buffer is read. *)
Lemma Deserialize_complete (data : list byte) :
  declared_total data <= Z.of_nat (length data) ->
  SerializableMessage.Deserialize data = Got (sliced data).
Proof.
  intros Hle.
  pose proof (declared_lengths_nonneg data) as (Hs & Ht & Hc).
  unfold declared_total in Hle.
  rewrite Deserialize_declared by lia.
  pose proof (Z.mod_pos_bound (declared_total data) (2 ^ 32) ltac:(lia)) as Hw.
  assert (Hwle : wrap 32 (declared_total data) <= declared_total data).
  { unfold wrap. apply Z.mod_le; unfold declared_total; lia. }
  replace (Z.of_nat (length data) <? wrap 32 (declared_total data)) with false
    by (symmetry; apply Z.ltb_ge; unfold declared_total in *; lia).
  rewrite !read_bytes_in by lia. cbn [read_bind]. unfold sliced.
  rewrite !Z2Nat.inj_add by lia. reflexivity.
Qed.

(** The declared total passes 2^32 and its low 32 bits fit the buffer while
    the total itself does not: the size check lets the frame through and a
    slice is read from outside the buffer. *)
Lemma Deserialize_wrapped (data : list byte) :
  17 <= Z.of_nat (length data) ->
  wrap 32 (declared_total data) <= Z.of_nat (length data) ->
  Z.of_nat (length data) < declared_total data ->
  SerializableMessage.Deserialize data = PastBuffer.
Proof.
  intros Hlen Hwrap Hlt.
  pose proof (declared_lengths_nonneg data) as (Hs & Ht & Hc).
  rewrite Deserialize_declared by lia.
  replace (Z.of_nat (length data) <? wrap 32 (declared_total data)) with false
    by (symmetry; apply Z.ltb_ge; lia).
  unfold declared_total in Hlt.
  destruct (Z.le_gt_cases (17 + declared_sourceLen data) (Z.of_nat (length data)))
    as [H1|H1]; [|now rewrite read_bytes_out by lia].
  rewrite read_bytes_in by lia. cbn [read_bind].
  destruct (Z.le_gt_cases (17 + declared_sourceLen data + declared_targetLen data)
              (Z.of_nat (length data)))
    as [H2|H2]; [|now rewrite read_bytes_out by lia].
  rewrite read_bytes_in by lia. cbn [read_bind].
  now rewrite read_bytes_out by lia.
Qed.

(** C1: on the bare header that declares 4294967295 content bytes, the
    32-bit sum of the size check wraps to 16, the check passes on the 17
    bytes present, and the content slice is read from outside the buffer;
    the frame is not refused although it declares 4294967312 bytes. *)
Theorem Deserialize_overflow_frame :
  length overflow_frame = 17%nat
  /\ declared_total overflow_frame = 4294967312
  /\ wrap 32 (declared_total overflow_frame) = 16
  /\ SerializableMessage.Deserialize overflow_frame = PastBuffer.
Proof.
  repeat split; vm_compute; reflexivity.
Qed.

(** ** Wire codec: the encoder *)

Lemma le_bytes_shift (n : nat) (x : Z) :
  le_bytes n x = map (fun i : nat => u8_of (x / 256 ^ Z.of_nat i)) (seq 0 n).
Proof.
  revert x. induction n as [|n IH]; intros x; [reflexivity|].
  cbn [le_bytes seq map]. f_equal.
  - now rewrite Z.pow_0_r, Z.div_1_r.
  - rewrite IH, <- seq_shift, map_map. apply map_ext. intros i.
    rewrite Nat2Z.inj_succ, Z.pow_succ_r by lia.
    rewrite Z.div_div by (try apply Z.pow_pos_nonneg; lia). reflexivity.
Qed.

(** The bytes [(x >> (i * 8)) & 0xFF] for [i = 0 .. n-1]. *)
Lemma shifted_bytes_le (n : nat) (x : Z) :
  map (fun i : nat => u8_of (Z.land (Z.shiftr x (Z.of_nat i * 8)) 255)) (seq 0 n)
  = le_bytes n x.
Proof.
  rewrite le_bytes_shift. apply map_ext. intros i. apply shifted_byte. lia.
Qed.

Lemma Serialize_le (m : SerializableMessage.t) :
  SerializableMessage.Serialize m =
    le_bytes 1 (SerializableMessage.type m)
    ++ le_bytes 2 (wrap 16 (SerializableMessage.size (SerializableMessage.source m)))
    ++ le_bytes 2 (wrap 16 (SerializableMessage.size (SerializableMessage.target m)))
    ++ le_bytes 4 (wrap 32 (SerializableMessage.size (SerializableMessage.content m)))
    ++ le_bytes 8 (SerializableMessage.timestamp m)
    ++ bytes_of_string (SerializableMessage.source m)
    ++ bytes_of_string (SerializableMessage.target m)
    ++ bytes_of_string (SerializableMessage.content m).
Proof.
  unfold SerializableMessage.Serialize, SerializableMessage.timestamp_bytes.
  rewrite <- !(shifted_bytes_le 2), <- (shifted_bytes_le 4), <- (shifted_bytes_le 8).
  reflexivity.
Qed.

Lemma bytes_of_string_length (s : string) :
  length (bytes_of_string s) = String.length s.
Proof.
  unfold bytes_of_string, list_byte_of_string.
  rewrite length_map. induction s as [|c s IH]; [reflexivity|].
  cbn [list_ascii_of_string length String.length]. now rewrite IH.
Qed.

Lemma string_of_bytes_of_string (s : string) :
  string_of_bytes (bytes_of_string s) = s.
Proof. apply string_of_list_byte_of_string. Qed.

Lemma payload_slices (a b c : list byte) :
  take (length a) (drop 0 (a ++ b ++ c)) = a
  /\ take (length b) (drop (length a) (a ++ b ++ c)) = b
  /\ take (length c) (drop (length a + length b) (a ++ b ++ c)) = c.
Proof.
  repeat split.
  - rewrite drop_0. apply take_app_length.
  - rewrite drop_app_length. apply take_app_length.
  - rewrite (app_assoc a b c), <- length_app, drop_app_length. apply firstn_all.
Qed.

Lemma wrap_small (w x : Z) : 0 <= x < 2 ^ w -> wrap w x = x.
Proof. intros H. unfold wrap. now apply Z.mod_small. Qed.

(** C2: decoding the encoding of a valid frame gives the frame back. *)
Theorem Deserialize_Serialize (m : SerializableMessage.t) :
  valid_frame m ->
  SerializableMessage.Deserialize (SerializableMessage.Serialize m) = Got m.
Proof.
  intros (Hs & Ht & Hc & Hty & Hts).
  destruct m as [ty src tgt cnt ts]. cbn [SerializableMessage.type
    SerializableMessage.source SerializableMessage.target
    SerializableMessage.content SerializableMessage.timestamp] in *.
  unfold SerializableMessage.size in *.
  assert (Hty' : 0 <= ty < 256).
  { unfold SerializableMessage.MessageType_defined in Hty. cbn in Hty.
    unfold SerializableMessage.CONTROL, SerializableMessage.SCREEN_DATA,
      SerializableMessage.INPUT, SerializableMessage.AUDIO, SerializableMessage.CHAT,
      SerializableMessage.FILE_TRANSFER, SerializableMessage.CLIPBOARD,
      SerializableMessage.UNDEFINED in Hty.
    intuition lia. }
  set (data := SerializableMessage.Serialize _).
  assert (Hdata : data =
    le_bytes 1 ty ++ le_bytes 2 (Z.of_nat (String.length src))
    ++ le_bytes 2 (Z.of_nat (String.length tgt))
    ++ le_bytes 4 (Z.of_nat (String.length cnt))
    ++ le_bytes 8 ts
    ++ bytes_of_string src ++ bytes_of_string tgt ++ bytes_of_string cnt).
  { subst data. rewrite Serialize_le.
    cbn [SerializableMessage.type SerializableMessage.source SerializableMessage.target
      SerializableMessage.content SerializableMessage.timestamp].
    unfold SerializableMessage.size. rewrite !wrap_small by lia. reflexivity. }
  clearbody data. subst data.
  assert (Hsl : declared_sourceLen
    (le_bytes 1 ty ++ le_bytes 2 (Z.of_nat (String.length src))
    ++ le_bytes 2 (Z.of_nat (String.length tgt))
    ++ le_bytes 4 (Z.of_nat (String.length cnt))
    ++ le_bytes 8 ts
    ++ bytes_of_string src ++ bytes_of_string tgt ++ bytes_of_string cnt)
    = Z.of_nat (String.length src)).
  { change (declared_sourceLen _) with (le_value (le_bytes 2 (Z.of_nat (String.length src)))).
    rewrite le_value_bytes. apply Z.mod_small. change (256 ^ Z.of_nat 2) with (2 ^ 16). lia. }
  assert (Htl : declared_targetLen
    (le_bytes 1 ty ++ le_bytes 2 (Z.of_nat (String.length src))
    ++ le_bytes 2 (Z.of_nat (String.length tgt))
    ++ le_bytes 4 (Z.of_nat (String.length cnt))
    ++ le_bytes 8 ts
    ++ bytes_of_string src ++ bytes_of_string tgt ++ bytes_of_string cnt)
    = Z.of_nat (String.length tgt)).
  { change (declared_targetLen _) with (le_value (le_bytes 2 (Z.of_nat (String.length tgt)))).
    rewrite le_value_bytes. apply Z.mod_small. change (256 ^ Z.of_nat 2) with (2 ^ 16). lia. }
  assert (Hcl : declared_contentLen
    (le_bytes 1 ty ++ le_bytes 2 (Z.of_nat (String.length src))
    ++ le_bytes 2 (Z.of_nat (String.length tgt))
    ++ le_bytes 4 (Z.of_nat (String.length cnt))
    ++ le_bytes 8 ts
    ++ bytes_of_string src ++ bytes_of_string tgt ++ bytes_of_string cnt)
    = Z.of_nat (String.length cnt)).
  { change (declared_contentLen _) with (le_value (le_bytes 4 (Z.of_nat (String.length cnt)))).
    rewrite le_value_bytes. apply Z.mod_small. change (256 ^ Z.of_nat 4) with (2 ^ 32). lia. }
  rewrite Deserialize_complete.
  - unfold sliced. rewrite Hsl, Htl, Hcl, !Nat2Z.id.
    change (le_value (sub_bytes _ 0 1)) with (le_value (le_bytes 1 ty)).
    change (le_value (sub_bytes _ 9 8)) with (le_value (le_bytes 8 ts)).
    rewrite !le_value_bytes.
    rewrite (Z.mod_small ty) by (change (256 ^ Z.of_nat 1) with 256; lia).
    rewrite (Z.mod_small ts) by (change (256 ^ Z.of_nat 8) with (2 ^ 64); lia).
    unfold sub_bytes.
    cbn [le_bytes app skipn Nat.add].
    rewrite <- !bytes_of_string_length.
    destruct (payload_slices (bytes_of_string src) (bytes_of_string tgt)
                (bytes_of_string cnt)) as (-> & -> & ->).
    now rewrite !string_of_bytes_of_string.
  - unfold declared_total. rewrite Hsl, Htl, Hcl.
    rewrite !length_app, !bytes_of_string_length. cbn [le_bytes length]. lia.
Qed.

Lemma sample_frame_valid : valid_frame sample_frame.
Proof.
  unfold valid_frame, sample_frame, SerializableMessage.size,
    SerializableMessage.MessageType_defined.
  cbn. repeat split; lia.
Qed.

Lemma Deserialize_Serialize_witness :
  valid_frame sample_frame
  /\ SerializableMessage.Deserialize (SerializableMessage.Serialize sample_frame)
     = Got sample_frame.
Proof.
  split; [exact sample_frame_valid|].
  apply (Deserialize_Serialize sample_frame). exact sample_frame_valid.
Defined.

(** ** Session *)

Lemma Session_Stop_not_running (s : Session.t) :
  Session._running s = false -> Session.Stop s = s.
Proof. intros H. unfold Session.Stop. now rewrite H. Qed.

Lemma Session_Start_running (s : Session.t) :
  Session._running s = true -> Session.Start s = Done (false, s).
Proof. intros H. unfold Session.Start. now rewrite H. Qed.

(** C8: Stop on a session that was never started changes nothing, the peer
    socket included; Start on a running session returns false and changes
    nothing, so no further loop thread is created. *)
Theorem Session_Stop_unstarted_Start_twice :
  (forall sock, Session.Stop (Session.new sock) = Session.new sock
                /\ Session.socket_open (Session.Stop (Session.new sock)) = true)
  /\ (forall s, Session._running s = false -> Session.Stop s = s)
  /\ (forall s, Session._running s = true -> Session.Start s = Done (false, s))
  /\ (forall sock, exists s1,
        Session.Start (Session.new sock) = Done (true, s1)
        /\ Session.threads_spawned s1 = 2%nat
        /\ Session.Start s1 = Done (false, s1)).
Proof.
  split; [|split; [|split]].
  - intros sock. split; reflexivity.
  - exact Session_Stop_not_running.
  - exact Session_Start_running.
  - intros sock. eexists. split; [reflexivity|]. split; reflexivity.
Qed.

Lemma Session_Stop_unstarted_Start_twice_witness :
  Session.Stop (Session.new 7) = Session.new 7
  /\ (exists s1, Session.Start (Session.new 7) = Done (true, s1)
                 /\ Session.threads_spawned s1 = 2%nat
                 /\ Session.Start s1 = Done (false, s1)).
Proof.
  split.
  - apply (proj1 (proj2 Session_Stop_unstarted_Start_twice)). reflexivity.
  - apply (proj2 (proj2 (proj2 Session_Stop_unstarted_Start_twice))).
Defined.

(** ** Broker life cycle *)

Lemma Broker_Start_running (b : IPC.IPCBroker) :
  IPC._running b = true -> IPC.Start b = Done (true, b).
Proof. intros H. unfold IPC.Start. now rewrite H. Qed.

Lemma Broker_Stop_not_running (b : IPC.IPCBroker) :
  IPC._running b = false -> IPC.Stop b = b.
Proof. intros H. unfold IPC.Stop. now rewrite H. Qed.

(** C10: Start on a running broker returns true and leaves the broker as it
    is (no second processing thread); Stop on a broker that is not running
    leaves it as it is (queue, handlers and module registry included). *)
Theorem Broker_Start_running_Stop_stopped :
  (forall b, IPC._running b = true -> IPC.Start b = Done (true, b))
  /\ (forall b, IPC._running b = false -> IPC.Stop b = b)
  /\ (exists b1, IPC.Start IPC.new = Done (true, b1)
                 /\ IPC.threads_spawned b1 = 1%nat
                 /\ IPC.Start b1 = Done (true, b1))
  /\ (let b := snd (IPC.RegisterHandler "A" (Some quiet_handler)
                      (snd (IPC.RegisterModule "A" IPC.new))) in
      IPC._registeredModules b = ["A"] /\ IPC.Stop b = b).
Proof.
  split; [exact Broker_Start_running|].
  split; [exact Broker_Stop_not_running|].
  split.
  - eexists. split; [reflexivity|]. split; reflexivity.
  - split; reflexivity.
Qed.

Lemma Broker_Start_running_Stop_stopped_witness :
  IPC.Stop IPC.new = IPC.new
  /\ (exists b1, IPC.Start IPC.new = Done (true, b1)
                 /\ IPC.threads_spawned b1 = 1%nat
                 /\ IPC.Start b1 = Done (true, b1)).
Proof.
  split.
  - apply (proj1 (proj2 Broker_Start_running_Stop_stopped)). reflexivity.
  - apply (proj1 (proj2 (proj2 Broker_Start_running_Stop_stopped))).
Defined.

(** ** Broker dispatch *)

Lemma call_handlers_calls (t : string) (hs : list IPC.MessageHandler)
    (m : IPC.Message) (c : IPC.Call) :
  c ∈ fst (IPC.call_handlers t hs m) ->
  IPC.call_module c = t /\ IPC.call_handler c ∈ hs /\ IPC.call_message c = m.
Proof.
  induction hs as [|h hs IH]; cbn [IPC.call_handlers fst].
  - intros Hc. now apply elem_of_nil in Hc.
  - destruct (IPC.call_handlers t hs m) as [cs alive] eqn:E.
    cbn [fst] in IH.
    assert (Hhead : forall c',
      c' = {| IPC.call_module := t; IPC.call_handler := h; IPC.call_message := m |} ->
      IPC.call_module c' = t /\ IPC.call_handler c' ∈ h :: hs /\ IPC.call_message c' = m).
    { intros c' ->. cbn. repeat split. apply elem_of_cons. now left. }
    destruct (h m); cbn [fst]; intros Hc; apply elem_of_cons in Hc.
    + destruct Hc as [Hc|Hc]; [now apply Hhead|].
      destruct (IH Hc) as (? & ? & ?). repeat split; [assumption| |assumption].
      apply elem_of_cons. now right.
    + destruct Hc as [Hc|Hc]; [now apply Hhead|].
      destruct (IH Hc) as (? & ? & ?). repeat split; [assumption| |assumption].
      apply elem_of_cons. now right.
    + destruct Hc as [Hc|Hc]; [now apply Hhead|]. now apply elem_of_nil in Hc.
Qed.

Lemma call_handlers_caught (t : string) (hs : list IPC.MessageHandler)
    (m : IPC.Message) :
  (forall h, h ∈ hs -> h m <> IPC.ThrowsOther) ->
  IPC.call_handlers t hs m =
    (map (fun h => {| IPC.call_module := t; IPC.call_handler := h;
                      IPC.call_message := m |}) hs, true).
Proof.
  induction hs as [|h hs IH]; intros Hok; [reflexivity|].
  cbn [IPC.call_handlers map].
  rewrite IH by (intros h' Hh'; apply Hok, elem_of_cons; now right).
  assert (h m <> IPC.ThrowsOther) by (apply Hok, elem_of_cons; now left).
  destruct (h m); [reflexivity|reflexivity|congruence].
Qed.

Lemma call_targets_calls (b : IPC.IPCBroker) (ts : list string)
    (m : IPC.Message) (c : IPC.Call) :
  c ∈ fst (IPC.call_targets b ts m) ->
  IPC.call_module c ∈ ts
  /\ IPC.call_handler c ∈ IPC.handlers_of b (IPC.call_module c)
  /\ IPC.call_message c = m.
Proof.
  induction ts as [|t ts IH]; cbn [IPC.call_targets fst].
  - intros Hc. now apply elem_of_nil in Hc.
  - pose proof (call_handlers_calls t (IPC.handlers_of b t) m c) as Hh.
    destruct (IPC.call_handlers t (IPC.handlers_of b t) m) as [cs alive].
    cbn [fst] in Hh.
    assert (Hhere : c ∈ cs ->
      IPC.call_module c ∈ t :: ts
      /\ IPC.call_handler c ∈ IPC.handlers_of b (IPC.call_module c)
      /\ IPC.call_message c = m).
    { intros Hc. destruct (Hh Hc) as (-> & ? & ?).
      repeat split; [apply elem_of_cons; now left|assumption|assumption]. }
    destruct alive.
    + destruct (IPC.call_targets b ts m) as [cs' alive']. cbn [fst] in *.
      intros Hc. apply elem_of_app in Hc. destruct Hc as [Hc|Hc]; [now apply Hhere|].
      destruct (IH Hc) as (? & ? & ?).
      repeat split; [apply elem_of_cons; now right|assumption|assumption].
    + cbn [fst]. exact Hhere.
Qed.

Lemma call_targets_caught (b : IPC.IPCBroker) (ts : list string) (m : IPC.Message) :
  handlers_caught b ts m ->
  IPC.call_targets b ts m = (flat_map (fun t => calls_to b t m) ts, true).
Proof.
  induction ts as [|t ts IH]; intros Hok; [reflexivity|].
  cbn [IPC.call_targets flat_map].
  rewrite call_handlers_caught
    by (intros h Hh; apply (Hok t h); [apply elem_of_cons; now left|exact Hh]).
  rewrite IH
    by (intros t' h Ht' Hh; apply (Hok t' h); [apply elem_of_cons; now right|exact Hh]).
  reflexivity.
Qed.

(** C6, as the code has it: a message with a target is handed to the
    handlers stored under the target name, in the order they were
    subscribed, and to no handler stored under another name (the loop only
    stops early at a handler that throws something it does not catch); the
    module registry plays no part, and with no handler under the target name
    nothing happens. *)
Theorem unicast_dispatch (b : IPC.IPCBroker) (m : IPC.Message) :
  IPC.targetModule m <> "" ->
  (forall c, c ∈ fst (IPC.dispatch b m) ->
     IPC.call_module c = IPC.targetModule m
     /\ IPC.call_handler c ∈ IPC.handlers_of b (IPC.targetModule m)
     /\ IPC.call_message c = m)
  /\ (handlers_caught b [IPC.targetModule m] m ->
      IPC.dispatch b m = (calls_to b (IPC.targetModule m) m, true))
  /\ (IPC.handlers_of b (IPC.targetModule m) = [] -> IPC.dispatch b m = ([], true))
  /\ (forall b', IPC._handlers b' = IPC._handlers b ->
        IPC.dispatch b' m = IPC.dispatch b m).
Proof.
  intros Htarget.
  assert (Hts : forall b0, IPC.targetModules b0 m = [IPC.targetModule m]).
  { intros b0. unfold IPC.targetModules. now destruct (decide (IPC.targetModule m = "")). }
  unfold IPC.dispatch. rewrite Hts.
  split; [|split; [|split]].
  - intros c Hc. apply call_targets_calls in Hc. destruct Hc as (Hmod & Hh & Hm).
    apply list_elem_of_singleton in Hmod. rewrite Hmod in Hh. now repeat split.
  - intros Hok. rewrite call_targets_caught by exact Hok.
    cbn [flat_map]. now rewrite app_nil_r.
  - intros Hnone. cbn [IPC.call_targets]. now rewrite Hnone.
  - intros b' Hsame. rewrite Hts. cbn [IPC.call_targets].
    unfold IPC.handlers_of. now rewrite Hsame.
Qed.

Lemma unicast_dispatch_witness :
  let b := handler_without_module in
  let m := message_from_to "A" "X" in
  IPC.targetModule m <> ""
  /\ IPC.handlers_of b "X" = [quiet_handler]
  /\ (handlers_caught b [IPC.targetModule m] m ->
      IPC.dispatch b m = (calls_to b (IPC.targetModule m) m, true)).
Proof.
  split; [discriminate|]. split; [reflexivity|].
  apply (unicast_dispatch handler_without_module (message_from_to "A" "X")).
  discriminate.
Defined.

(** C6 as stated fails: a handler subscribed under a name that was never
    registered as a module is reached by a message sent to that name. *)
Lemma unicast_reaches_unregistered_target :
  reachable handler_without_module
  /\ IPC.IsModuleRegistered "X" handler_without_module = false
  /\ IPC._messageQueue handler_without_module = [message_from_to "A" "X"]
  /\ (exists b', IPC.ProcessMessages_step handler_without_module =
        Some (b', [{| IPC.call_module := "X"; IPC.call_handler := quiet_handler;
                      IPC.call_message := message_from_to "A" "X" |}], true)).
Proof.
  split; [|split; [reflexivity|split; [reflexivity|]]].
  - unfold handler_without_module. cbn [IPC.Start IPC._running IPC.new thread_assign
      IPC._processingThread].
    apply reach_SendMessage, reach_RegisterHandler.
    eapply reach_Start; [apply reach_new|reflexivity].
  - eexists. reflexivity.
Qed.

(** ** The module registry holds no name twice *)

Lemma erase_first_subset (x y : string) (l : list string) :
  y ∈ IPC.erase_first x l -> y ∈ l.
Proof.
  induction l as [|z l IH]; cbn [IPC.erase_first]; [easy|].
  destruct (decide (z = x)); intros Hy.
  - apply elem_of_cons. now right.
  - apply elem_of_cons in Hy. apply elem_of_cons.
    destruct Hy as [->|Hy]; [now left|right; now apply IH].
Qed.

Lemma erase_first_NoDup (x : string) (l : list string) :
  NoDup l -> NoDup (IPC.erase_first x l).
Proof.
  induction l as [|z l IH]; cbn [IPC.erase_first]; intros Hnd; [constructor|].
  apply NoDup_cons in Hnd. destruct Hnd as [Hz Hnd].
  destruct (decide (z = x)); [assumption|].
  apply NoDup_cons. split; [|now apply IH].
  intros Hin. apply Hz. eapply erase_first_subset, Hin.
Qed.

Lemma reachable_NoDup (b : IPC.IPCBroker) :
  reachable b -> NoDup (IPC._registeredModules b).
Proof.
  induction 1 as [ | b r b' _ IH HStart | b _ IH | b name _ IH | b name _ IH
                 | b message _ IH | b name handler _ IH | b b' calls alive _ IH Hstep ].
  - constructor.
  - unfold IPC.Start in HStart. destruct (IPC._running b).
    + now inversion HStart; subst.
    + destruct (thread_assign (IPC._processingThread b)); [|discriminate].
      now inversion HStart; subst.
  - unfold IPC.Stop. destruct (negb (IPC._running b)); [assumption|constructor].
  - unfold IPC.RegisterModule, IPC.IsModuleRegistered.
    destruct (bool_decide_reflect (name ∈ IPC._registeredModules b)) as [Hin|Hout];
      cbn [snd IPC._registeredModules]; [assumption|].
    apply NoDup_app. split; [assumption|]. split; [|apply NoDup_singleton].
    intros x Hx Hx'. apply list_elem_of_singleton in Hx'. now subst.
  - unfold IPC.UnregisterModule. destruct (IPC.IsModuleRegistered name b);
      cbn [snd IPC._registeredModules]; [now apply erase_first_NoDup|assumption].
  - unfold IPC.SendMessage. destruct (negb (IPC._running b)); [assumption|].
    destruct (decide (IPC.sourceModule message = "")); assumption.
  - unfold IPC.RegisterHandler. destruct handler; assumption.
  - unfold IPC.ProcessMessages_step in Hstep.
    destruct (negb (IPC._running b)); [discriminate|].
    destruct (IPC._messageQueue b) as [|message rest]; [discriminate|].
    destruct (IPC.dispatch _ message) as [cs al].
    now inversion Hstep; subst.
Qed.

Lemma filter_out_length (x : string) (l : list string) :
  NoDup l ->
  length (filter (fun y => y <> x) l)
  = (length l - (if bool_decide (x ∈ l) then 1 else 0))%nat.
Proof.
  induction l as [|z l IH]; intros Hnd; [reflexivity|].
  apply NoDup_cons in Hnd. destruct Hnd as [Hz Hnd]. specialize (IH Hnd).
  rewrite filter_cons. destruct (decide (z <> x)) as [Hne|Heq].
  - cbn [length]. rewrite IH.
    destruct (bool_decide_reflect (x ∈ l)) as [Hin|Hout].
    + rewrite bool_decide_eq_true_2 by (apply elem_of_cons; now right).
      destruct l; [now apply elem_of_nil in Hin|cbn [length]; lia].
    + rewrite bool_decide_eq_false_2; [lia|].
      intros Hc. apply elem_of_cons in Hc. destruct Hc; congruence.
  - assert (z = x) by (destruct (decide (z = x)); [assumption|contradiction]).
    subst z. rewrite bool_decide_eq_true_2 by (apply elem_of_cons; now left).
    rewrite IH, bool_decide_eq_false_2 by assumption. cbn [length]. lia.
Qed.

(** C7, as the code has it: a message with an empty target goes to every
    registered module except the source, each handler of each such module
    being called (the loop only stops early at a handler that throws
    something it does not catch); the number of modules it goes to is the
    number of registered modules minus one when the source is registered,
    and the number of registered modules when it is not. *)
Theorem broadcast_dispatch (b : IPC.IPCBroker) (m : IPC.Message) :
  reachable b ->
  IPC.targetModule m = "" ->
  (forall t, t ∈ IPC.targetModules b m <->
             t ∈ IPC._registeredModules b /\ t <> IPC.sourceModule m)
  /\ length (IPC.targetModules b m)
     = (length (IPC._registeredModules b)
        - (if IPC.IsModuleRegistered (IPC.sourceModule m) b then 1 else 0))%nat
  /\ (handlers_caught b (IPC.targetModules b m) m ->
      IPC.dispatch b m
      = (flat_map (fun t => calls_to b t m) (IPC.targetModules b m), true)).
Proof.
  intros Hreach Htarget.
  assert (Hts : IPC.targetModules b m
                = filter (fun t => t <> IPC.sourceModule m) (IPC._registeredModules b)).
  { unfold IPC.targetModules. now destruct (decide (IPC.targetModule m = "")). }
  split; [|split].
  - intros t. rewrite Hts, list_elem_of_filter. tauto.
  - rewrite Hts. unfold IPC.IsModuleRegistered.
    apply filter_out_length. now apply reachable_NoDup.
  - intros Hok. unfold IPC.dispatch. now apply call_targets_caught.
Qed.

Lemma broadcast_from_outside_reachable : reachable broadcast_from_outside.
Proof.
  unfold broadcast_from_outside. cbn [IPC.Start IPC._running IPC.new thread_assign
    IPC._processingThread].
  apply reach_SendMessage, reach_RegisterHandler, reach_RegisterModule.
  eapply reach_Start; [apply reach_new|reflexivity].
Qed.

Lemma broadcast_dispatch_witness :
  let b := broadcast_from_outside in
  let m := message_from_to "A" "" in
  reachable b /\ IPC.targetModule m = ""
  /\ IPC.targetModules b m = ["B"]
  /\ length (IPC.targetModules b m)
     = (length (IPC._registeredModules b)
        - (if IPC.IsModuleRegistered (IPC.sourceModule m) b then 1 else 0))%nat.
Proof.
  split; [exact broadcast_from_outside_reachable|].
  split; [reflexivity|]. split; [reflexivity|].
  apply (broadcast_dispatch broadcast_from_outside (message_from_to "A" "")).
  - exact broadcast_from_outside_reachable.
  - reflexivity.
Defined.

(** C7 as stated fails: a broadcast whose source is not a registered module
    reaches all the registered modules, one more than the count minus one. *)
Lemma broadcast_from_unregistered_source :
  reachable broadcast_from_outside
  /\ IPC._messageQueue broadcast_from_outside = [message_from_to "A" ""]
  /\ IPC._registeredModules broadcast_from_outside = ["B"]
  /\ (exists b' calls,
        IPC.ProcessMessages_step broadcast_from_outside = Some (b', calls, true)
        /\ modules_called calls = ["B"]
        /\ length (modules_called calls) = 1%nat
        /\ (length (IPC._registeredModules broadcast_from_outside) - 1 = 0)%nat).
Proof.
  split; [exact broadcast_from_outside_reachable|].
  split; [reflexivity|]. split; [reflexivity|].
  eexists _, _. split; [reflexivity|]. repeat split.
Qed.

(** ** Control plane: strings and the response buffer *)

Lemma substring_0_length (n : nat) (s : string) :
  (String.length (substring 0 n s) <= n)%nat.
Proof.
  revert s. induction n as [|n IH]; intros s.
  - destruct s; cbn; lia.
  - destruct s as [|c s]; cbn [substring String.length]; [lia|].
    specialize (IH s). lia.
Qed.

Lemma substring_0_all (n : nat) (s : string) :
  (String.length s <= n)%nat -> substring 0 n s = s.
Proof.
  revert n. induction s as [|c s IH]; intros n Hlen.
  - now destruct n.
  - destruct n as [|n]; cbn [String.length] in Hlen; [lia|].
    cbn [substring]. rewrite IH by lia. reflexivity.
Qed.

(** The test of the disconnect branch compares at most 16 characters with a
    19-character literal, so it never holds. *)
Lemma disconnect_branch_dead (cmd : string) :
  compare_eq 0 16 cmd "disconnect_session:" = false.
Proof.
  unfold compare_eq. apply String.eqb_neq. intros Heq.
  pose proof (substring_0_length 16 cmd) as Hlen.
  rewrite Heq in Hlen. cbn in Hlen. lia.
Qed.

Lemma compare_eq_prefix (lit s : string) :
  compare_eq 0 (String.length lit) s lit = String.prefix lit s.
Proof.
  unfold compare_eq.
  destruct (String.prefix lit s) eqn:Hp.
  - apply String.eqb_eq. now apply prefix_correct.
  - apply String.eqb_neq. intros Heq. apply prefix_correct in Heq. congruence.
Qed.

Lemma Session_destroy_Stop (x : Session.t) :
  Session_destroy (Session.Stop x) = if stoppable x then Done tt else Terminate.
Proof.
  unfold Session_destroy, stoppable, Session.Stop.
  destruct (Session._running x) eqn:Hrun; cbn [negb Session._running]; [reflexivity|].
  rewrite Hrun. cbn [negb orb].
  now destruct (Session._inputThread x || Session._screenThread x).
Qed.

Lemma clear_sessions_stopped (l : list (string * Session.t)) :
  RemoteDesktopServer.clear_sessions (map (fun p => (fst p, Session.Stop (snd p))) l)
  = if existsb (fun p => negb (stoppable (snd p))) l then Terminate else Done tt.
Proof.
  induction l as [|p l IH]; [reflexivity|].
  cbn [map RemoteDesktopServer.clear_sessions existsb snd].
  rewrite Session_destroy_Stop. destruct (stoppable (snd p)); [exact IH|reflexivity].
Qed.

(** The server's [Stop] ends the process exactly when the server runs and
    holds a session that is not stoppable. *)
Lemma Stop_outcome (s : RemoteDesktopServer.t) :
  RemoteDesktopServer.Stop s
  = if negb (RemoteDesktopServer._running s) then Done s
    else if existsb (fun p => negb (stoppable (snd p))) (RemoteDesktopServer._sessions s)
         then Terminate
         else Done {| RemoteDesktopServer._running := false;
                      RemoteDesktopServer._port := RemoteDesktopServer._port s;
                      RemoteDesktopServer._sessions := [] |}.
Proof.
  unfold RemoteDesktopServer.Stop. rewrite clear_sessions_stopped.
  destruct (negb (RemoteDesktopServer._running s)); [reflexivity|].
  now destruct (existsb _ _).
Qed.

Lemma command_result_aborts (net_start : Z -> bool) (cmd : string)
    (s : RemoteDesktopServer.t) :
  stop_aborts cmd s = true ->
  RemoteDesktopServer.command_result net_start cmd s = Terminate.
Proof.
  unfold stop_aborts. intros H.
  apply andb_true_iff in H. destruct H as [H Hex].
  apply andb_true_iff in H. destruct H as [Hcmd Hrun].
  apply String.eqb_eq in Hcmd. subst cmd.
  unfold RemoteDesktopServer.command_result. cbn [String.eqb Ascii.eqb Bool.eqb].
  cbn. rewrite Hrun. cbn [negb]. rewrite Stop_outcome, Hrun, Hex. reflexivity.
Qed.

Lemma command_result_total (net_start : Z -> bool) (cmd : string)
    (s : RemoteDesktopServer.t) :
  stop_aborts cmd s = false ->
  exists result s',
    RemoteDesktopServer.command_result net_start cmd s = Done (Some (result, s')).
Proof.
  unfold stop_aborts. intros Hno.
  unfold RemoteDesktopServer.command_result.
  rewrite disconnect_branch_dead.
  destruct (String.eqb cmd "status"); [eauto|].
  destruct (String.eqb cmd "start").
  { destruct (RemoteDesktopServer._running s); [eauto|].
    destruct (RemoteDesktopServer.Start net_start _ s); eauto. }
  destruct (String.eqb cmd "stop").
  { rewrite Stop_outcome.
    destruct (RemoteDesktopServer._running s); cbn [negb andb] in *; [|eauto].
    rewrite Hno. eauto. }
  destruct (compare_eq 0 9 cmd "setport: ").
  { destruct (substr 9 cmd ≫= stoi) as [newPort|]; [|eauto].
    destruct ((0 <? newPort) && (newPort <? 65536)); eauto. }
  destruct (String.eqb cmd "list_sessions"); eauto.
Qed.

Lemma command_result_unrecognized (net_start : Z -> bool) (cmd : string)
    (s : RemoteDesktopServer.t) :
  ~ recognized cmd ->
  RemoteDesktopServer.command_result net_start cmd s
  = Done (Some (RemoteDesktopServer.unknown_command, s)).
Proof.
  intros Hun. unfold recognized in Hun.
  unfold RemoteDesktopServer.command_result.
  rewrite disconnect_branch_dead.
  change 9%nat with (String.length "setport: "). rewrite compare_eq_prefix.
  replace (String.eqb cmd "status") with false by (symmetry; apply String.eqb_neq; tauto).
  replace (String.eqb cmd "start") with false by (symmetry; apply String.eqb_neq; tauto).
  replace (String.eqb cmd "stop") with false by (symmetry; apply String.eqb_neq; tauto).
  replace (String.eqb cmd "list_sessions") with false
    by (symmetry; apply String.eqb_neq; tauto).
  destruct (String.prefix "setport: " cmd); [tauto|reflexivity].
Qed.

Lemma strncpy_length (src : string) (n : nat) : length (strncpy src n) = n.
Proof.
  revert src. induction n as [|n IH]; intros src; [reflexivity|].
  cbn [strncpy]. destruct src as [|c src].
  - apply repeat_length.
  - destruct (Ascii.eqb c NUL); [apply repeat_length|].
    cbn [length]. now rewrite IH.
Qed.

Lemma response_text_NUL (l : list ascii) : response_text (NUL :: l) = EmptyString.
Proof. reflexivity. Qed.

Lemma response_text_repeat_NUL (n : nat) (l : list ascii) :
  response_text (repeat NUL n ++ NUL :: l) = EmptyString.
Proof. destruct n; reflexivity. Qed.

(** What the caller reads back after [strncpy] and the terminating store:
    the first [n] characters of the result's C string. *)
Lemma response_text_strncpy (result : string) (n : nat) (rest : list ascii) :
  response_text (strncpy result n ++ NUL :: rest) = substring 0 n (c_str result).
Proof.
  revert result. induction n as [|n IH]; intros result.
  - cbn [strncpy app]. rewrite response_text_NUL. now destruct (c_str result).
  - cbn [strncpy]. destruct result as [|c result].
    + now rewrite response_text_repeat_NUL.
    + cbn [c_str]. destruct (Ascii.eqb c NUL) eqn:Hc.
      * now rewrite response_text_repeat_NUL.
      * cbn [substring app]. rewrite <- IH.
        unfold response_text. cbn [string_of_list_ascii c_str]. now rewrite Hc.
Qed.

Lemma response_text_length (result : string) (n : nat) (rest : list ascii) :
  (String.length (response_text (strncpy result n ++ NUL :: rest)) <= n)%nat.
Proof. rewrite response_text_strncpy. apply substring_0_length. Qed.

(** The buffer after a call that gets past the parameter check. *)
Lemma ExecuteCommand_writes (net_start : Z -> bool) (command : string)
    (buf : list ascii) (responseSize : Z) (s s' : RemoteDesktopServer.t)
    (result : string) :
  0 < responseSize <= Z.of_nat (length buf) ->
  RemoteDesktopServer.command_result net_start (c_str command) s
  = Done (Some (result, s')) ->
  RemoteDesktopServer.ExecuteCommand net_start (Some command) (Some buf) responseSize s
  = RemoteDesktopServer.Returned true
      (Some (strncpy result (Z.to_nat (responseSize - 1))
             ++ NUL :: skipn (S (Z.to_nat (responseSize - 1))) buf)) s'.
Proof.
  intros Hsize Hres. unfold RemoteDesktopServer.ExecuteCommand.
  replace (responseSize <=? 0) with false by (symmetry; apply Z.leb_gt; lia).
  rewrite Hres.
  set (n := Z.to_nat (responseSize - 1)).
  assert (Hn : (S n <= length buf)%nat) by (subst n; lia).
  assert (H1 : write_at buf 0 (strncpy result n) = Some (strncpy result n ++ drop n buf)).
  { unfold write_at. rewrite strncpy_length. cbn [Nat.add].
    replace (n <=? length buf)%nat with true by (symmetry; apply Nat.leb_le; lia).
    reflexivity. }
  assert (H2 : write_at (strncpy result n ++ drop n buf) n [NUL]
               = Some (strncpy result n ++ NUL :: drop (S n) buf)).
  { unfold write_at. rewrite length_app, strncpy_length, length_drop. cbn [length].
    replace (n + 1 <=? n + (length buf - n))%nat with true
      by (symmetry; apply Nat.leb_le; lia).
    rewrite take_app_length' by (now rewrite strncpy_length).
    rewrite drop_app_add' by (now rewrite strncpy_length).
    rewrite drop_drop. replace (n + 1)%nat with (S n) by lia. reflexivity. }
  now rewrite H1, H2.
Qed.

(** The call that is no stop on a server with a session that cannot be
    stopped returns true having stored only into the first [responseSize]
    characters of the caller's array, the one at index [responseSize - 1]
    being NUL. *)
Lemma ExecuteCommand_response_buffer (net_start : Z -> bool) (text : string)
    (buf : list ascii) (responseSize : Z) (s : RemoteDesktopServer.t) :
  0 < responseSize <= Z.of_nat (length buf) ->
  stop_aborts (c_str text) s = false ->
  exists buf' s',
    RemoteDesktopServer.ExecuteCommand net_start (Some text) (Some buf) responseSize s
    = RemoteDesktopServer.Returned true (Some buf') s'
    /\ length buf' = length buf
    /\ drop (Z.to_nat responseSize) buf' = drop (Z.to_nat responseSize) buf
    /\ buf' !! Z.to_nat (responseSize - 1) = Some NUL
    /\ Z.of_nat (String.length (response_text buf')) < responseSize.
Proof.
  intros Hsize Hno.
  destruct (command_result_total net_start (c_str text) s Hno) as (result & s' & Hres).
  rewrite (ExecuteCommand_writes net_start text buf responseSize s s' result Hsize Hres).
  set (n := Z.to_nat (responseSize - 1)).
  assert (Hrs : Z.to_nat responseSize = S n) by (subst n; lia).
  assert (Hn : (S n <= length buf)%nat) by lia.
  eexists _, _. split; [reflexivity|]. repeat split.
  - rewrite length_app, strncpy_length. cbn [length]. rewrite length_drop. lia.
  - rewrite Hrs.
    change (NUL :: drop (S n) buf) with ([NUL] ++ drop (S n) buf).
    rewrite app_assoc.
    apply drop_app_length'. rewrite length_app, strncpy_length. cbn [length]. lia.
  - rewrite lookup_app_r by (rewrite strncpy_length; lia).
    rewrite strncpy_length, Nat.sub_diag. reflexivity.
  - pose proof (response_text_length result n (drop (S n) buf)). lia.
Qed.

(** C9: with a null [command] or [response], or a non-positive
    [responseSize], the call returns false and stores nothing.  Otherwise
    it returns true having stored only into the first [responseSize]
    characters of the caller's array, the one at index [responseSize - 1]
    being NUL, except in one case where it does not return at all: the
    stop command on a running server that holds a session which [Stop]
    cannot join ends in [std::terminate] before anything is stored.  A
    session whose peer has disconnected is such a session, and the stop
    command on the server that holds one is the failing input. *)
Theorem ExecuteCommand_stop_aborts (net_start : Z -> bool)
    (command : option string) (response : option (list ascii)) (responseSize : Z)
    (s : RemoteDesktopServer.t) :
  ((command = None \/ response = None \/ responseSize <= 0) ->
   RemoteDesktopServer.ExecuteCommand net_start command response responseSize s
   = RemoteDesktopServer.Returned false response s)
  /\ (forall text buf,
        command = Some text -> response = Some buf ->
        0 < responseSize <= Z.of_nat (length buf) ->
        if stop_aborts (c_str text) s
        then RemoteDesktopServer.ExecuteCommand net_start command response responseSize s
             = RemoteDesktopServer.Aborted
        else exists buf' s',
          RemoteDesktopServer.ExecuteCommand net_start command response responseSize s
          = RemoteDesktopServer.Returned true (Some buf') s'
          /\ length buf' = length buf
          /\ drop (Z.to_nat responseSize) buf' = drop (Z.to_nat responseSize) buf
          /\ buf' !! Z.to_nat (responseSize - 1) = Some NUL
          /\ Z.of_nat (String.length (response_text buf')) < responseSize)
  /\ Session.Start (Session.new 7) = Done (true, started_session)
  /\ stoppable started_session = true
  /\ stoppable (Session.peer_disconnected started_session) = false
  /\ RemoteDesktopServer.ExecuteCommand (fun _ => true) (Some "stop")
       (Some (scratch 64)) 64 server_after_disconnect
     = RemoteDesktopServer.Aborted.
Proof.
  split; [|split].
  - intros Hbad. unfold RemoteDesktopServer.ExecuteCommand.
    destruct command as [text|]; [|reflexivity].
    destruct response as [buf|]; [|reflexivity].
    destruct Hbad as [Hc|[Hr|Hs]]; [discriminate|discriminate|].
    replace (responseSize <=? 0) with true by (symmetry; apply Z.leb_le; lia).
    reflexivity.
  - intros text buf -> -> Hsize.
    destruct (stop_aborts (c_str text) s) eqn:Hstop.
    + unfold RemoteDesktopServer.ExecuteCommand.
      replace (responseSize <=? 0) with false by (symmetry; apply Z.leb_gt; lia).
      now rewrite (command_result_aborts net_start _ s Hstop).
    + now apply ExecuteCommand_response_buffer.
  - repeat split.
Qed.

Lemma unknown_command_plain :
  c_str RemoteDesktopServer.unknown_command = RemoteDesktopServer.unknown_command
  /\ String.length RemoteDesktopServer.unknown_command = 50%nat.
Proof. split; reflexivity. Qed.

(** C5, as the code has it: for text that is none of the recognized
    commands the call stores the response as the source spells it, with a
    space after each brace, colon and comma, cut to [responseSize - 1]
    characters; from [responseSize = 51] on the whole text fits. *)
Theorem unrecognized_command_response (net_start : Z -> bool) (command : string)
    (buf : list ascii) (responseSize : Z) (s : RemoteDesktopServer.t) :
  ~ recognized (c_str command) ->
  0 < responseSize <= Z.of_nat (length buf) ->
  exists buf',
    RemoteDesktopServer.ExecuteCommand net_start (Some command) (Some buf) responseSize s
    = RemoteDesktopServer.Returned true (Some buf') s
    /\ response_text buf'
       = substring 0 (Z.to_nat (responseSize - 1)) RemoteDesktopServer.unknown_command
    /\ (50 < responseSize -> response_text buf' = RemoteDesktopServer.unknown_command).
Proof.
  intros Hun Hsize.
  pose proof (command_result_unrecognized net_start (c_str command) s Hun) as Hres.
  rewrite (ExecuteCommand_writes net_start command buf responseSize s s _ Hsize Hres).
  eexists. split; [reflexivity|].
  rewrite response_text_strncpy, (proj1 unknown_command_plain).
  split; [reflexivity|].
  intros Hbig. apply substring_0_all.
  rewrite (proj2 unknown_command_plain). lia.
Qed.

Lemma reboot_not_recognized : ~ recognized "reboot".
Proof.
  unfold recognized. intros [H|[H|[H|[H|[H|H]]]]]; discriminate.
Qed.

Lemma unrecognized_command_response_witness :
  (recognized (c_str "reboot") -> False)
  /\ 0 < 64 <= Z.of_nat (length (scratch 64))
  /\ exists buf',
      RemoteDesktopServer.ExecuteCommand (fun _ => true) (Some "reboot")
        (Some (scratch 64)) 64 RemoteDesktopServer.new
      = RemoteDesktopServer.Returned true (Some buf') RemoteDesktopServer.new
      /\ response_text buf'
         = substring 0 (Z.to_nat (64 - 1)) RemoteDesktopServer.unknown_command
      /\ (50 < 64 -> response_text buf' = RemoteDesktopServer.unknown_command).
Proof.
  split; [exact reboot_not_recognized|]. split; [cbn; lia|].
  apply (unrecognized_command_response (fun _ => true) "reboot" (scratch 64) 64
           RemoteDesktopServer.new).
  - exact reboot_not_recognized.
  - cbn. lia.
Defined.

(** C5 as stated fails: the response to unrecognized text is not the
    compact text of the specification. *)
Lemma unknown_command_is_spaced :
  (recognized "reboot" -> False)
  /\ (exists buf',
        RemoteDesktopServer.ExecuteCommand (fun _ => true) (Some "reboot")
          (Some (scratch 64)) 64 RemoteDesktopServer.new
        = RemoteDesktopServer.Returned true (Some buf') RemoteDesktopServer.new
        /\ response_text buf' = RemoteDesktopServer.unknown_command
        /\ response_text buf' <> unknown_command_compact)
  /\ String.length unknown_command_compact = 45%nat
  /\ String.length RemoteDesktopServer.unknown_command = 50%nat.
Proof.
  split; [exact reboot_not_recognized|]. split; [|split; reflexivity].
  eexists. split; [reflexivity|]. split; [reflexivity|]. discriminate.
Qed.

(** C4: text made of the disconnect prefix and a session id is answered as
    an unknown command and the session table is left alone, whatever the
    id; so is the request to disconnect the session abc that the table
    holds and that [RemoveSession] would have removed. *)
Theorem disconnect_session_unknown :
  (forall net_start sid s,
     RemoteDesktopServer.command_result net_start
       (c_str ("disconnect_session:" +:+ sid)) s
     = Done (Some (RemoteDesktopServer.unknown_command, s)))
  /\ (exists buf',
        RemoteDesktopServer.ExecuteCommand (fun _ => true)
          (Some "disconnect_session:abc") (Some (scratch 64)) 64 server_with_session
        = RemoteDesktopServer.Returned true (Some buf') server_with_session
        /\ response_text buf' = RemoteDesktopServer.unknown_command)
  /\ fst (RemoteDesktopServer.RemoveSession "abc" server_with_session) = true.
Proof.
  split; [|split].
  - intros net_start sid s. unfold RemoteDesktopServer.command_result.
    rewrite disconnect_branch_dead. reflexivity.
  - eexists. split; reflexivity.
  - reflexivity.
Qed.

(** ** Decimal text *)

Lemma read_digits_stop (rest : string) (acc : Z) :
  starts_without_digit rest -> read_digits rest acc true = Some acc.
Proof.
  destruct rest as [|c rest]; cbn [read_digits starts_without_digit]; [reflexivity|].
  unfold is_digit. now destruct (digit_val c).
Qed.

Lemma read_digits_uint (d : Decimal.uint) (rest : string) (acc : Z) :
  d <> Decimal.Nil ->
  read_digits (NilEmpty.string_of_uint d +:+ rest) acc false
  = read_digits rest (uint_value acc d) true.
Proof.
  assert (Hgen : forall d rest acc,
    read_digits (NilEmpty.string_of_uint d +:+ rest) acc true
    = read_digits rest (uint_value acc d) true).
  { clear. induction d; intros rest acc; cbn [NilEmpty.string_of_uint uint_value];
      [reflexivity|..];
      (change (String ?c ?x +:+ rest) with (String c (x +:+ rest));
       cbn [read_digits]; cbv [digit_val]; cbn; apply IHd). }
  destruct d; intros Hd; [congruence|..];
    (cbn [NilEmpty.string_of_uint uint_value];
     change (String ?c ?x +:+ rest) with (String c (x +:+ rest));
     cbn [read_digits]; cbv [digit_val]; cbn; apply Hgen).
Qed.

Lemma uint_value_acc (d : Decimal.uint) (p : positive) :
  uint_value (Z.pos p) d = Z.pos (Pos.of_uint_acc d p).
Proof.
  revert p. induction d; intros p; cbn [uint_value Pos.of_uint_acc]; [reflexivity|..];
    (rewrite <- IHd; f_equal; lia).
Qed.

Lemma uint_value_of_uint (d : Decimal.uint) :
  uint_value 0 d = Z.of_N (Pos.of_uint d).
Proof.
  induction d; cbn [uint_value Pos.of_uint]; [reflexivity|exact IHd|..];
    (match goal with
     | |- uint_value ?a _ = _ => let a' := eval compute in a in change a with a'
     end; rewrite uint_value_acc; reflexivity).
Qed.

Lemma to_string_pos (p : positive) :
  to_string (Z.pos p) = NilEmpty.string_of_uint (Pos.to_uint p).
Proof.
  unfold to_string. cbn [Z.to_int NilZero.string_of_int].
  pose proof (DecimalPos.Unsigned.to_uint_nonnil p) as Hnn.
  unfold NilZero.string_of_uint. now destruct (Pos.to_uint p).
Qed.

(** Reading back the decimal text of a number that is not negative. *)
Lemma read_digits_to_string (n : Z) (rest : string) :
  0 <= n -> starts_without_digit rest ->
  read_digits (to_string n +:+ rest) 0 false = Some n.
Proof.
  intros Hn Hrest. destruct n as [|p|p]; [|clear Hn|lia].
  - change (to_string 0 +:+ rest) with (String "0" rest).
    cbn [read_digits]. cbv [digit_val]. cbn. now apply read_digits_stop.
  - rewrite to_string_pos.
    rewrite read_digits_uint by apply DecimalPos.Unsigned.to_uint_nonnil.
    rewrite uint_value_of_uint, DecimalPos.Unsigned.of_to.
    now apply read_digits_stop.
Qed.

Lemma digit_char_plain (c : ascii) :
  is_digit c = true ->
  isspace c = false /\ Ascii.eqb c "-"%char = false /\ Ascii.eqb c "+"%char = false.
Proof.
  unfold is_digit, digit_val, isspace.
  intros Hd.
  destruct ((48 <=? nat_of_ascii c)%nat && (nat_of_ascii c <=? 57)%nat) eqn:E;
    [|discriminate].
  apply andb_true_iff in E. destruct E as [E1 E2].
  apply Nat.leb_le in E1. apply Nat.leb_le in E2.
  repeat split.
  - apply orb_false_iff. split.
    + apply Nat.eqb_neq. lia.
    + apply andb_false_iff. right. apply Nat.leb_gt. lia.
  - apply Ascii.eqb_neq. intros ->.
    assert (nat_of_ascii "-" = 45%nat) by reflexivity. lia.
  - apply Ascii.eqb_neq. intros ->.
    assert (nat_of_ascii "+" = 43%nat) by reflexivity. lia.
Qed.

Lemma uint_text_digits (d : Decimal.uint) :
  forallb is_digit (list_ascii_of_string (NilEmpty.string_of_uint d)) = true.
Proof. induction d; cbn; auto. Qed.

Lemma to_string_digits (n : Z) :
  0 <= n ->
  forallb is_digit (list_ascii_of_string (to_string n)) = true
  /\ exists c r, to_string n = String c r /\ is_digit c = true.
Proof.
  intros Hn. destruct n as [|p|p]; [|clear Hn|lia].
  - split; [reflexivity|]. now exists "0"%char, EmptyString.
  - rewrite to_string_pos. split; [apply uint_text_digits|].
    pose proof (DecimalPos.Unsigned.to_uint_nonnil p) as Hnn.
    destruct (Pos.to_uint p); [congruence|..]; eexists _, _; split; reflexivity.
Qed.

(** [std::stoi] reads back what [std::to_string] printed, for a number
    inside [0 .. INT_MAX], whatever non-digit text follows. *)
Lemma stoi_to_string (n : Z) (rest : string) :
  0 <= n < 2 ^ 31 -> starts_without_digit rest ->
  stoi (to_string n +:+ rest) = Some n.
Proof.
  intros Hn Hrest.
  pose proof (read_digits_to_string n rest ltac:(lia) Hrest) as Hread.
  destruct (to_string_digits n ltac:(lia)) as (_ & c & r & Htext & Hc).
  rewrite Htext in *.
  destruct (digit_char_plain c Hc) as (Hsp & Hminus & Hplus).
  unfold stoi. change (String c r +:+ rest) with (String c (r +:+ rest)) in *.
  cbn [skip_space]. rewrite Hsp, Hminus, Hplus, Hread.
  replace (- 2 ^ 31 <=? n) with true by (symmetry; apply Z.leb_le; lia).
  replace (n <? 2 ^ 31) with true by (symmetry; apply Z.ltb_lt; lia).
  reflexivity.
Qed.

Lemma append_empty_r (s : string) : s +:+ EmptyString = s.
Proof.
  induction s as [|c s IH]; [reflexivity|].
  change (String c s +:+ EmptyString) with (String c (s +:+ EmptyString)).
  now rewrite IH.
Qed.

Lemma substring_0_app (a b : string) :
  substring 0 (String.length a) (a +:+ b) = a.
Proof.
  induction a as [|c a IH]; [now destruct b|].
  change (String c a +:+ b) with (String c (a +:+ b)).
  cbn [String.length substring]. now rewrite IH.
Qed.

Lemma substr_app (a b : string) : substr (String.length a) (a +:+ b) = Some b.
Proof.
  induction a as [|c a IH].
  - unfold substr. cbn [String.length append Nat.leb].
    now rewrite Nat.sub_0_r, substring_0_all by lia.
  - change (String c a +:+ b) with (String c (a +:+ b)).
    unfold substr in *. cbn [String.length Nat.leb Nat.sub substring]. exact IH.
Qed.

(** X1: a setport command that carries the decimal text of a port between
    1 and 65535 stores that port and answers that the port was set; the
    rest of the server state is kept. *)
Theorem setport_stores_port (net_start : Z -> bool) (n : Z)
    (s : RemoteDesktopServer.t) :
  0 < n < 65536 ->
  RemoteDesktopServer.command_result net_start ("setport: " +:+ to_string n) s
  = Done (Some (RemoteDesktopServer.success_message true
                  ("Port set to " +:+ to_string n),
                {| RemoteDesktopServer._running := RemoteDesktopServer._running s;
                   RemoteDesktopServer._port := n;
                   RemoteDesktopServer._sessions := RemoteDesktopServer._sessions s |})).
Proof.
  intros Hn. unfold RemoteDesktopServer.command_result.
  change (String.eqb ("setport: " +:+ to_string n) "status") with false.
  change (String.eqb ("setport: " +:+ to_string n) "start") with false.
  change (String.eqb ("setport: " +:+ to_string n) "stop") with false.
  replace (compare_eq 0 9 ("setport: " +:+ to_string n) "setport: ") with true
    by (symmetry; apply String.eqb_eq;
        exact (substring_0_app "setport: " (to_string n))).
  cbv iota.
  pose proof (substr_app "setport: " (to_string n)) as Hsub.
  change (String.length "setport: ") with 9%nat in Hsub.
  rewrite Hsub. cbn [mbind option_bind].
  pose proof (stoi_to_string n EmptyString ltac:(lia) I) as Hstoi.
  rewrite append_empty_r in Hstoi. rewrite Hstoi.
  replace (0 <? n) with true by (symmetry; apply Z.ltb_lt; lia).
  replace (n <? 65536) with true by (symmetry; apply Z.ltb_lt; lia).
  reflexivity.
Qed.

Lemma setport_stores_port_witness :
  0 < 8900 < 65536
  /\ RemoteDesktopServer._port
       (match RemoteDesktopServer.command_result (fun _ => true)
                ("setport: " +:+ to_string 8900) RemoteDesktopServer.new with
        | Done (Some (_, s')) => s'
        | _ => RemoteDesktopServer.new
        end) = 8900.
Proof.
  split; [lia|].
  rewrite (setport_stores_port (fun _ => true) 8900 RemoteDesktopServer.new); [reflexivity|lia].
Defined.

Lemma command_result_port (net_start : Z -> bool) (cmd result : string)
    (s s' : RemoteDesktopServer.t) :
  RemoteDesktopServer.command_result net_start cmd s = Done (Some (result, s')) ->
  RemoteDesktopServer._port s' = RemoteDesktopServer._port s
  \/ 0 < RemoteDesktopServer._port s' < 65536.
Proof.
  unfold RemoteDesktopServer.command_result, RemoteDesktopServer.Start,
    RemoteDesktopServer.RemoveSession.
  rewrite Stop_outcome.
  repeat match goal with
         | |- context [if ?c then _ else _] => destruct c eqn:?
         | |- context [match ?o with Some _ => _ | None => _ end] => destruct o eqn:?
         end;
    intros [= <- <-] || intros [=]; cbn [RemoteDesktopServer._port]; auto.
  right.
  match goal with
  | H : (_ <? _) && (_ <? _) = true |- _ =>
      apply andb_true_iff in H; destruct H as [H1 H2];
      apply Z.ltb_lt in H1; apply Z.ltb_lt in H2; lia
  end.
Qed.

(** X2: a call of ExecuteCommand that returns leaves the port inside
    1 .. 65535 when it was there before, whatever the command text. *)
Theorem ExecuteCommand_keeps_port_range (net_start : Z -> bool)
    (command : option string) (response : option (list ascii)) (responseSize : Z)
    (s s' : RemoteDesktopServer.t) (ret : bool) (response' : option (list ascii)) :
  0 < RemoteDesktopServer._port s < 65536 ->
  RemoteDesktopServer.ExecuteCommand net_start command response responseSize s
  = RemoteDesktopServer.Returned ret response' s' ->
  0 < RemoteDesktopServer._port s' < 65536.
Proof.
  intros Hport. unfold RemoteDesktopServer.ExecuteCommand.
  destruct command as [text|]; [|now intros [= _ _ <-]].
  destruct response as [buf|]; [|now intros [= _ _ <-]].
  destruct (responseSize <=? 0); [now intros [= _ _ <-]|].
  destruct (RemoteDesktopServer.command_result net_start (c_str text) s)
    as [[[result s1]|]|] eqn:Hres; [|discriminate|discriminate].
  destruct (write_at buf 0 _) as [buf1|]; [|discriminate].
  destruct (write_at buf1 _ _) as [buf2|]; [|discriminate].
  intros [= _ _ <-].
  destruct (command_result_port _ _ _ _ _ Hres) as [Heq|Hin]; [rewrite Heq|]; assumption.
Qed.

Lemma ExecuteCommand_keeps_port_range_witness :
  0 < RemoteDesktopServer._port RemoteDesktopServer.new < 65536
  /\ exists ret response' s',
      RemoteDesktopServer.ExecuteCommand (fun _ => true) (Some "setport: 70000")
        (Some (scratch 64)) 64 RemoteDesktopServer.new
      = RemoteDesktopServer.Returned ret response' s'
      /\ 0 < RemoteDesktopServer._port s' < 65536.
Proof.
  split; [split; reflexivity|].
  eexists _, _, _. split; [reflexivity|].
  eapply (ExecuteCommand_keeps_port_range (fun _ => true) (Some "setport: 70000")
            (Some (scratch 64)) 64 RemoteDesktopServer.new).
  - split; reflexivity.
  - reflexivity.
Defined.

Lemma SaveConfig_find (port : Z) (agentId : string) :
  find (quoted "port" +:+ ":") (Config.SaveConfigToJson port agentId) = Some 4%nat.
Proof. reflexivity. Qed.

Lemma SaveConfig_shape (port : Z) (agentId : string) :
  Config.SaveConfigToJson port agentId
  = config_head +:+ to_string port +:+ String ","%char (config_tail agentId).
Proof. reflexivity. Qed.

Lemma find_first_app (p : ascii -> bool) (a b : string) (k : nat) :
  find_first p (a +:+ b) (String.length a + k)
  = option_map (Nat.add (String.length a)) (find_first p b k).
Proof.
  induction a as [|c a IH].
  - change (EmptyString +:+ b) with b. cbn [String.length Nat.add].
    now destruct (find_first p b k).
  - change (String c a +:+ b) with (String c (a +:+ b)).
    cbn [String.length Nat.add find_first]. rewrite IH.
    now destruct (find_first p b k).
Qed.

Lemma substring_app_skip (a b : string) (m : nat) :
  substring (String.length a) m (a +:+ b) = substring 0 m b.
Proof.
  induction a as [|c a IH]; [reflexivity|].
  change (String c a +:+ b) with (String c (a +:+ b)).
  cbn [String.length substring]. exact IH.
Qed.

Lemma find_first_after_digits (ds : string) (c : ascii) (rest : string) :
  forallb is_digit (list_ascii_of_string ds) = true ->
  is_digit c = false ->
  find_first (fun x => negb (is_digit x)) (ds +:+ String c rest) 0
  = Some (String.length ds).
Proof.
  intros Hds Hc. induction ds as [|d ds IH].
  - change (EmptyString +:+ String c rest) with (String c rest).
    cbn [find_first String.length]. cbv beta. now rewrite Hc.
  - cbn [list_ascii_of_string forallb] in Hds. apply andb_true_iff in Hds.
    destruct Hds as [Hd Hds].
    change (String d ds +:+ String c rest) with (String d (ds +:+ String c rest)).
    cbn [find_first String.length]. cbv beta. rewrite Hd. cbn [negb].
    now rewrite IH.
Qed.

(** X3: loading the text that SaveConfigToJson writes for a port between 0
    and INT_MAX stores exactly that port, whatever the agent id in the text
    and including ports above 65535 that the setport command refuses; the
    rest of the server state is kept and the result is true. *)
Theorem LoadConfig_SaveConfig (port : Z) (agentId : string)
    (s : RemoteDesktopServer.t) :
  0 <= port < 2 ^ 31 ->
  Config.LoadConfigFromJson (Config.SaveConfigToJson port agentId) s
  = (true, {| RemoteDesktopServer._running := RemoteDesktopServer._running s;
              RemoteDesktopServer._port := port;
              RemoteDesktopServer._sessions := RemoteDesktopServer._sessions s |}).
Proof.
  intros Hport. unfold Config.LoadConfigFromJson.
  rewrite SaveConfig_find, SaveConfig_shape.
  destruct (to_string_digits port ltac:(lia)) as (Hds & c & r & Htext & Hc).
  set (rest := to_string port +:+ String ","%char (config_tail agentId)).
  assert (Hstart : find_first is_digit (config_head +:+ rest) (4 + 6) = Some 12%nat).
  { change (config_head +:+ rest)
      with (config_head10 +:+ String ":"%char (String " "%char rest)).
    change (4 + 6)%nat with (String.length config_head10 + 0)%nat.
    rewrite find_first_app. cbn [find_first].
    change (is_digit ":") with false. change (is_digit " ") with false. cbv iota.
    subst rest. rewrite Htext.
    change (String c r +:+ ?x) with (String c (r +:+ x)).
    cbn [find_first]. rewrite Hc. reflexivity. }
  rewrite Hstart.
  assert (Hend : find_first (fun x => negb (is_digit x)) (config_head +:+ rest) 12
                 = Some (12 + String.length (to_string port))%nat).
  { change 12%nat with (String.length config_head + 0)%nat at 1.
    rewrite find_first_app. subst rest.
    rewrite find_first_after_digits by (assumption || reflexivity). reflexivity. }
  rewrite Hend.
  replace (12 + String.length (to_string port) - 12)%nat
    with (String.length (to_string port)) by lia.
  change 12%nat with (String.length config_head).
  rewrite substring_app_skip. subst rest. rewrite substring_0_app.
  pose proof (stoi_to_string port EmptyString Hport I) as Hstoi.
  rewrite append_empty_r in Hstoi. now rewrite Hstoi.
Qed.

Lemma LoadConfig_SaveConfig_witness :
  0 <= 70000 < 2 ^ 31
  /\ RemoteDesktopServer._port
       (snd (Config.LoadConfigFromJson (Config.SaveConfigToJson 70000 "agent-7")
               RemoteDesktopServer.new)) = 70000.
Proof.
  split; [lia|].
  rewrite (LoadConfig_SaveConfig 70000 "agent-7" RemoteDesktopServer.new); [reflexivity|lia].
Defined.

Lemma digit_val_range (c : ascii) (d : Z) : digit_val c = Some d -> 0 <= d <= 9.
Proof.
  unfold digit_val.
  destruct ((48 <=? nat_of_ascii c)%nat && (nat_of_ascii c <=? 57)%nat) eqn:E;
    [|discriminate].
  apply andb_true_iff in E. destruct E as [E1 E2].
  apply Nat.leb_le in E1. apply Nat.leb_le in E2. intros [= <-]. lia.
Qed.

Lemma read_digits_nonneg (s : string) (acc v : Z) (seen : bool) :
  0 <= acc -> read_digits s acc seen = Some v -> 0 <= v.
Proof.
  revert acc seen. induction s as [|c s IH]; intros acc seen Hacc; cbn [read_digits].
  - destruct seen; [intros [= <-]; exact Hacc|discriminate].
  - destruct (digit_val c) as [d|] eqn:Hd.
    + apply digit_val_range in Hd. apply IH. lia.
    + destruct seen; [intros [= <-]; exact Hacc|discriminate].
Qed.

Lemma stoi_digit_start_nonneg (c : ascii) (r : string) (v : Z) :
  is_digit c = true -> stoi (String c r) = Some v -> 0 <= v < 2 ^ 31.
Proof.
  intros Hc. destruct (digit_char_plain c Hc) as (Hsp & Hminus & Hplus).
  unfold stoi. cbn [skip_space]. rewrite Hsp, Hminus, Hplus.
  destruct (read_digits (String c r) 0 false) as [v0|] eqn:Hread; [|discriminate].
  apply read_digits_nonneg in Hread; [|lia].
  destruct ((- 2 ^ 31 <=? v0) && (v0 <? 2 ^ 31)) eqn:Hrange; [|discriminate].
  apply andb_true_iff in Hrange. destruct Hrange as [_ Hlt]. apply Z.ltb_lt in Hlt.
  intros [= <-]. lia.
Qed.

Lemma find_first_sat (p : ascii -> bool) (s : string) (pos i : nat) :
  find_first p s pos = Some i ->
  exists c, String.get i s = Some c /\ p c = true.
Proof.
  revert pos i. induction s as [|c s IH]; intros pos i; cbn [find_first]; [discriminate|].
  destruct pos as [|pos].
  - destruct (p c) eqn:Hp.
    + intros [= <-]. now exists c.
    + destruct (find_first p s 0) as [j|] eqn:Hj; [|discriminate].
      intros [= <-]. cbn [String.get]. now apply (IH 0%nat).
  - destruct (find_first p s pos) as [j|] eqn:Hj; [|discriminate].
    intros [= <-]. cbn [String.get]. now apply (IH pos).
Qed.

Lemma substring_at_get (s : string) (i m : nat) (c : ascii) :
  String.get i s = Some c ->
  substring i m s = EmptyString \/ exists r, substring i m s = String c r.
Proof.
  revert i. induction s as [|d s IH]; intros i; [destruct i; discriminate|].
  destruct i as [|i]; cbn [String.get substring].
  - intros [= ->]. destruct m; [now left|right; eauto].
  - apply IH.
Qed.

Lemma stoi_empty : stoi EmptyString = None.
Proof. reflexivity. Qed.

(** X4: LoadConfigFromJson returns true on every text; it never touches
    the running flag or the session table, and the port afterwards is the
    old one or a number between 0 and INT_MAX (there is no check against
    65535). *)
Theorem LoadConfigFromJson_effect (jsonConfig : string) (s : RemoteDesktopServer.t) :
  fst (Config.LoadConfigFromJson jsonConfig s) = true
  /\ RemoteDesktopServer._running (snd (Config.LoadConfigFromJson jsonConfig s))
     = RemoteDesktopServer._running s
  /\ RemoteDesktopServer._sessions (snd (Config.LoadConfigFromJson jsonConfig s))
     = RemoteDesktopServer._sessions s
  /\ (RemoteDesktopServer._port (snd (Config.LoadConfigFromJson jsonConfig s))
      = RemoteDesktopServer._port s
      \/ 0 <= RemoteDesktopServer._port (snd (Config.LoadConfigFromJson jsonConfig s))
         < 2 ^ 31).
Proof.
  unfold Config.LoadConfigFromJson.
  destruct (find _ jsonConfig) as [portPos|]; [|cbn; auto].
  destruct (find_first is_digit jsonConfig (portPos + 6)) as [valueStart|] eqn:Hstart;
    [|cbn; auto].
  destruct (find_first _ jsonConfig valueStart) as [valueEnd|]; [|cbn; auto].
  destruct (stoi _) as [port|] eqn:Hstoi; [|cbn; auto].
  cbn [fst snd RemoteDesktopServer._running RemoteDesktopServer._sessions
       RemoteDesktopServer._port].
  repeat split. right.
  destruct (find_first_sat _ _ _ _ Hstart) as (c & Hget & Hc).
  destruct (substring_at_get jsonConfig valueStart (valueEnd - valueStart) c Hget)
    as [Hempty|[r Hr]].
  - rewrite Hempty, stoi_empty in Hstoi. discriminate.
  - rewrite Hr in Hstoi. now apply (stoi_digit_start_nonneg c r).
Qed.

Lemma find_first_none_digits (ds : string) :
  forallb is_digit (list_ascii_of_string ds) = true ->
  find_first (fun x => negb (is_digit x)) ds 0 = None.
Proof.
  induction ds as [|d ds IH]; [reflexivity|].
  cbn [list_ascii_of_string forallb find_first]. intros Hds.
  apply andb_true_iff in Hds. destruct Hds as [Hd Hds].
  cbv beta. rewrite Hd. cbn [negb]. now rewrite IH.
Qed.

(** X5: a port whose digits run to the very end of the text is not
    stored: with nothing after the number the server state is unchanged. *)
Theorem LoadConfig_port_at_end_ignored (before : string) (n : Z)
    (s : RemoteDesktopServer.t) :
  0 <= n ->
  find (quoted "port" +:+ ":") (before +:+ quoted "port" +:+ ":" +:+ to_string n)
  = Some (String.length before) ->
  Config.LoadConfigFromJson (before +:+ quoted "port" +:+ ":" +:+ to_string n) s
  = (true, s).
Proof.
  intros Hn Hfind. unfold Config.LoadConfigFromJson. rewrite Hfind.
  destruct (to_string_digits n Hn) as (Hds & c & r & Htext & Hc).
  assert (Hstart : find_first is_digit
                     (before +:+ quoted "port" +:+ ":" +:+ to_string n)
                     (String.length before + 6)
                   = Some (String.length before + 7)%nat).
  { rewrite find_first_app.
    change (quoted "port" +:+ ":" +:+ to_string n)
      with ((dq +:+ "port") +:+ String "034"%char (String ":"%char (to_string n))).
    change 6%nat with (String.length (dq +:+ "port") + 1)%nat.
    rewrite find_first_app. cbn [find_first].
    change (is_digit ":") with false. cbv iota.
    rewrite Htext. cbn [find_first]. rewrite Hc. reflexivity. }
  rewrite Hstart.
  assert (Hend : find_first (fun x => negb (is_digit x))
                   (before +:+ quoted "port" +:+ ":" +:+ to_string n)
                   (String.length before + 7) = None).
  { rewrite find_first_app.
    change (quoted "port" +:+ ":" +:+ to_string n)
      with ((quoted "port" +:+ ":") +:+ to_string n).
    change 7%nat with (String.length (quoted "port" +:+ ":") + 0)%nat.
    rewrite find_first_app, find_first_none_digits by assumption. reflexivity. }
  now rewrite Hend.
Qed.

Lemma LoadConfig_port_at_end_ignored_witness :
  0 <= 7000
  /\ Config.LoadConfigFromJson ("{" +:+ quoted "port" +:+ ":" +:+ to_string 7000)
       RemoteDesktopServer.new
     = (true, RemoteDesktopServer.new).
Proof.
  split; [lia|].
  apply (LoadConfig_port_at_end_ignored "{" 7000 RemoteDesktopServer.new); [lia|reflexivity].
Defined.

(** ** Message identifiers and replies *)

Lemma to_string_inj (a b : Z) : 0 <= a -> 0 <= b -> to_string a = to_string b -> a = b.
Proof.
  intros Ha Hb Heq.
  pose proof (read_digits_to_string a EmptyString Ha I) as Hra.
  pose proof (read_digits_to_string b EmptyString Hb I) as Hrb.
  rewrite Heq in Hra. congruence.
Qed.

(** X6: two identifiers produced from different counter values are
    different, as long as the counter has not wrapped around its [w] bits:
    within one run of the counter no message id repeats. *)
Theorem GenerateUniqueId_distinct (w c1 c2 : Z) :
  0 <= c1 -> c1 < c2 -> c2 < 2 ^ w - 1 ->
  fst (MessageHelpers.GenerateUniqueId w c1) <> fst (MessageHelpers.GenerateUniqueId w c2).
Proof.
  intros H1 H12 H2. unfold MessageHelpers.GenerateUniqueId. cbn [fst].
  rewrite !wrap_small by lia. intros Heq.
  apply to_string_inj in Heq; lia.
Qed.

Lemma GenerateUniqueId_distinct_witness :
  0 <= 0 /\ 0 < 41 /\ 41 < 2 ^ 64 - 1
  /\ fst (MessageHelpers.GenerateUniqueId 64 0)
     <> fst (MessageHelpers.GenerateUniqueId 64 41).
Proof.
  split; [lia|]. split; [lia|]. split; [lia|].
  apply (GenerateUniqueId_distinct 64 0 41); lia.
Defined.

(** X7: the reply built for a request goes back to the requester and
    carries the request id as correlation id; the reply to a request that
    was broadcast (empty target) has an empty source, and SendMessage
    refuses it on every broker, leaving the broker unchanged. *)
Theorem CreateResponse_routing (w : Z) (request : IPC.Message) (text : string)
    (counter : Z) (b : IPC.IPCBroker) :
  let reply := fst (MessageHelpers.CreateResponse w request text counter) in
  IPC.targetModule reply = IPC.sourceModule request
  /\ IPC.sourceModule reply = IPC.targetModule request
  /\ IPC.correlationId reply = IPC.id request
  /\ IPC.type reply = IPC.RESPONSE
  /\ IPC.payload reply = text
  /\ (IPC.targetModule request = "" -> IPC.SendMessage reply b = (false, b)).
Proof.
  cbn. repeat split. intros Hbroadcast. unfold IPC.SendMessage.
  cbn [IPC.sourceModule]. rewrite Hbroadcast.
  destruct (negb (IPC._running b)); reflexivity.
Qed.

Lemma CreateResponse_routing_witness :
  let request := message_from_to "AgentCore" "" in
  let reply := fst (MessageHelpers.CreateResponse 64 request "Command processed" 7) in
  IPC.targetModule request = ""
  /\ IPC.SendMessage reply broadcast_from_outside = (false, broadcast_from_outside).
Proof.
  split; [reflexivity|].
  apply (CreateResponse_routing 64 (message_from_to "AgentCore" "") "Command processed" 7
           broadcast_from_outside).
  reflexivity.
Defined.

(** ** Broker: registry, handlers, life cycle *)

Lemma erase_first_not_in (x : string) (l : list string) :
  NoDup l -> x ∉ IPC.erase_first x l.
Proof.
  induction l as [|y l IH]; cbn [IPC.erase_first]; intros Hnd.
  - apply not_elem_of_nil.
  - apply NoDup_cons in Hnd. destruct Hnd as [Hy Hnd].
    destruct (decide (y = x)) as [->|Hne]; [assumption|].
    intros Hin. apply elem_of_cons in Hin. destruct Hin as [Heq|Hin]; [congruence|].
    now apply IH.
Qed.

(** X8: registering a name registers it; registering it again is refused
    and changes nothing; and on a broker reached through its methods,
    unregistering it succeeds, leaves it unregistered, and it can then be
    registered anew. *)
Theorem RegisterModule_registry (name : string) (b : IPC.IPCBroker) :
  reachable b ->
  let b1 := snd (IPC.RegisterModule name b) in
  let b2 := snd (IPC.UnregisterModule name b1) in
  IPC.IsModuleRegistered name b1 = true
  /\ IPC.RegisterModule name b1 = (false, b1)
  /\ fst (IPC.UnregisterModule name b1) = true
  /\ IPC.IsModuleRegistered name b2 = false
  /\ fst (IPC.RegisterModule name b2) = true.
Proof.
  intros Hreach b1 b2.
  assert (Hreg : IPC.IsModuleRegistered name b1 = true).
  { subst b1. unfold IPC.RegisterModule.
    destruct (IPC.IsModuleRegistered name b) eqn:E; cbn [snd]; [exact E|].
    unfold IPC.IsModuleRegistered. cbn [IPC._registeredModules].
    apply bool_decide_eq_true_2, elem_of_app. right. now apply list_elem_of_singleton. }
  assert (Hnd : NoDup (IPC._registeredModules b1))
    by (subst b1; now apply reachable_NoDup, reach_RegisterModule).
  assert (Hun : IPC.IsModuleRegistered name b2 = false).
  { subst b2. unfold IPC.UnregisterModule. rewrite Hreg. cbn [snd].
    unfold IPC.IsModuleRegistered. cbn [IPC._registeredModules].
    apply bool_decide_eq_false_2. now apply erase_first_not_in. }
  split; [exact Hreg|].
  split; [unfold IPC.RegisterModule; now rewrite Hreg|].
  split; [unfold IPC.UnregisterModule; now rewrite Hreg|].
  split; [exact Hun|].
  unfold IPC.RegisterModule. now rewrite Hun.
Qed.

Lemma RegisterModule_registry_witness :
  reachable IPC.new
  /\ IPC.RegisterModule "A" (snd (IPC.RegisterModule "A" IPC.new))
     = (false, snd (IPC.RegisterModule "A" IPC.new)).
Proof.
  split; [apply reach_new|].
  apply (RegisterModule_registry "A" IPC.new). apply reach_new.
Defined.

(** X9: unregistering a registered name also drops every handler subscribed
    under it and no handler of any other name, so a later message for that
    name reaches nobody; unregistering a name that is not registered
    changes nothing, handlers subscribed under it included. *)
Theorem UnregisterModule_handlers (name : string) (b : IPC.IPCBroker) :
  (IPC.IsModuleRegistered name b = true ->
   let b' := snd (IPC.UnregisterModule name b) in
   IPC.handlers_of b' name = []
   /\ (forall other, other <> name -> IPC.handlers_of b' other = IPC.handlers_of b other)
   /\ (forall m, IPC.targetModule m = name -> name <> "" -> IPC.dispatch b' m = ([], true)))
  /\ (IPC.IsModuleRegistered name b = false -> IPC.UnregisterModule name b = (false, b)).
Proof.
  split.
  - intros Hreg b'. subst b'. unfold IPC.UnregisterModule. rewrite Hreg. cbn [snd].
    assert (Hgone : forall b0, IPC._handlers b0 = delete name (IPC._handlers b) ->
                               IPC.handlers_of b0 name = []).
    { intros b0 Hb0. unfold IPC.handlers_of. now rewrite Hb0, lookup_delete_eq. }
    split; [now apply Hgone|]. split.
    + intros other Hne. unfold IPC.handlers_of. cbn [IPC._handlers].
      now rewrite lookup_delete_ne by congruence.
    + intros m Htarget Hname. unfold IPC.dispatch, IPC.targetModules.
      rewrite Htarget. destruct (decide (name = "")); [contradiction|].
      cbn [IPC.call_targets]. now rewrite Hgone.
  - intros Hnot. unfold IPC.UnregisterModule. now rewrite Hnot.
Qed.

Lemma UnregisterModule_handlers_witness :
  IPC.IsModuleRegistered "X" handler_without_module = false
  /\ IPC.UnregisterModule "X" handler_without_module = (false, handler_without_module)
  /\ IPC.handlers_of handler_without_module "X" = [quiet_handler].
Proof.
  split; [reflexivity|]. split; [|reflexivity].
  apply (proj2 (UnregisterModule_handlers "X" handler_without_module)). reflexivity.
Defined.

Lemma dispatch_queue_irrelevant (b b' : IPC.IPCBroker) (m : IPC.Message) :
  IPC._handlers b' = IPC._handlers b ->
  IPC._registeredModules b' = IPC._registeredModules b ->
  IPC.dispatch b' m = IPC.dispatch b m.
Proof.
  intros Hh Hm. unfold IPC.dispatch, IPC.targetModules. rewrite Hm.
  generalize (if decide (IPC.targetModule m = "")
              then filter (fun t => t <> IPC.sourceModule m) (IPC._registeredModules b)
              else [IPC.targetModule m]).
  assert (Hho : forall t, IPC.handlers_of b' t = IPC.handlers_of b t)
    by (intros t; unfold IPC.handlers_of; now rewrite Hh).
  intros ts. induction ts as [|t ts IH]; [reflexivity|].
  cbn [IPC.call_targets]. rewrite Hho, IH. reflexivity.
Qed.

Lemma send_all_accepted (ms : list IPC.Message) (b : IPC.IPCBroker) :
  IPC._running b = true ->
  send_all ms b = with_queue b (IPC._messageQueue b ++ accepted ms).
Proof.
  revert b. induction ms as [|m ms IH]; intros b Hrun.
  - unfold accepted. cbn [send_all fold_left List.filter]. rewrite app_nil_r.
    now destruct b.
  - unfold send_all in *. cbn [fold_left].
    assert (Hsend : snd (IPC.SendMessage m b)
      = with_queue b (IPC._messageQueue b ++ accepted [m])).
    { unfold IPC.SendMessage, accepted.
      replace (negb (IPC._running b)) with false by (now rewrite Hrun).
      cbn [List.filter].
      destruct (decide (IPC.sourceModule m = "")) as [He|Hne].
      - rewrite He. cbn. rewrite app_nil_r. now destruct b.
      - replace (String.eqb (IPC.sourceModule m) "") with false
          by (symmetry; now apply String.eqb_neq).
        reflexivity. }
    rewrite Hsend, IH by exact Hrun.
    unfold with_queue, accepted.
    cbn [IPC._running IPC._processingThread IPC._messageQueue IPC._handlers
         IPC._registeredModules IPC.threads_spawned List.filter].
    rewrite <- app_assoc.
    now destruct (negb (String.eqb (IPC.sourceModule m) "")).
Qed.

Lemma accepted_all (ms : list IPC.Message) :
  (forall m, m ∈ ms -> IPC.sourceModule m <> "") -> accepted ms = ms.
Proof.
  unfold accepted. induction ms as [|m ms IH]; intros Hsrc; [reflexivity|].
  cbn [List.filter].
  replace (String.eqb (IPC.sourceModule m) "") with false
    by (symmetry; apply String.eqb_neq, Hsrc, elem_of_cons; now left).
  cbn [negb]. rewrite IH; [reflexivity|].
  intros m' Hm'. apply Hsrc, elem_of_cons. now right.
Qed.

Lemma accepted_app (l1 l2 : list IPC.Message) :
  accepted (l1 ++ l2) = accepted l1 ++ accepted l2.
Proof. apply List.filter_app. Qed.

Lemma send_all_app (l1 l2 : list IPC.Message) (b : IPC.IPCBroker) :
  send_all (l1 ++ l2) b = send_all l2 (send_all l1 b).
Proof. unfold send_all. apply fold_left_app. Qed.

Lemma after_calls_sending (effects : Effects) (sends : Sends) (cs : list IPC.Call)
    (b : IPC.IPCBroker) :
  only_sends effects sends cs ->
  after_calls effects cs b = send_all (sent_by sends cs) b.
Proof.
  unfold after_calls, sent_by. revert b.
  induction cs as [|c cs IH]; intros b Honly; [reflexivity|].
  cbn [fold_left flat_map]. rewrite send_all_app.
  rewrite (Honly c) by (apply elem_of_cons; now left).
  apply IH. intros c' Hc'. apply Honly, elem_of_cons. now right.
Qed.

Lemma ProcessMessages_run_queue (effects : Effects) (sends : Sends)
    (b : IPC.IPCBroker) (ms : list IPC.Message) :
  IPC._running b = true ->
  (forall m, m ∈ ms -> handlers_caught b (IPC.targetModules b m) m) ->
  only_sends effects sends (flat_map (fun m => fst (IPC.dispatch b m)) ms) ->
  forall waiting,
    ProcessMessages_run effects (length ms) (with_queue b (ms ++ waiting))
    = (with_queue b
         (waiting
          ++ accepted (sent_by sends (flat_map (fun m => fst (IPC.dispatch b m)) ms))),
       flat_map (fun m => fst (IPC.dispatch b m)) ms, true).
Proof.
  intros Hrun. induction ms as [|m ms IH]; intros Hok Honly waiting.
  - cbn [length ProcessMessages_run flat_map app]. unfold sent_by, accepted.
    cbn [flat_map List.filter]. now rewrite app_nil_r.
  - cbn [length ProcessMessages_run flat_map] in *.
    unfold ProcessMessages_iteration, IPC.ProcessMessages_step.
    cbn [with_queue IPC._running IPC._messageQueue IPC._processingThread IPC._handlers
         IPC._registeredModules IPC.threads_spawned app].
    replace (negb (IPC._running b)) with false by (now rewrite Hrun).
    rewrite (dispatch_queue_irrelevant b) by reflexivity.
    assert (Hm : IPC.dispatch b m
                 = (flat_map (fun t => calls_to b t m) (IPC.targetModules b m), true)).
    { unfold IPC.dispatch. apply call_targets_caught, Hok, elem_of_cons. now left. }
    rewrite Hm in *. cbn [fst] in *.
    set (cs := flat_map (fun t => calls_to b t m) (IPC.targetModules b m)) in *.
    rewrite (after_calls_sending effects sends cs)
      by (intros c Hc; apply Honly, elem_of_app; now left).
    rewrite send_all_accepted by exact Hrun.
    cbn [IPC._running IPC._messageQueue IPC._processingThread IPC._handlers
         IPC._registeredModules IPC.threads_spawned].
    change {| IPC._running := IPC._running b;
              IPC._processingThread := IPC._processingThread b;
              IPC._messageQueue := ms ++ waiting; IPC._handlers := IPC._handlers b;
              IPC._registeredModules := IPC._registeredModules b;
              IPC.threads_spawned := IPC.threads_spawned b |}
      with (with_queue b (ms ++ waiting)).
    assert (Hq : with_queue (with_queue b (ms ++ waiting))
                   ((ms ++ waiting) ++ accepted (sent_by sends cs))
                 = with_queue b (ms ++ (waiting ++ accepted (sent_by sends cs))))
      by (unfold with_queue; cbn; now rewrite <- app_assoc).
    rewrite Hq, IH.
    + unfold sent_by. rewrite flat_map_app, accepted_app, <- app_assoc. reflexivity.
    + intros m' Hm'. apply Hok, elem_of_cons. now right.
    + intros c Hc. apply Honly, elem_of_app. now right.
Qed.

(** X10: messages are handled in the order they were sent, each exactly
    once, also when handlers send messages while they are called.  On a
    running broker with an empty queue, whose handlers throw nothing the
    loop does not catch and do nothing to the broker but call SendMessage,
    sending a list of messages with non-empty sources and letting the
    worker loop run once per message makes exactly the calls of
    dispatching them one after the other; the messages those calls handed
    to SendMessage and that it took wait in the queue afterwards, in the
    order of the calls, and nothing else of the broker has changed.  The
    queue is empty again when the handlers sent nothing. *)
Theorem ProcessMessages_fifo (effects : Effects) (sends : Sends) (b : IPC.IPCBroker)
    (ms : list IPC.Message) :
  IPC._running b = true ->
  IPC._messageQueue b = [] ->
  (forall m, m ∈ ms -> IPC.sourceModule m <> "") ->
  (forall m, m ∈ ms -> handlers_caught b (IPC.targetModules b m) m) ->
  let calls := flat_map (fun m => fst (IPC.dispatch b m)) ms in
  only_sends effects sends calls ->
  ProcessMessages_run effects (length ms) (send_all ms b)
  = (with_queue b (accepted (sent_by sends calls)), calls, true)
  /\ ((forall c, c ∈ calls -> sends c = []) ->
      ProcessMessages_run effects (length ms) (send_all ms b) = (b, calls, true)).
Proof.
  intros Hrun Hq Hsrc Hok calls Honly.
  assert (Hgen : ProcessMessages_run effects (length ms) (send_all ms b)
                 = (with_queue b (accepted (sent_by sends calls)), calls, true)).
  { rewrite send_all_accepted, Hq, accepted_all by assumption. cbn [app].
    rewrite <- (app_nil_r ms) at 2.
    now rewrite (ProcessMessages_run_queue effects sends). }
  split; [exact Hgen|].
  intros Hsilent. rewrite Hgen.
  assert (Hnone : sent_by sends calls = []).
  { unfold sent_by. clear Hgen Honly. induction calls as [|c cs IH]; [reflexivity|].
    cbn [flat_map]. rewrite (Hsilent c) by (apply elem_of_cons; now left).
    apply IH. intros c' Hc'. apply Hsilent, elem_of_cons. now right. }
  rewrite Hnone. unfold accepted, with_queue. cbn [List.filter].
  rewrite <- Hq. now destruct b.
Qed.

Lemma started_with_B_caught (m : IPC.Message) (names : list string) :
  handlers_caught started_with_B names m.
Proof.
  intros name h _ Hh. unfold IPC.handlers_of in Hh.
  change (IPC._handlers started_with_B)
    with (<["B" := [quiet_handler]]> (∅ : gmap string (list IPC.MessageHandler))) in Hh.
  destruct (decide (name = "B")) as [->|Hne].
  - rewrite lookup_insert_eq in Hh. cbn in Hh.
    apply list_elem_of_singleton in Hh. now subst.
  - rewrite lookup_insert_ne, lookup_empty in Hh by congruence.
    cbn in Hh. now apply elem_of_nil in Hh.
Qed.

Lemma ProcessMessages_fifo_witness :
  IPC._running started_with_B = true
  /\ IPC._messageQueue started_with_B = []
  /\ ProcessMessages_run (sending replying) 2
       (send_all [message_from_to "A" "B"; message_from_to "C" EmptyString]
          started_with_B)
     = (with_queue started_with_B [message_from_to "B" "A"],
        [call_of "B" (message_from_to "A" "B") quiet_handler;
         call_of "B" (message_from_to "C" EmptyString) quiet_handler],
        true).
Proof.
  split; [reflexivity|]. split; [reflexivity|].
  refine (eq_trans (proj1 (ProcessMessages_fifo (sending replying) replying
                             started_with_B
                             [message_from_to "A" "B"; message_from_to "C" EmptyString]
                             eq_refl eq_refl _ _ _)) eq_refl).
  - intros m Hm. apply elem_of_cons in Hm. destruct Hm as [->|Hm]; [discriminate|].
    apply list_elem_of_singleton in Hm. subst. discriminate.
  - intros m _. apply started_with_B_caught.
  - intros c _ b. reflexivity.
Defined.

(** X11: a handler that throws something not derived from [std::exception]
    ends the dispatch of a message sent to its name: the handlers subscribed
    before it were called, it was called, the handlers subscribed after it
    are not, and the worker thread does not survive.  A handler that throws
    a [std::exception] instead lets the handlers after it be called. *)
Theorem dispatch_uncaught_exception (b : IPC.IPCBroker) (m : IPC.Message)
    (hs1 hs2 : list IPC.MessageHandler) (h : IPC.MessageHandler) :
  IPC.targetModule m <> "" ->
  IPC.handlers_of b (IPC.targetModule m) = hs1 ++ h :: hs2 ->
  (forall h', h' ∈ hs1 -> h' m <> IPC.ThrowsOther) ->
  (h m = IPC.ThrowsOther ->
   IPC.dispatch b m
   = (map (call_of (IPC.targetModule m) m) (hs1 ++ [h]), false))
  /\ (h m = IPC.ThrowsStdException ->
      (forall h', h' ∈ hs2 -> h' m <> IPC.ThrowsOther) ->
      IPC.dispatch b m
      = (map (call_of (IPC.targetModule m) m) (hs1 ++ h :: hs2), true)).
Proof.
  intros Htarget Hhs Hbefore.
  assert (Hts : IPC.targetModules b m = [IPC.targetModule m]).
  { unfold IPC.targetModules. now destruct (decide (IPC.targetModule m = "")). }
  unfold IPC.dispatch. rewrite Hts. cbn [IPC.call_targets]. rewrite Hhs.
  split.
  - intros Hrogue.
    assert (Hcalls : IPC.call_handlers (IPC.targetModule m) (hs1 ++ h :: hs2) m
                     = (map (call_of (IPC.targetModule m) m) (hs1 ++ [h]), false)).
    { clear Hhs. induction hs1 as [|h1 hs1 IH].
      - cbn [app IPC.call_handlers map]. now rewrite Hrogue.
      - cbn [app IPC.call_handlers map].
        rewrite IH by (intros h' Hh'; apply Hbefore, elem_of_cons; now right).
        assert (h1 m <> IPC.ThrowsOther) by (apply Hbefore, elem_of_cons; now left).
        destruct (h1 m); [reflexivity|reflexivity|congruence]. }
    now rewrite Hcalls.
  - intros Hstd Hafter.
    rewrite call_handlers_caught.
    + now rewrite app_nil_r.
    + intros h' Hh'. apply elem_of_app in Hh'. destruct Hh' as [Hh'|Hh'];
        [now apply Hbefore|].
      apply elem_of_cons in Hh'. destruct Hh' as [->|Hh']; [congruence|now apply Hafter].
Qed.

Lemma dispatch_uncaught_exception_witness :
  let b := snd (IPC.RegisterHandler "B" (Some quiet_handler)
             (snd (IPC.RegisterHandler "B" (Some rogue_handler) started_with_B))) in
  let m := message_from_to "A" "B" in
  IPC.handlers_of b "B" = [quiet_handler] ++ rogue_handler :: [quiet_handler]
  /\ IPC.dispatch b m = (map (call_of "B" m) ([quiet_handler] ++ [rogue_handler]), false).
Proof.
  split; [reflexivity|].
  apply (proj1 (dispatch_uncaught_exception
    (snd (IPC.RegisterHandler "B" (Some quiet_handler)
       (snd (IPC.RegisterHandler "B" (Some rogue_handler) started_with_B))))
    (message_from_to "A" "B") [quiet_handler] [quiet_handler] rogue_handler
    ltac:(discriminate) eq_refl
    ltac:(intros h' Hh'; apply list_elem_of_singleton in Hh'; subst; discriminate))).
  reflexivity.
Defined.

Lemma reachable_thread (b : IPC.IPCBroker) :
  reachable b -> IPC._processingThread b = IPC._running b.
Proof.
  induction 1 as [ | b r b' _ IH HStart | b _ IH | b name _ IH | b name _ IH
                 | b message _ IH | b name handler _ IH | b b' calls alive _ IH Hstep ].
  - reflexivity.
  - unfold IPC.Start in HStart. destruct (IPC._running b) eqn:Hrun.
    + inversion HStart; subst. congruence.
    + rewrite IH in HStart. cbn in HStart. now inversion HStart; subst.
  - unfold IPC.Stop. destruct (IPC._running b) eqn:Hrun; cbn [negb]; [reflexivity|].
    congruence.
  - unfold IPC.RegisterModule. destruct (IPC.IsModuleRegistered name b); exact IH.
  - unfold IPC.UnregisterModule. destruct (IPC.IsModuleRegistered name b); exact IH.
  - unfold IPC.SendMessage. destruct (negb (IPC._running b)); [exact IH|].
    destruct (decide (IPC.sourceModule message = "")); exact IH.
  - unfold IPC.RegisterHandler. destruct handler; exact IH.
  - unfold IPC.ProcessMessages_step in Hstep.
    destruct (negb (IPC._running b)); [discriminate|].
    destruct (IPC._messageQueue b) as [|message rest]; [discriminate|].
    destruct (IPC.dispatch _ message) as [cs al].
    now inversion Hstep; subst.
Qed.

(** X12: on a broker reached through its methods the processing-thread
    handle is attached exactly while the broker runs, so Start never
    assigns to a joinable handle: it always returns true with the broker
    running, creating one thread if the broker was stopped and none if it
    was running. *)
Theorem reachable_Start_succeeds (b : IPC.IPCBroker) :
  reachable b ->
  IPC._processingThread b = IPC._running b
  /\ exists b', IPC.Start b = Done (true, b')
                /\ IPC._running b' = true
                /\ IPC.threads_spawned b'
                   = (IPC.threads_spawned b + (if IPC._running b then 0 else 1))%nat.
Proof.
  intros Hreach. pose proof (reachable_thread b Hreach) as Hth.
  split; [exact Hth|]. unfold IPC.Start.
  destruct (IPC._running b) eqn:Hrun.
  - exists b. repeat split; [exact Hrun|lia].
  - rewrite Hth. cbn [thread_assign]. eexists. split; [reflexivity|].
    cbn [IPC._running IPC.threads_spawned]. split; [reflexivity|lia].
Qed.

Lemma reachable_Start_succeeds_witness :
  reachable (IPC.Stop started_with_B)
  /\ exists b', IPC.Start (IPC.Stop started_with_B) = Done (true, b')
                /\ IPC._running b' = true
                /\ IPC.threads_spawned b' = 2%nat.
Proof.
  assert (Hreach : reachable (IPC.Stop started_with_B)).
  { apply reach_Stop. unfold started_with_B.
    cbn [IPC.Start IPC._running IPC.new thread_assign IPC._processingThread].
    apply reach_RegisterHandler, reach_RegisterModule.
    eapply reach_Start; [apply reach_new|reflexivity]. }
  split; [exact Hreach|].
  destruct (proj2 (reachable_Start_succeeds (IPC.Stop started_with_B) Hreach))
    as (b' & HStart & Hrun & Hcount).
  exists b'. repeat split; assumption.
Defined.

(** X13: Stop forgets everything a running broker knew: afterwards no name
    is registered, no handler is subscribed, the queue is empty and every
    SendMessage is refused; a broker started again after Stop starts with
    no module and no handler, so modules have to register anew. *)
Theorem Stop_forgets_registrations (b : IPC.IPCBroker) :
  IPC._running b = true ->
  let b' := IPC.Stop b in
  IPC._messageQueue b' = []
  /\ (forall name, IPC.IsModuleRegistered name b' = false
                   /\ IPC.handlers_of b' name = [])
  /\ (forall m, IPC.SendMessage m b' = (false, b'))
  /\ (forall r b2, IPC.Start b' = Done (r, b2) ->
        IPC._messageQueue b2 = []
        /\ forall name, IPC.IsModuleRegistered name b2 = false
                        /\ IPC.handlers_of b2 name = []).
Proof.
  intros Hrun b'. subst b'. unfold IPC.Stop. rewrite Hrun. cbn [negb].
  split; [reflexivity|]. split; [|split].
  - intros name. split; [reflexivity|].
    unfold IPC.handlers_of. cbn [IPC._handlers]. now rewrite lookup_empty.
  - reflexivity.
  - intros r b2. cbn. intros [= _ <-]. split; [reflexivity|].
    intros name. split; [reflexivity|].
    unfold IPC.handlers_of. cbn [IPC._handlers]. now rewrite lookup_empty.
Qed.

Lemma Stop_forgets_registrations_witness :
  IPC._running started_with_B = true
  /\ IPC.IsModuleRegistered "B" started_with_B = true
  /\ IPC.IsModuleRegistered "B" (IPC.Stop started_with_B) = false
  /\ IPC.handlers_of (IPC.Stop started_with_B) "B" = [].
Proof.
  split; [reflexivity|]. split; [reflexivity|].
  apply (proj1 (proj2 (Stop_forgets_registrations started_with_B eq_refl)) "B").
Defined.

(** ** Session after the peer has gone *)

(** X14: once the input loop has seen the peer disconnect (it clears the
    running flag itself) while a loop thread handle is still attached, Stop
    does nothing, so the threads are never joined and the socket is never
    closed; a new Start assigns to a joinable handle and destroying the
    session destroys one: both end in [std::terminate]. *)
Theorem Session_after_disconnect (s : Session.t) :
  Session._running s = false ->
  Session._screenThread s = true \/ Session._inputThread s = true ->
  Session.Stop s = s
  /\ Session.Start s = Terminate
  /\ Session_destroy s = Terminate.
Proof.
  intros Hrun Hth.
  assert (HStop : Session.Stop s = s) by (unfold Session.Stop; now rewrite Hrun).
  split; [exact HStop|]. split.
  - unfold Session.Start. rewrite Hrun.
    destruct Hth as [Hth|Hth]; rewrite Hth; cbn [thread_assign]; [reflexivity|].
    now destruct (Session._screenThread s).
  - unfold Session_destroy. rewrite HStop.
    destruct Hth as [Hth|Hth]; rewrite Hth; [now rewrite orb_true_r|reflexivity].
Qed.

Lemma Session_after_disconnect_witness :
  exists s1, Session.Start (Session.new 7) = Done (true, s1)
    /\ Session_destroy s1 = Done tt
    /\ Session.socket_open (Session.Stop (Session.peer_disconnected s1)) = true
    /\ Session.Start (Session.peer_disconnected s1) = Terminate
    /\ Session_destroy (Session.peer_disconnected s1) = Terminate.
Proof.
  eexists. split; [reflexivity|]. split; [reflexivity|]. split; [reflexivity|].
  apply (proj2 (Session_after_disconnect
    (Session.peer_disconnected
       {| Session._clientSocket := 7; Session._running := true;
          Session._screenThread := true; Session._inputThread := true;
          Session.socket_open := true; Session.threads_spawned := 2 |})
    eq_refl (or_introl eq_refl))).
Defined.

(** ** Wire codec: more on the decoder and the encoder *)

Lemma declared_total_min (data : list byte) : 17 <= declared_total data.
Proof.
  pose proof (declared_lengths_nonneg data) as (Hs & Ht & Hc).
  unfold declared_total. lia.
Qed.

(** X15: on every buffer whose header declares less than 2^32 bytes in
    all, the decoder reads nothing outside the buffer: it returns the
    default-constructed message when the buffer is shorter than declared
    (a buffer of fewer than 17 bytes always is) and the frame sliced at
    the declared offsets otherwise. *)
Theorem Deserialize_below_wrap (data : list byte) :
  declared_total data < 2 ^ 32 ->
  SerializableMessage.Deserialize data
  = Got (if Z.of_nat (length data) <? declared_total data
         then SerializableMessage.empty
         else sliced data).
Proof.
  intros Hsmall. pose proof (declared_total_min data) as Hmin.
  destruct (Z.ltb_spec (Z.of_nat (length data)) (declared_total data)) as [Hlt|Hge].
  - destruct (Z.lt_ge_cases (Z.of_nat (length data)) 17) as [Hshort|Hlong].
    + now apply Deserialize_truncated.
    + now apply Deserialize_incomplete.
  - now apply Deserialize_complete.
Qed.

Lemma Deserialize_below_wrap_witness :
  let data := [x02; x00; x00; x00; x00; x05; x00; x00; x00;
               x00; x00; x00; x00; x00; x00; x00; x00; x41; x42] in
  declared_total data < 2 ^ 32
  /\ SerializableMessage.Deserialize data = Got SerializableMessage.empty.
Proof.
  split; [reflexivity|].
  apply (Deserialize_below_wrap
           [x02; x00; x00; x00; x00; x05; x00; x00; x00;
            x00; x00; x00; x00; x00; x00; x00; x00; x41; x42]).
  reflexivity.
Defined.

Lemma string_of_bytes_length (l : list byte) :
  String.length (string_of_bytes l) = length l.
Proof.
  unfold string_of_bytes, string_of_list_byte.
  induction l as [|b l IH]; [reflexivity|].
  cbn [map string_of_list_ascii String.length]. now rewrite IH.
Qed.

Lemma frame_slices (a b c extra : list byte) :
  take (length a) (drop 0 (a ++ b ++ c ++ extra)) = a
  /\ take (length b) (drop (length a) (a ++ b ++ c ++ extra)) = b
  /\ take (length c) (drop (length a + length b) (a ++ b ++ c ++ extra)) = c.
Proof.
  repeat split.
  - rewrite drop_0. apply take_app_length.
  - rewrite drop_app_length. apply take_app_length.
  - rewrite (app_assoc a b), <- length_app, drop_app_length. apply take_app_length.
Qed.

(** The decoder on the bytes of a frame followed by anything. *)
Lemma Deserialize_frame_bytes (ty ts : Z) (src tgt cnt : string) (extra : list byte) :
  0 <= ty < 256 -> 0 <= ts < 2 ^ 64 ->
  Z.of_nat (String.length src) < 2 ^ 16 ->
  Z.of_nat (String.length tgt) < 2 ^ 16 ->
  Z.of_nat (String.length cnt) < 2 ^ 32 ->
  SerializableMessage.Deserialize
    (le_bytes 1 ty ++ le_bytes 2 (Z.of_nat (String.length src))
     ++ le_bytes 2 (Z.of_nat (String.length tgt))
     ++ le_bytes 4 (Z.of_nat (String.length cnt))
     ++ le_bytes 8 ts
     ++ bytes_of_string src ++ bytes_of_string tgt ++ bytes_of_string cnt ++ extra)
  = Got {| SerializableMessage.type := ty; SerializableMessage.source := src;
           SerializableMessage.target := tgt; SerializableMessage.content := cnt;
           SerializableMessage.timestamp := ts |}.
Proof.
  intros Hty Hts Hs Ht Hc.
  set (data := le_bytes 1 ty ++ _).
  assert (Hsl : declared_sourceLen data = Z.of_nat (String.length src)).
  { change (declared_sourceLen data)
      with (le_value (le_bytes 2 (Z.of_nat (String.length src)))).
    rewrite le_value_bytes. apply Z.mod_small.
    change (256 ^ Z.of_nat 2) with (2 ^ 16). lia. }
  assert (Htl : declared_targetLen data = Z.of_nat (String.length tgt)).
  { change (declared_targetLen data)
      with (le_value (le_bytes 2 (Z.of_nat (String.length tgt)))).
    rewrite le_value_bytes. apply Z.mod_small.
    change (256 ^ Z.of_nat 2) with (2 ^ 16). lia. }
  assert (Hcl : declared_contentLen data = Z.of_nat (String.length cnt)).
  { change (declared_contentLen data)
      with (le_value (le_bytes 4 (Z.of_nat (String.length cnt)))).
    rewrite le_value_bytes. apply Z.mod_small.
    change (256 ^ Z.of_nat 4) with (2 ^ 32). lia. }
  rewrite Deserialize_complete.
  - unfold sliced. rewrite Hsl, Htl, Hcl, !Nat2Z.id.
    change (le_value (sub_bytes data 0 1)) with (le_value (le_bytes 1 ty)).
    change (le_value (sub_bytes data 9 8)) with (le_value (le_bytes 8 ts)).
    rewrite !le_value_bytes.
    rewrite (Z.mod_small ty) by (change (256 ^ Z.of_nat 1) with 256; lia).
    rewrite (Z.mod_small ts) by (change (256 ^ Z.of_nat 8) with (2 ^ 64); lia).
    unfold sub_bytes. subst data.
    cbn [le_bytes app skipn Nat.add].
    rewrite <- !bytes_of_string_length.
    destruct (frame_slices (bytes_of_string src) (bytes_of_string tgt)
                (bytes_of_string cnt) extra) as (-> & -> & ->).
    now rewrite !string_of_bytes_of_string.
  - unfold declared_total. rewrite Hsl, Htl, Hcl. subst data.
    rewrite !length_app, !bytes_of_string_length. cbn [le_bytes length]. lia.
Qed.

(** X16: bytes that follow an encoded valid frame do not disturb the
    decoder: decoding the encoding followed by any bytes gives the frame
    back, so a frame can be decoded from the front of a longer buffer. *)
Theorem Deserialize_Serialize_trailing (m : SerializableMessage.t) (extra : list byte) :
  valid_frame m ->
  SerializableMessage.Deserialize (SerializableMessage.Serialize m ++ extra) = Got m.
Proof.
  intros (Hs & Ht & Hc & Hty & Hts).
  assert (Hty' : 0 <= SerializableMessage.type m < 256).
  { unfold SerializableMessage.MessageType_defined in Hty. cbn in Hty.
    unfold SerializableMessage.CONTROL, SerializableMessage.SCREEN_DATA,
      SerializableMessage.INPUT, SerializableMessage.AUDIO, SerializableMessage.CHAT,
      SerializableMessage.FILE_TRANSFER, SerializableMessage.CLIPBOARD,
      SerializableMessage.UNDEFINED in Hty.
    intuition lia. }
  unfold SerializableMessage.size in *.
  rewrite Serialize_le. unfold SerializableMessage.size.
  rewrite !wrap_small by lia. rewrite <- !app_assoc.
  rewrite Deserialize_frame_bytes by assumption. now destruct m.
Qed.

Lemma Deserialize_Serialize_trailing_witness :
  valid_frame sample_frame
  /\ SerializableMessage.Deserialize
       (SerializableMessage.Serialize sample_frame ++ [x01; x02; x03])
     = Got sample_frame.
Proof.
  split; [exact sample_frame_valid|].
  apply (Deserialize_Serialize_trailing sample_frame [x01; x02; x03]).
  exact sample_frame_valid.
Defined.

Lemma wrap_le (w x : Z) : 0 <= w -> 0 <= x -> 0 <= wrap w x <= x.
Proof.
  intros Hw Hx. unfold wrap.
  assert (0 < 2 ^ w) by (apply Z.pow_pos_nonneg; lia).
  split; [apply Z.mod_pos_bound; lia|apply Z.mod_le; lia].
Qed.

(** X17: the encoding of any frame, valid or not, is 17 bytes longer than
    its three strings together, and the decoder accepts it without reading
    outside it; the lengths that come back are the original ones modulo
    65536 for source and target and modulo 2^32 for content, so a string
    too long for its length field comes back cut. *)
Theorem Serialize_always_decodes (m : SerializableMessage.t) :
  Z.of_nat (length (SerializableMessage.Serialize m))
  = 17 + SerializableMessage.size (SerializableMessage.source m)
    + SerializableMessage.size (SerializableMessage.target m)
    + SerializableMessage.size (SerializableMessage.content m)
  /\ exists m',
      SerializableMessage.Deserialize (SerializableMessage.Serialize m) = Got m'
      /\ SerializableMessage.size (SerializableMessage.source m')
         = wrap 16 (SerializableMessage.size (SerializableMessage.source m))
      /\ SerializableMessage.size (SerializableMessage.target m')
         = wrap 16 (SerializableMessage.size (SerializableMessage.target m))
      /\ SerializableMessage.size (SerializableMessage.content m')
         = wrap 32 (SerializableMessage.size (SerializableMessage.content m)).
Proof.
  destruct m as [ty src tgt cnt ts].
  cbn [SerializableMessage.type SerializableMessage.source SerializableMessage.target
       SerializableMessage.content SerializableMessage.timestamp].
  unfold SerializableMessage.size.
  set (sl := Z.of_nat (String.length src)).
  set (tl := Z.of_nat (String.length tgt)).
  set (cl := Z.of_nat (String.length cnt)).
  pose proof (wrap_le 16 sl ltac:(lia) ltac:(lia)) as Hsl.
  pose proof (wrap_le 16 tl ltac:(lia) ltac:(lia)) as Htl.
  pose proof (wrap_le 32 cl ltac:(lia) ltac:(lia)) as Hcl.
  set (data := SerializableMessage.Serialize _).
  assert (Hdata : data =
    le_bytes 1 ty ++ le_bytes 2 (wrap 16 sl) ++ le_bytes 2 (wrap 16 tl)
    ++ le_bytes 4 (wrap 32 cl) ++ le_bytes 8 ts
    ++ bytes_of_string src ++ bytes_of_string tgt ++ bytes_of_string cnt)
    by (subst data; now rewrite Serialize_le).
  assert (Hlen : Z.of_nat (length data) = 17 + sl + tl + cl).
  { rewrite Hdata, !length_app, !bytes_of_string_length. cbn [le_bytes length]. lia. }
  assert (Hds : declared_sourceLen data = wrap 16 sl).
  { rewrite Hdata.
    change (declared_sourceLen _) with (le_value (le_bytes 2 (wrap 16 sl))).
    rewrite le_value_bytes. apply Z.mod_small.
    change (256 ^ Z.of_nat 2) with (2 ^ 16). unfold wrap.
    apply Z.mod_pos_bound. lia. }
  assert (Hdt : declared_targetLen data = wrap 16 tl).
  { rewrite Hdata.
    change (declared_targetLen _) with (le_value (le_bytes 2 (wrap 16 tl))).
    rewrite le_value_bytes. apply Z.mod_small.
    change (256 ^ Z.of_nat 2) with (2 ^ 16). unfold wrap.
    apply Z.mod_pos_bound. lia. }
  assert (Hdc : declared_contentLen data = wrap 32 cl).
  { rewrite Hdata.
    change (declared_contentLen _) with (le_value (le_bytes 4 (wrap 32 cl))).
    rewrite le_value_bytes. apply Z.mod_small.
    change (256 ^ Z.of_nat 4) with (2 ^ 32). unfold wrap.
    apply Z.mod_pos_bound. lia. }
  split; [exact Hlen|].
  exists (sliced data). split.
  - apply Deserialize_complete. unfold declared_total. rewrite Hds, Hdt, Hdc. lia.
  - unfold sliced. rewrite Hds, Hdt, Hdc.
    cbn [SerializableMessage.source SerializableMessage.target
         SerializableMessage.content].
    rewrite !string_of_bytes_length. unfold sub_bytes.
    rewrite !length_take, !length_drop. lia.
Qed.

(** ** Cipher: chunks and known plaintext *)

Lemma key_at_period (key : list byte) (n i : nat) :
  (n mod 32 = 0)%nat ->
  EncryptionManager.key_at key (n + i) = EncryptionManager.key_at key i.
Proof.
  intros Hn. unfold EncryptionManager.key_at. f_equal.
  rewrite Nat.Div0.add_mod, Hn, Nat.add_0_l. apply Nat.Div0.mod_mod.
Qed.

(** X18: encrypting two pieces one after the other is the same as
    encrypting them as one sequence when the first piece has a length
    that is a multiple of 32, the key length: the key stream restarts at
    the front of every call. *)
Theorem Encrypt_app_aligned (key a b : list byte) :
  (length a mod 32 = 0)%nat ->
  EncryptionManager.Encrypt key (a ++ b)
  = EncryptionManager.Encrypt key a ++ EncryptionManager.Encrypt key b.
Proof.
  intros Ha. unfold EncryptionManager.Encrypt. rewrite imap_app. f_equal.
  apply imap_ext. intros i x _. cbn. now rewrite key_at_period.
Qed.

Lemma Encrypt_app_aligned_witness :
  let key := map (fun i => u8_of (Z.of_nat i * 7 + 3)) (seq 0 32) in
  let a := map (fun i => u8_of (Z.of_nat i)) (seq 0 64) in
  (length a mod 32 = 0)%nat
  /\ EncryptionManager.Encrypt key (a ++ [x41; x42])
     = EncryptionManager.Encrypt key a ++ EncryptionManager.Encrypt key [x41; x42].
Proof.
  split; [reflexivity|].
  apply (Encrypt_app_aligned (map (fun i => u8_of (Z.of_nat i * 7 + 3)) (seq 0 32))
           (map (fun i => u8_of (Z.of_nat i)) (seq 0 64)) [x41; x42]).
  reflexivity.
Defined.

Lemma byte_xor_comm (a b : byte) : byte_xor a b = byte_xor b a.
Proof. unfold byte_xor. now rewrite Z.lxor_comm. Qed.

(** X19: the cipher gives its key away to anyone who knows a plaintext
    byte: the encrypted byte at an index xor the plain byte at that index
    is the key byte used there. *)
Theorem Encrypt_known_plaintext (key data : list byte) (i : nat) (d : byte) :
  data !! i = Some d ->
  exists e, EncryptionManager.Encrypt key data !! i = Some e
            /\ byte_xor e d = EncryptionManager.key_at key i.
Proof.
  intros Hd. unfold EncryptionManager.Encrypt.
  rewrite list_lookup_imap, Hd. cbn. eexists. split; [reflexivity|].
  rewrite (byte_xor_comm d (EncryptionManager.key_at key i)).
  apply byte_xor_involutive.
Qed.

Lemma Encrypt_known_plaintext_witness :
  let key := map (fun i => u8_of (Z.of_nat i * 7 + 3)) (seq 0 32) in
  [x41; x42; x43] !! 2%nat = Some x43
  /\ exists e, EncryptionManager.Encrypt key [x41; x42; x43] !! 2%nat = Some e
               /\ byte_xor e x43 = EncryptionManager.key_at key 2.
Proof.
  split; [reflexivity|].
  apply (Encrypt_known_plaintext (map (fun i => u8_of (Z.of_nat i * 7 + 3)) (seq 0 32))
           [x41; x42; x43] 2 x43).
  reflexivity.
Defined.

(** ** Themes *)

Lemma ui_call_visible (c : UiCall) (u u' : UiManager.t) :
  ui_visible u = ui_visible u' -> ui_visible (ui_call c u) = ui_visible (ui_call c u').
Proof.
  unfold ui_visible. intros [= Ht Hc Hl Hd].
  destruct c as [sd th|colors]; cbn; rewrite ?Ht, ?Hc, ?Hl, ?Hd; reflexivity.
Qed.

Lemma ui_calls_visible (cs : list UiCall) (u u' : UiManager.t) :
  ui_visible u = ui_visible u' -> ui_visible (ui_calls cs u) = ui_visible (ui_calls cs u').
Proof.
  revert u u'. induction cs as [|c cs IH]; intros u u' H; [exact H|].
  apply IH. now apply ui_call_visible.
Qed.

(** X20: the stored custom theme is never read.  After any sequence of
    SetTheme and SetCustomColors calls, the current theme and the current
    colours are the same whatever custom theme the manager held before the
    calls, so the member the constructor leaves uninitialized never shows. *)
Theorem customTheme_never_read (cs : list UiCall) (junk : UiManager.UiColors)
    (u : UiManager.t) :
  UiManager.GetCurrentColors (ui_calls cs (with_customTheme junk u))
  = UiManager.GetCurrentColors (ui_calls cs u)
  /\ UiManager._currentTheme (ui_calls cs (with_customTheme junk u))
     = UiManager._currentTheme (ui_calls cs u).
Proof.
  pose proof (ui_calls_visible cs (with_customTheme junk u) u eq_refl) as Hvis.
  unfold ui_visible in Hvis. now inversion Hvis.
Qed.

(** X21: the order of SetCustomColors and SetTheme(CUSTOM) matters.  On a
    manager whose theme is not CUSTOM, setting the custom colours and then
    choosing the CUSTOM theme leaves the colours shown as they were;
    choosing the CUSTOM theme first and setting the colours afterwards
    shows them. *)
Theorem SetTheme_CUSTOM_order (systemDark : bool) (colors : UiManager.UiColors)
    (u : UiManager.t) :
  UiManager._currentTheme u <> UiManager.CUSTOM ->
  UiManager.GetCurrentColors
    (UiManager.SetTheme systemDark UiManager.CUSTOM (UiManager.SetCustomColors colors u))
  = UiManager.GetCurrentColors u
  /\ UiManager.GetCurrentColors
       (UiManager.SetCustomColors colors (UiManager.SetTheme systemDark UiManager.CUSTOM u))
     = colors.
Proof.
  intros Hth. split; [|reflexivity].
  unfold UiManager.GetCurrentColors. cbn.
  now destruct (UiManager._currentTheme u).
Qed.

Lemma SetTheme_CUSTOM_order_witness :
  UiManager.GetCurrentColors
    (UiManager.SetTheme false UiManager.CUSTOM
       (UiManager.SetCustomColors UiManager.default_dark
          (UiManager.new false UiManager.default_dark)))
  = UiManager.default_light
  /\ UiManager.GetCurrentColors
       (UiManager.SetCustomColors UiManager.default_dark
          (UiManager.SetTheme false UiManager.CUSTOM
             (UiManager.new false UiManager.default_dark)))
     = UiManager.default_dark.
Proof.
  apply (SetTheme_CUSTOM_order false UiManager.default_dark
           (UiManager.new false UiManager.default_dark)).
  discriminate.
Defined.

(** ** Monitors *)

(** X22: GetPrimaryMonitor returns null exactly when there is no monitor;
    otherwise it returns a monitor of the list, and that monitor is flagged
    primary unless no monitor of the list is, in which case it is the first
    one. *)
Theorem GetPrimaryMonitor_choice (monitors : list MultiMonitorManager.Monitor) :
  (MultiMonitorManager.GetPrimaryMonitor monitors = None <-> monitors = [])
  /\ forall m, MultiMonitorManager.GetPrimaryMonitor monitors = Some m ->
       In m monitors
       /\ (MultiMonitorManager.isPrimary m = false ->
           head monitors = Some m
           /\ forall m', In m' monitors -> MultiMonitorManager.isPrimary m' = false).
Proof.
  unfold MultiMonitorManager.GetPrimaryMonitor.
  destruct (List.find MultiMonitorManager.isPrimary monitors) as [p|] eqn:Hfind.
  - apply find_some in Hfind. destruct Hfind as [Hin Hp]. split.
    + split; [discriminate|]. intros ->. destruct Hin.
    + intros m [= <-]. split; [exact Hin|]. intros Hnp. congruence.
  - split.
    + destruct monitors; [now split|]. split; discriminate.
    + intros m Hhead. split.
      * destruct monitors as [|m0 ms]; [discriminate|].
        injection Hhead as ->. now left.
      * intros _. split; [exact Hhead|]. now apply find_none.
Qed.

Lemma GetMonitorById_first (monitors : list MultiMonitorManager.Monitor) (i : Z)
    (m : MultiMonitorManager.Monitor) :
  MultiMonitorManager.GetMonitorById monitors i = Some m ->
  In m monitors /\ MultiMonitorManager.id m = i.
Proof.
  unfold MultiMonitorManager.GetMonitorById. intros H. apply find_some in H.
  destruct H as [Hin Hid]. split; [exact Hin|]. now apply Z.eqb_eq.
Qed.

(** X23: when no two monitors share an id, GetMonitorById finds every
    monitor of the list under its own id, and CaptureMonitor answers a
    known id with the capture of the whole screen, the same for every
    monitor; an id that no monitor has gives null and an empty capture. *)
Theorem GetMonitorById_lookup (monitors : list MultiMonitorManager.Monitor)
    (screen : list byte) :
  NoDup (map MultiMonitorManager.id monitors) ->
  (forall m, In m monitors ->
     MultiMonitorManager.GetMonitorById monitors (MultiMonitorManager.id m) = Some m
     /\ MultiMonitorManager.CaptureMonitor monitors screen (MultiMonitorManager.id m)
        = screen)
  /\ (forall i, (forall m, In m monitors -> MultiMonitorManager.id m <> i) ->
        MultiMonitorManager.GetMonitorById monitors i = None
        /\ MultiMonitorManager.CaptureMonitor monitors screen i = []).
Proof.
  intros Hnd. split.
  - assert (Hfind : forall m, In m monitors ->
      MultiMonitorManager.GetMonitorById monitors (MultiMonitorManager.id m) = Some m).
    { induction monitors as [|m0 ms IH]; intros m Hin; [destruct Hin|].
      cbn [map] in Hnd. apply NoDup_cons in Hnd. destruct Hnd as [Hfresh Hnd].
      unfold MultiMonitorManager.GetMonitorById in *. cbn [List.find].
      destruct Hin as [->|Hin].
      - now rewrite Z.eqb_refl.
      - destruct (MultiMonitorManager.id m0 =? MultiMonitorManager.id m) eqn:E.
        + apply Z.eqb_eq in E. exfalso. apply Hfresh. rewrite E.
          apply list_elem_of_In. now apply in_map.
        + now apply IH. }
    intros m Hin. split; [now apply Hfind|].
    unfold MultiMonitorManager.CaptureMonitor. now rewrite Hfind.
  - intros i Hnone.
    assert (Hfind : MultiMonitorManager.GetMonitorById monitors i = None).
    { destruct (MultiMonitorManager.GetMonitorById monitors i) as [m|] eqn:E;
        [|reflexivity].
      apply GetMonitorById_first in E. destruct E as [Hin Hid].
      now destruct (Hnone m Hin). }
    split; [exact Hfind|].
    unfold MultiMonitorManager.CaptureMonitor. now rewrite Hfind.
Qed.

Lemma two_monitors_NoDup :
  NoDup (map MultiMonitorManager.id [left_monitor; right_monitor]).
Proof.
  cbn. apply NoDup_cons. split; [|apply NoDup_singleton].
  intros H. apply list_elem_of_singleton in H. discriminate.
Qed.

Lemma GetMonitorById_lookup_witness :
  MultiMonitorManager.GetMonitorById [left_monitor; right_monitor] 1 = Some right_monitor
  /\ MultiMonitorManager.CaptureMonitor [left_monitor; right_monitor] [u8_of 7] 1
     = [u8_of 7].
Proof.
  apply (proj1 (GetMonitorById_lookup [left_monitor; right_monitor] [u8_of 7]
                  two_monitors_NoDup) right_monitor).
  right. now left.
Defined.

(** ** Logins *)

Lemma elapsed_seconds (tps d : Z) :
  0 < tps -> (Z.quot d tps <? 300) = (d <? 300 * tps).
Proof.
  intros Htps. destruct (Z.le_gt_cases 0 d) as [Hd|Hd].
  - rewrite Z.quot_div_nonneg by lia.
    destruct (d <? 300 * tps) eqn:E.
    + apply Z.ltb_lt in E. apply Z.ltb_lt. apply Z.div_lt_upper_bound; lia.
    + apply Z.ltb_ge in E. apply Z.ltb_ge. apply Z.div_le_lower_bound; lia.
  - assert (Z.quot d tps <= 0).
    { rewrite <- (Z.opp_involutive d), Z.quot_opp_l by lia.
      pose proof (Z.quot_pos (- d) tps ltac:(lia) ltac:(lia)). lia. }
    transitivity true; [apply Z.ltb_lt; lia|symmetry; apply Z.ltb_lt; nia].
Qed.

(** X24: a revoked session is gone for good.  After RevokeSession the
    session id no longer validates at any time, a second RevokeSession on
    it returns false, the first returns true exactly when the id was held,
    and the sessions under other ids are kept. *)
Theorem RevokeSession_invalidates (sessionId : string) (a : AuthenticationManager.t) :
  let a' := snd (AuthenticationManager.RevokeSession sessionId a) in
  (forall tps now, AuthenticationManager.ValidateSession tps now sessionId a' = false)
  /\ AuthenticationManager.RevokeSession sessionId a' = (false, a')
  /\ (fst (AuthenticationManager.RevokeSession sessionId a) = true
      <-> is_Some (AuthenticationManager._sessions a !! sessionId))
  /\ (forall other, other <> sessionId ->
        AuthenticationManager._sessions a' !! other
        = AuthenticationManager._sessions a !! other)
  /\ AuthenticationManager._lastAuthTime a' = AuthenticationManager._lastAuthTime a.
Proof.
  intros a'.
  assert (Hgone : AuthenticationManager._sessions a' !! sessionId = None).
  { subst a'. unfold AuthenticationManager.RevokeSession.
    destruct (AuthenticationManager._sessions a !! sessionId) eqn:E; cbn.
    - apply lookup_delete_eq.
    - exact E. }
  split; [|split; [|split; [|split]]].
  - intros tps now. unfold AuthenticationManager.ValidateSession. now rewrite Hgone.
  - unfold AuthenticationManager.RevokeSession at 1. now rewrite Hgone.
  - unfold AuthenticationManager.RevokeSession.
    destruct (AuthenticationManager._sessions a !! sessionId) eqn:E; cbn.
    + split; eauto.
    + split; [discriminate|]. intros [? ?]. discriminate.
  - intros other Hne. subst a'. unfold AuthenticationManager.RevokeSession.
    destruct (AuthenticationManager._sessions a !! sessionId) eqn:E; cbn;
      [|reflexivity].
    now apply lookup_delete_ne.
  - subst a'. unfold AuthenticationManager.RevokeSession.
    now destruct (AuthenticationManager._sessions a !! sessionId).
Qed.

(** X25: the time of the last login is shared by all sessions.  After an
    Authenticate call at time t, by any user with any password, every
    session id the manager holds validates at every time less than 300
    seconds after t and none does from 300 seconds on, however long the
    session had been idle before the call. *)
Theorem Authenticate_refreshes_every_session (tps t now : Z)
    (username password sessionId : string) (a : AuthenticationManager.t) :
  0 < tps ->
  is_Some (AuthenticationManager._sessions a !! sessionId) ->
  fst (AuthenticationManager.Authenticate t username password a) = true
  /\ AuthenticationManager.ValidateSession tps now sessionId
       (snd (AuthenticationManager.Authenticate t username password a))
     = (now - t <? 300 * tps).
Proof.
  intros Htps [user Huser]. split; [reflexivity|].
  unfold AuthenticationManager.ValidateSession, AuthenticationManager.Authenticate.
  cbn [snd AuthenticationManager._sessions AuthenticationManager._lastAuthTime].
  rewrite Huser. unfold AuthenticationManager.INACTIVITY_TIMEOUT_SECONDS.
  now apply elapsed_seconds.
Qed.

Lemma Authenticate_refreshes_every_session_witness :
  AuthenticationManager.ValidateSession 1000 900000 "5f" alice_logged_in = false
  /\ AuthenticationManager.ValidateSession 1000 900000 "5f"
       (snd (AuthenticationManager.Authenticate 899000 "bob" "guess" alice_logged_in))
     = true.
Proof.
  split; [reflexivity|].
  rewrite (proj2 (Authenticate_refreshes_every_session 1000 899000 900000
                    "bob" "guess" "5f" alice_logged_in
                    ltac:(lia) ltac:(now exists "alice"))).
  reflexivity.
Defined.

(** ** Chat *)

Lemma append_assoc_string (a b c : string) : (a +:+ b) +:+ c = a +:+ (b +:+ c).
Proof.
  induction a as [|x a IH]; [reflexivity|].
  change (String x a +:+ b) with (String x (a +:+ b)).
  change (String x (a +:+ b) +:+ c) with (String x ((a +:+ b) +:+ c)).
  change (String x a +:+ (b +:+ c)) with (String x (a +:+ (b +:+ c))).
  now rewrite IH.
Qed.

Lemma append_length (a b : string) :
  String.length (a +:+ b) = (String.length a + String.length b)%nat.
Proof.
  induction a as [|x a IH]; [reflexivity|].
  change (String x a +:+ b) with (String x (a +:+ b)).
  cbn [String.length]. now rewrite IH.
Qed.

Lemma find_first_skip (p : ascii -> bool) (a : string) (c : ascii) (rest : string) :
  forallb (fun x => negb (p x)) (list_ascii_of_string a) = true ->
  p c = true ->
  find_first p (a +:+ String c rest) 0 = Some (String.length a).
Proof.
  intros Ha Hc. induction a as [|d a IH].
  - change (EmptyString +:+ String c rest) with (String c rest).
    cbn [find_first String.length]. now rewrite Hc.
  - cbn [list_ascii_of_string forallb] in Ha. apply andb_true_iff in Ha.
    destruct Ha as [Hd Ha]. apply negb_true_iff in Hd.
    change (String d a +:+ String c rest) with (String d (a +:+ String c rest)).
    cbn [find_first String.length]. rewrite Hd. now rewrite IH.
Qed.

Lemma substring_app_offset (a b : string) (k m : nat) :
  substring (String.length a + k) m (a +:+ b) = substring k m b.
Proof.
  induction a as [|c a IH]; [reflexivity|].
  change (String c a +:+ b) with (String c (a +:+ b)).
  cbn [String.length Nat.add substring]. exact IH.
Qed.

(** How [ReceiveMessage] reads a text of three fields whose first two hold
    no bar. *)
Lemma ReceiveMessage_fields (tps now : Z) (sender field message : string)
    (c : ChatManager.t) :
  has_no_bar sender = true -> has_no_bar field = true ->
  ChatManager.ReceiveMessage tps now (barred sender field message) c
  = match stoll field with
    | None => ChatManager.Threw
    | Some seconds =>
        ChatManager.Message
          (chat_message sender message (ChatManager.from_time_t tps seconds))
          (remembered
             (chat_message sender message (ChatManager.from_time_t tps seconds)) c)
    end.
Proof.
  intros Hs Hf. unfold ChatManager.ReceiveMessage, barred.
  change ("|" +:+ field +:+ "|" +:+ message)
    with (String "|" (field +:+ String "|" message)).
  rewrite (find_first_skip ChatManager.is_bar sender "|" _ Hs eq_refl).
  replace (S (String.length sender)) with (String.length sender + 1)%nat by lia.
  rewrite find_first_app. cbn [find_first].
  rewrite (find_first_skip ChatManager.is_bar field "|" _ Hf eq_refl).
  cbn [option_map].
  rewrite substring_0_app.
  replace (String.length sender + S (String.length field) - String.length sender - 1)%nat
    with (String.length field) by lia.
  rewrite substring_app_offset. cbn [substring]. rewrite substring_0_app.
  assert (Hcontent :
    substr (String.length sender + S (String.length field) + 1)
      (sender +:+ String "|" (field +:+ String "|" message)) = Some message).
  { replace (sender +:+ String "|" (field +:+ String "|" message))
      with ((sender +:+ String "|" (field +:+ "|")) +:+ message).
    - replace (String.length sender + S (String.length field) + 1)%nat
        with (String.length (sender +:+ String "|" (field +:+ "|"))).
      + apply substr_app.
      + rewrite append_length. cbn [String.length]. rewrite append_length.
        cbn [String.length]. lia.
    - rewrite append_assoc_string. f_equal.
      change (String "|" (field +:+ "|") +:+ message)
        with (String "|" ((field +:+ "|") +:+ message)).
      now rewrite append_assoc_string. }
  rewrite Hcontent. reflexivity.
Qed.

Lemma digits_no_bar (s : string) :
  forallb is_digit (list_ascii_of_string s) = true -> has_no_bar s = true.
Proof.
  unfold has_no_bar. rewrite !forallb_forall. intros H c Hc.
  specialize (H c Hc). apply negb_true_iff. apply Ascii.eqb_neq. intros ->.
  discriminate.
Qed.

Lemma stoll_to_string (n : Z) : 0 <= n < 2 ^ 63 -> stoll (to_string n) = Some n.
Proof.
  intros Hn.
  pose proof (read_digits_to_string n EmptyString ltac:(lia) I) as Hread.
  rewrite append_empty_r in Hread.
  destruct (to_string_digits n ltac:(lia)) as (_ & c & r & Htext & Hc).
  rewrite Htext in *.
  destruct (digit_char_plain c Hc) as (Hsp & Hminus & Hplus).
  unfold stoll. cbn [skip_space]. rewrite Hsp, Hminus, Hplus, Hread.
  replace (- 2 ^ 63 <=? n) with true by (symmetry; apply Z.leb_le; lia).
  replace (n <? 2 ^ 63) with true by (symmetry; apply Z.ltb_lt; lia).
  reflexivity.
Qed.

Lemma remember_shape (m : ChatManager.ChatMessage) (h : list ChatManager.ChatMessage) :
  ChatManager.remember m h
  = if (length h <? ChatManager.MAX_CHAT_HISTORY)%nat then h ++ [m] else tail h ++ [m].
Proof.
  unfold ChatManager.remember, ChatManager.MAX_CHAT_HISTORY.
  rewrite length_app. cbn [length].
  destruct (length h <? 100)%nat eqn:E.
  - apply Nat.ltb_lt in E.
    now replace (100 <? length h + 1)%nat with false by (symmetry; apply Nat.ltb_ge; lia).
  - apply Nat.ltb_ge in E.
    replace (100 <? length h + 1)%nat with true by (symmetry; apply Nat.ltb_lt; lia).
    destruct h; [cbn in E; lia|reflexivity].
Qed.

Lemma remember_length (m : ChatManager.ChatMessage) (h : list ChatManager.ChatMessage) :
  (length h <= ChatManager.MAX_CHAT_HISTORY)%nat ->
  (length (ChatManager.remember m h) <= ChatManager.MAX_CHAT_HISTORY)%nat.
Proof.
  intros Hh. rewrite remember_shape. unfold ChatManager.MAX_CHAT_HISTORY in *.
  destruct (length h <? 100)%nat eqn:E.
  - apply Nat.ltb_lt in E. rewrite length_app. cbn [length]. lia.
  - rewrite length_app. destruct h; cbn [tail length] in *; lia.
Qed.

(** X26: the chat history never holds more than 100 messages.  On a
    manager within the bound, SendMessage and ReceiveMessage stay within
    it; a message that was sent goes to the end of the history, dropping
    the oldest one when 100 were held, and a message whose SendData failed
    is not stored. *)
Theorem chat_history_bounded (c : ChatManager.t) :
  (length (ChatManager._messageHistory c) <= ChatManager.MAX_CHAT_HISTORY)%nat ->
  (forall sent tps now sender message,
     let c' := snd (ChatManager.SendMessage sent tps now sender message c) in
     (length (ChatManager._messageHistory c') <= ChatManager.MAX_CHAT_HISTORY)%nat
     /\ snd (fst (ChatManager.SendMessage sent tps now sender message c)) = sent
     /\ (sent = false -> c' = c)
     /\ (sent = true ->
         ChatManager._messageHistory c'
         = if (length (ChatManager._messageHistory c) <? ChatManager.MAX_CHAT_HISTORY)%nat
           then ChatManager._messageHistory c ++ [chat_message sender message now]
           else tail (ChatManager._messageHistory c)
                ++ [chat_message sender message now]))
  /\ (forall tps now text m c',
        ChatManager.ReceiveMessage tps now text c = ChatManager.Message m c' ->
        (length (ChatManager._messageHistory c') <= ChatManager.MAX_CHAT_HISTORY)%nat).
Proof.
  intros Hc. split.
  - intros sent tps now sender message c'. subst c'.
    unfold ChatManager.SendMessage. destruct sent; cbn [fst snd].
    + split; [now apply remember_length|]. split; [reflexivity|].
      split; [discriminate|]. intros _. apply remember_shape.
    + split; [exact Hc|]. split; [reflexivity|]. split; [reflexivity|discriminate].
  - intros tps now text m c'. unfold ChatManager.ReceiveMessage.
    destruct (find_first ChatManager.is_bar text 0) as [p1|].
    + destruct (find_first ChatManager.is_bar text (S p1)) as [p2|].
      * destruct (substr (p2 + 1) text); [|discriminate].
        destruct (stoll _); [|discriminate].
        intros [= _ <-]. now apply remember_length.
      * now intros [= _ <-].
    + now intros [= _ <-].
Qed.

Lemma chat_history_bounded_witness :
  ChatManager._messageHistory
    (snd (ChatManager.SendMessage true 1000 5000 "ann" "hi" ChatManager.new))
  = [chat_message "ann" "hi" 5000].
Proof.
  exact (proj2 (proj2 (proj2 (proj1 (chat_history_bounded ChatManager.new
           ltac:(cbn; lia)) true 1000 5000 "ann" "hi"))) eq_refl).
Defined.

Lemma string_of_bytes_take (n : nat) (s : string) :
  string_of_bytes (take n (bytes_of_string s)) = substring 0 n s.
Proof.
  unfold string_of_bytes, bytes_of_string, string_of_list_byte, list_byte_of_string.
  revert n. induction s as [|c s IH]; intros n; [now destruct n|].
  destruct n as [|n]; [reflexivity|].
  cbn [list_ascii_of_string map take string_of_list_ascii substring].
  now rewrite ascii_of_byte_of_ascii, IH.
Qed.

Lemma substring_0_app_le (a b : string) (n : nat) :
  (String.length a <= n)%nat ->
  substring 0 n (a +:+ b) = a +:+ substring 0 (n - String.length a) b.
Proof.
  revert n. induction a as [|c a IH]; intros n Hlen.
  - change (EmptyString +:+ b) with b. cbn [String.length]. now rewrite Nat.sub_0_r.
  - cbn [String.length] in *. destruct n as [|n]; [lia|].
    change (String c a +:+ b) with (String c (a +:+ b)).
    change (String c a +:+ ?x) with (String c (a +:+ x)).
    cbn [substring Nat.sub]. now rewrite IH by lia.
Qed.

Lemma from_time_t_small (tps seconds : Z) :
  - 2 ^ 63 <= seconds * tps < 2 ^ 63 ->
  ChatManager.from_time_t tps seconds = seconds * tps.
Proof.
  intros H. unfold ChatManager.from_time_t, swrap.
  change (64 - 1) with 63. rewrite wrap_small; [lia|].
  change (2 ^ 64) with (2 * 2 ^ 63). lia.
Qed.

(** X27: a chat text written by SendMessage is read back by
    ReceiveMessage when it arrives whole, up to the 4096 bytes that one
    ReceiveData takes.  For a sender name without a bar, a clock at or
    after the epoch and a text whose sender and timestamp fields lie
    within the first 4096 bytes, the receiver gets the same sender, the
    sending time cut to whole seconds, and as much of the message, bars
    included, as the 4096 bytes hold: all of it when the whole text is no
    longer than that, its front otherwise; what it got goes into its
    history. *)
Theorem ReceiveMessage_SendMessage (sent : bool) (tps now now' : Z)
    (sender message : string) (c c2 : ChatManager.t) :
  0 < tps -> 0 <= now < 2 ^ 63 ->
  has_no_bar sender = true ->
  let text := fst (fst (ChatManager.SendMessage sent tps now sender message c)) in
  let fields := (String.length sender
                 + String.length (to_string (Z.quot now tps)) + 2)%nat in
  (fields <= NetworkManager.RECEIVE_BUFFER)%nat ->
  let m := chat_message sender
             (substring 0 (NetworkManager.RECEIVE_BUFFER - fields) message)
             (Z.quot now tps * tps) in
  ChatManager.ReceiveMessage_from tps now' (bytes_of_string text) c2
  = ChatManager.Message m (remembered m c2)
  /\ ((String.length text <= NetworkManager.RECEIVE_BUFFER)%nat ->
      ChatManager.content m = message)
  /\ ChatManager.timestamp m <= now < ChatManager.timestamp m + tps.
Proof.
  intros Htps Hnow Hs text fields Hfields m.
  set (ts := to_string (Z.quot now tps)) in *.
  assert (Htext : text = (sender +:+ "|" +:+ ts +:+ "|") +:+ message).
  { subst text. unfold ChatManager.SendMessage.
    replace (fst (fst (if sent then _ else _)))
      with (ChatManager.formatted tps now sender message) by (now destruct sent).
    unfold ChatManager.formatted. fold ts.
    rewrite !append_assoc_string. reflexivity. }
  assert (Hhead : String.length (sender +:+ "|" +:+ ts +:+ "|") = fields).
  { subst fields. rewrite !append_length. cbn [String.length]. lia. }
  assert (Hq : 0 <= Z.quot now tps) by (apply Z.quot_pos; lia).
  assert (Hbound : Z.quot now tps * tps <= now < Z.quot now tps * tps + tps).
  { rewrite Z.quot_div_nonneg by lia.
    pose proof (Z.div_mod now tps ltac:(lia)).
    pose proof (Z.mod_pos_bound now tps Htps). lia. }
  split; [|split].
  - unfold ChatManager.ReceiveMessage_from, NetworkManager.ReceiveData.
    rewrite string_of_bytes_take, Htext, substring_0_app_le by lia.
    rewrite Hhead.
    replace ((sender +:+ "|" +:+ ts +:+ "|")
             +:+ substring 0 (NetworkManager.RECEIVE_BUFFER - fields) message)
      with (barred sender ts
              (substring 0 (NetworkManager.RECEIVE_BUFFER - fields) message))
      by (unfold barred; now rewrite !append_assoc_string).
    rewrite ReceiveMessage_fields.
    + subst ts. rewrite stoll_to_string by nia.
      rewrite from_time_t_small by nia. reflexivity.
    + exact Hs.
    + apply digits_no_bar. now apply to_string_digits.
  - intros Hlen. subst m. cbn [chat_message ChatManager.content].
    apply substring_0_all. rewrite Htext, append_length, Hhead in Hlen. lia.
  - exact Hbound.
Qed.

Lemma ReceiveMessage_SendMessage_witness :
  ChatManager.ReceiveMessage_from 1000 0
    (bytes_of_string
       (fst (fst (ChatManager.SendMessage true 1000 1700000000999 "ann" "a|b"
                    ChatManager.new))))
    ChatManager.new
  = ChatManager.Message (chat_message "ann" "a|b" 1700000000000)
      (remembered (chat_message "ann" "a|b" 1700000000000) ChatManager.new).
Proof.
  exact (proj1 (ReceiveMessage_SendMessage true 1000 1700000000999 0 "ann" "a|b"
                  ChatManager.new ChatManager.new
                  ltac:(lia) ltac:(lia) eq_refl ltac:(vm_compute; lia))).
Defined.

Lemma find_first_bars_none (s : string) :
  find_first ChatManager.is_bar s 0 = None <-> bars s = 0%nat.
Proof.
  unfold bars. induction s as [|c s IH]; [now split|].
  cbn [find_first list_ascii_of_string List.filter].
  destruct (ChatManager.is_bar c); [split; discriminate|].
  destruct (find_first ChatManager.is_bar s 0); cbn [option_map].
  - split; [discriminate|]. intros H. apply IH in H. discriminate.
  - split; [intros _; now apply IH|reflexivity].
Qed.

Lemma find_first_bars_one (s : string) (i : nat) :
  find_first ChatManager.is_bar s 0 = Some i ->
  (find_first ChatManager.is_bar s (S i) = None <-> bars s = 1%nat).
Proof.
  revert i. induction s as [|c s IH]; intros i; [discriminate|].
  cbn [find_first]. unfold bars. cbn [list_ascii_of_string List.filter].
  destruct (ChatManager.is_bar c).
  - intros [= <-]. cbn [length]. fold (bars s).
    pose proof (find_first_bars_none s) as Hnone.
    destruct (find_first ChatManager.is_bar s 0); cbn [option_map].
    + split; [discriminate|]. intros [= H]. apply Hnone in H. discriminate.
    + split; [|reflexivity]. intros _. f_equal. now apply Hnone.
  - destruct (find_first ChatManager.is_bar s 0) as [j|] eqn:Hj; [|discriminate].
    cbn [option_map]. intros [= <-]. fold (bars s).
    rewrite <- (IH j eq_refl).
    destruct (find_first ChatManager.is_bar s (S j)); cbn [option_map];
      split; congruence.
Qed.

(** X28: a received text with fewer than two bars is answered with the
    message Invalid message format from the sender system, stamped with
    the receiver's clock, and nothing goes into the history. *)
Theorem ReceiveMessage_too_few_bars (tps now : Z) (text : string) (c : ChatManager.t) :
  (bars text < 2)%nat ->
  ChatManager.ReceiveMessage tps now text c = ChatManager.Message (invalid_format now) c.
Proof.
  intros Hbars. unfold ChatManager.ReceiveMessage.
  destruct (find_first ChatManager.is_bar text 0) as [p1|] eqn:H1.
  - assert (Hone : bars text = 1%nat).
    { assert (bars text <> 0%nat); [|lia].
      intros H0. apply find_first_bars_none in H0. congruence. }
    apply (find_first_bars_one text p1 H1) in Hone. now rewrite Hone.
  - reflexivity.
Qed.

Lemma ReceiveMessage_too_few_bars_witness :
  ChatManager.ReceiveMessage 1000 42 "ann|hi" ChatManager.new
  = ChatManager.Message (invalid_format 42) ChatManager.new.
Proof.
  apply (ReceiveMessage_too_few_bars 1000 42 "ann|hi" ChatManager.new).
  cbn. lia.
Defined.

(** X29: a timestamp field that std::stoll refuses makes ReceiveMessage
    throw.  For a text of three fields whose first two hold no bar and
    whose second is not a number in the range of long long (empty, for
    one), the exception of std::stoll leaves ReceiveMessage; a text of
    SendMessage whose sender name holds a bar followed by no number is
    such a text, since what follows the bar is read as the timestamp. *)
Theorem ReceiveMessage_bad_timestamp (tps now : Z) (sender field message : string)
    (c : ChatManager.t) :
  has_no_bar sender = true -> has_no_bar field = true -> stoll field = None ->
  ChatManager.ReceiveMessage tps now (barred sender field message) c = ChatManager.Threw.
Proof.
  intros Hs Hf Hstoll. now rewrite ReceiveMessage_fields, Hstoll.
Qed.

Lemma ReceiveMessage_bad_timestamp_witness :
  ChatManager.ReceiveMessage 1000 0 (barred "ann" EmptyString "hi") ChatManager.new
  = ChatManager.Threw
  /\ fst (fst (ChatManager.SendMessage true 1000 5000 "ann|bob" "hi" ChatManager.new))
     = barred "ann" "bob" "5|hi"
  /\ ChatManager.ReceiveMessage 1000 0
       (barred "ann" "bob" "5|hi") ChatManager.new
     = ChatManager.Threw.
Proof.
  split; [|split; [reflexivity|]].
  - now apply (ReceiveMessage_bad_timestamp 1000 0 "ann" EmptyString "hi").
  - now apply (ReceiveMessage_bad_timestamp 1000 0 "ann" "bob").
Defined.

(** ** Uploads *)

Lemma le_value_raw_nonneg (bs : list byte) : 0 <= le_value_raw bs.
Proof.
  induction bs as [|b bs IH]; cbn [le_value_raw]; [lia|].
  pose proof (u8_val_range b). lia.
Qed.

(** The loop of [ReceiveFile], entered with as many bytes written as
    counted. *)
Lemma receive_loop_written (fileSize : Z) (chunks : list (list byte)) :
  fileSize + Z.of_nat chunk_limit <= 2 ^ 64 ->
  chunks_bounded chunks ->
  forall (written : list byte) (ok : bool) (written' : list byte),
    Z.of_nat (length written) < fileSize + Z.of_nat chunk_limit ->
    FileTransfer.receive_loop fileSize (Z.of_nat (length written)) written chunks
    = (ok, written') ->
    (exists k, written' = written ++ concat (take k chunks))
    /\ if ok
       then fileSize <= Z.of_nat (length written') < fileSize + Z.of_nat chunk_limit
       else Z.of_nat (length written') < fileSize.
Proof.
  intros Hsize Hb. induction Hb as [|data chunks Hdata Hb IH];
    intros written ok written' Hinv; cbn [FileTransfer.receive_loop].
  - destruct (Z.of_nat (length written) <? fileSize) eqn:E; intros [= <- <-].
    + apply Z.ltb_lt in E. split; [|exact E]. exists 0%nat. cbn. now rewrite app_nil_r.
    + apply Z.ltb_ge in E. split; [|lia]. exists 0%nat. cbn. now rewrite app_nil_r.
  - destruct (Z.of_nat (length written) <? fileSize) eqn:E.
    + apply Z.ltb_lt in E. destruct data as [|d data].
      * intros [= <- <-]. split; [|exact E]. exists 0%nat. cbn. now rewrite app_nil_r.
      * set (chunk := d :: data) in *.
        assert (Hlen : wrap 64 (Z.of_nat (length written) + Z.of_nat (length chunk))
                       = Z.of_nat (length (written ++ chunk))).
        { rewrite length_app, Nat2Z.inj_add. apply wrap_small. lia. }
        rewrite Hlen. intros Hloop. apply IH in Hloop.
        -- destruct Hloop as [[k Hk] Hres]. split; [|exact Hres].
           exists (S k). cbn [take concat]. now rewrite Hk, app_assoc.
        -- rewrite length_app, Nat2Z.inj_add. lia.
    + apply Z.ltb_ge in E. intros [= <- <-]. split; [|lia].
      exists 0%nat. cbn. now rewrite app_nil_r.
Qed.

(** X30: what ReceiveFile leaves in the destination file.  For a size
    message of 8 bytes declaring less than 2^64 - 4096 and chunks of at most
    4096 bytes, the file holds the received chunks in order, whole; when the
    result is true it holds at least the declared size and less than 4096
    bytes more (the last chunk is written whole, not cut at the declared
    size), and when the result is false it holds less than the declared
    size and stays as written. *)
Theorem ReceiveFile_written (sizeData : list byte) (chunks : list (list byte))
    (ok : bool) (written : list byte) :
  length sizeData = 8%nat ->
  le_value_raw sizeData + Z.of_nat chunk_limit <= 2 ^ 64 ->
  chunks_bounded chunks ->
  FileTransfer.ReceiveFile true (sizeData :: chunks) = (ok, written) ->
  (exists k, written = concat (take k chunks))
  /\ if ok
     then le_value_raw sizeData <= Z.of_nat (length written)
          < le_value_raw sizeData + Z.of_nat chunk_limit
     else Z.of_nat (length written) < le_value_raw sizeData.
Proof.
  intros Hlen Hsize Hb. unfold FileTransfer.ReceiveFile. cbn [negb].
  rewrite Hlen. cbn [Nat.eqb negb]. intros Hloop.
  apply (receive_loop_written _ _ Hsize Hb [] ok written) in Hloop.
  - exact Hloop.
  - pose proof (le_value_raw_nonneg sizeData). cbn [length]. unfold chunk_limit. lia.
Qed.

Lemma ReceiveFile_written_witness :
  FileTransfer.ReceiveFile true
    [le_bytes 8 1; [u8_of 10; u8_of 11]; [u8_of 12]]
  = (true, [u8_of 10; u8_of 11])
  /\ exists k, [u8_of 10; u8_of 11] = concat (take k [[u8_of 10; u8_of 11]; [u8_of 12]]).
Proof.
  split; [reflexivity|].
  apply (ReceiveFile_written (le_bytes 8 1) [[u8_of 10; u8_of 11]; [u8_of 12]]
           true [u8_of 10; u8_of 11] eq_refl).
  - vm_compute. discriminate.
  - repeat constructor; cbn; lia.
  - reflexivity.
Defined.

(** ReceiveFile fails without writing anything when the destination cannot
    be opened or the first message is not of exactly 8 bytes, and succeeds
    with an empty file when the 8 bytes declare the size 0. *)
Lemma ReceiveFile_header (opened : bool) (sizeData : list byte)
    (chunks : list (list byte)) :
  (opened = false \/ length sizeData <> 8%nat ->
   FileTransfer.ReceiveFile opened (sizeData :: chunks) = (false, []))
  /\ (opened = true -> length sizeData = 8%nat -> le_value_raw sizeData = 0 ->
      FileTransfer.ReceiveFile opened (sizeData :: chunks) = (true, []))
  /\ FileTransfer.ReceiveFile opened [] = (false, []).
Proof.
  unfold FileTransfer.ReceiveFile. split; [|split].
  - intros [->|Hlen]; [reflexivity|].
    destruct opened; [|reflexivity]. cbn [negb].
    now replace (length sizeData =? 8)%nat with false
      by (symmetry; now apply Nat.eqb_neq).
  - intros -> Hlen Hzero. cbn [negb]. rewrite Hlen, Hzero. cbn [Nat.eqb negb].
    now destruct chunks.
  - now destruct opened.
Qed.
